(** * edixml: the UN/EDIFACT codec of [edixml.py], embedded and verified

    The development follows the module top-down:
    - Python values: characters are Unicode code points, [str] is a list of
      them, [bytes] a list of octets; exceptions become the [Raise] branch of
      [result];
    - the three text codecs the charset table names that are small enough to
      write out ([ascii], [iso8859-1], [utf8]); the remaining code pages of
      the Python standard library are a parameter [ext];
    - the string primitives [str.replace], [str.join], [re.sub] and
      [re.split] as the module uses them;
    - [parse_edi], [make_edi], [make_xml], [parse_xml], [report],
      [make_edi_xml];
    - the search buttons of the editor windows of [gui.py] and the two calls
      that tie its EDI editor to the codec;
    - the properties of the specification, and further properties of the
      code: when each function raises, the shape of what [parse_edi]
      returns, line breaks, and the round trip of an interchange. *)

From Stdlib Require Import List NArith ZArith Arith Bool Lia.
From Stdlib.Strings Require Import String Ascii Byte.
Import ListNotations.

(* ================================================================= *)
(** * The program *)

(* ================================================================= *)
(** ** Python values *)

(** A character is a Unicode code point; a [str] is a sequence of them. *)
Definition char := N.
Definition str := list char.
Definition bytes := list byte.

Definition lit (s : string) : str :=
  List.map N_of_ascii (list_ascii_of_string s).

Definition blit (s : string) : bytes :=
  List.map byte_of_ascii (list_ascii_of_string s).

Arguments lit s%_string.
Arguments blit s%_string.

Fixpoint str_eqb (a b : str) : bool :=
  match a, b with
  | [], [] => true
  | x :: a', y :: b' => N.eqb x y && str_eqb a' b'
  | _, _ => false
  end.

Fixpoint bytes_eqb (a b : bytes) : bool :=
  match a, b with
  | [], [] => true
  | x :: a', y :: b' => Byte.eqb x y && bytes_eqb a' b'
  | _, _ => false
  end.

(** Exceptions that the module raises or lets escape. *)
Inductive syntax_msg :=
| ExpectedSeparator (segment_no : nat) (expected got : char)
| UnknownSegment (tag : str).

Inductive exn :=
| AssertionError
| ValueError
| SyntaxError (m : syntax_msg)
| IndexError
| KeyError
| TypeError
| UnicodeDecodeError
| UnicodeEncodeError
| UnicodeError
| ReError.

(** A constructor is the class an exception is raised as.  The classes are
    related as in Python: [UnicodeDecodeError] and [UnicodeEncodeError] are
    subclasses of [UnicodeError], which is a subclass of [ValueError].
    [is_unicode_error e]: an exception raised as [e] is a [UnicodeError],
    and [except UnicodeError] catches it. *)
Definition is_unicode_error (e : exn) : bool :=
  match e with
  | UnicodeDecodeError | UnicodeEncodeError | UnicodeError => true
  | _ => false
  end.

(** [is_value_error e]: an exception raised as [e] is a [ValueError]. *)
Definition is_value_error (e : exn) : bool :=
  match e with
  | ValueError => true
  | _ => is_unicode_error e
  end.

Inductive result (A : Type) :=
| Ok (a : A)
| Raise (e : exn).
Arguments Ok {A} a.
Arguments Raise {A} e.

Definition bind {A B} (r : result A) (k : A -> result B) : result B :=
  match r with
  | Ok a => k a
  | Raise e => Raise e
  end.

Notation "x <- r ;; k" := (bind r (fun x => k))
  (at level 61, r at next level, right associativity).
Notation "'ensure' b 'else' e ;; k" := (if b then k else Raise e)
  (at level 61, b at next level, e at next level, right associativity).

(** [mapM f l] runs [f] left to right and stops at the first exception, as a
    Python loop or comprehension does. *)
Fixpoint mapM {A B} (f : A -> result B) (l : list A) : result (list B) :=
  match l with
  | [] => Ok []
  | a :: l' => b <- f a ;; bs <- mapM f l' ;; Ok (b :: bs)
  end.

(** [enumerate]: the elements paired with their index, counted from [i]. *)
Fixpoint enumerate_from {A} (i : nat) (l : list A) : list (nat * A) :=
  match l with
  | [] => []
  | a :: l' => (i, a) :: enumerate_from (S i) l'
  end.
Definition enumerate {A} (l : list A) := enumerate_from 0 l.

(* ================================================================= *)
(** ** String primitives *)

(** [s.startswith(p)] *)
Fixpoint startswith (s p : str) {struct p} : bool :=
  match p, s with
  | [], _ => true
  | x :: p', y :: s' => N.eqb x y && startswith s' p'
  | _ :: _, [] => false
  end.

Fixpoint bytes_startswith (s p : bytes) {struct p} : bool :=
  match p, s with
  | [], _ => true
  | x :: p', y :: s' => Byte.eqb x y && bytes_startswith s' p'
  | _ :: _, [] => false
  end.

(** [r.endswith(p)] *)
Definition endswith (s p : str) : bool := startswith (rev s) (rev p).

(** [data.index(p)]: the first position at which [p] occurs, [None] for the
    [ValueError] of an absent pattern. *)
Fixpoint bytes_index (data p : bytes) : option nat :=
  if bytes_startswith data p then Some 0
  else match data with
       | [] => None
       | _ :: data' => option_map S (bytes_index data' p)
       end.

(** [s.index(p)] on text. *)
Fixpoint str_index (s p : str) : option nat :=
  if startswith s p then Some 0
  else match s with
       | [] => None
       | _ :: s' => option_map S (str_index s' p)
       end.

(** [sep.join(parts)] *)
Fixpoint join (sep : str) (parts : list str) : str :=
  match parts with
  | [] => []
  | [p] => p
  | p :: ps => p ++ sep ++ join sep ps
  end.

(** [s.replace(old, new)] for non-empty [old]: a left-to-right scan that, at a
    position where [old] starts, emits [new] and passes over [old].  [skip]
    counts the characters of the current occurrence still to pass over. *)
Fixpoint replace_from (old new : str) (skip : nat) (s : str) : str :=
  match s with
  | [] => []
  | c :: s' =>
      match skip with
      | S k => replace_from old new k s'
      | O => if startswith s old
             then new ++ replace_from old new (List.length old - 1) s'
             else c :: replace_from old new 0 s'
      end
  end.

(** [s.replace(old, new)]; with an empty [old] Python puts [new] before every
    character and at the end. *)
Definition replace (old new s : str) : str :=
  match old with
  | [] => new ++ flat_map (fun c => c :: new) s
  | _ :: _ => replace_from old new 0 s
  end.

Definition is_prev (rc : char) (prev : option char) : bool :=
  match prev with
  | Some p => N.eqb p rc
  | None => false
  end.

(** [re.split('(?<!rc)d', s)]: cut at every [d] whose left neighbour in [s] is
    not [rc].  [prev] is the character before the current position, which is
    what the look-behind reads. *)
Fixpoint re_split_from (rc d : char) (prev : option char) (s : str) : list str :=
  match s with
  | [] => [[]]
  | c :: s' =>
      if N.eqb c d && negb (is_prev rc prev)
      then [] :: re_split_from rc d (Some c) s'
      else match re_split_from rc d (Some c) s' with
           | p :: ps => (c :: p) :: ps
           | [] => [[c]]
           end
  end.
Definition re_split (rc d : char) (s : str) : list str := re_split_from rc d None s.

(** [re.sub('(?<!rc)st cr? nl', st, s)] once the replacement template is known
    to be a literal: every [st] not preceded by [rc] and followed by an
    optional [cr] and a [nl] loses that line break.  The optional [cr] is
    greedy, with the alternative without it tried second. *)
Fixpoint re_sub_breaks_from (rc st cr nl : char) (prev : option char) (skip : nat)
    (s : str) : str :=
  match s with
  | [] => []
  | c :: s' =>
      match skip with
      | S k => re_sub_breaks_from rc st cr nl (Some c) k s'
      | O =>
          if N.eqb c st && negb (is_prev rc prev)
          then match s' with
               | x :: y :: _ =>
                   if N.eqb x cr && N.eqb y nl
                   then st :: re_sub_breaks_from rc st cr nl (Some c) 2 s'
                   else if N.eqb x nl
                        then st :: re_sub_breaks_from rc st cr nl (Some c) 1 s'
                        else c :: re_sub_breaks_from rc st cr nl (Some c) 0 s'
               | [x] =>
                   if N.eqb x nl
                   then st :: re_sub_breaks_from rc st cr nl (Some c) 1 s'
                   else c :: re_sub_breaks_from rc st cr nl (Some c) 0 s'
               | [] => [c]
               end
          else c :: re_sub_breaks_from rc st cr nl (Some c) 0 s'
      end
  end.

Definition backslash : char := 92%N.

(** [re.sub(pattern_1, st, s)].  The replacement is a template: a lone
    backslash is a bad escape and [re] raises before it scans. *)
Definition re_sub_breaks (rc st cr nl : char) (s : str) : result str :=
  if N.eqb st backslash then Raise ReError
  else Ok (re_sub_breaks_from rc st cr nl None 0 s).

(** [l[:-1]] *)
Definition drop_last {A} (l : list A) : list A := removelast l.

(** [str(n)] for a non-negative integer. *)
Definition digit_char (d : nat) : char := (48 + N.of_nat d)%N.

Fixpoint str_of_nat_fuel (fuel n : nat) (acc : str) : str :=
  match fuel with
  | O => acc
  | S f =>
      let acc' := digit_char (n mod 10) :: acc in
      if n / 10 =? 0 then acc' else str_of_nat_fuel f (n / 10) acc'
  end.
Definition str_of_nat (n : nat) : str := str_of_nat_fuel (S n) n [].

(* ================================================================= *)
(** ** Text codecs *)

Record Codec := {
  encode : str -> option bytes;   (* [None]: UnicodeEncodeError *)
  decode : bytes -> option str    (* [None]: UnicodeDecodeError *)
}.

Definition byte_of_N (n : N) : byte :=
  match Byte.of_N n with
  | Some b => b
  | None => x00
  end.

Fixpoint encode_below (bound : N) (s : str) : option bytes :=
  match s with
  | [] => Some []
  | c :: s' =>
      if (c <? bound)%N
      then option_map (cons (byte_of_N c)) (encode_below bound s')
      else None
  end.

Fixpoint decode_below (bound : N) (b : bytes) : option str :=
  match b with
  | [] => Some []
  | x :: b' =>
      if (Byte.to_N x <? bound)%N
      then option_map (cons (Byte.to_N x)) (decode_below bound b')
      else None
  end.

Definition ascii_codec : Codec :=
  {| encode := encode_below 128; decode := decode_below 128 |}.

Definition latin1_codec : Codec :=
  {| encode := encode_below 256; decode := decode_below 256 |}.

Definition is_surrogate (c : N) : bool := ((55296 <=? c) && (c <=? 57343))%N.

Definition utf8_encode_char (c : N) : option bytes :=
  if (c <? 128)%N then Some [byte_of_N c]
  else if (c <? 2048)%N then
    Some [byte_of_N (192 + c / 64); byte_of_N (128 + c mod 64)]
  else if (c <? 65536)%N then
    if is_surrogate c then None
    else Some [byte_of_N (224 + c / 4096); byte_of_N (128 + (c / 64) mod 64);
               byte_of_N (128 + c mod 64)]
  else if (c <? 1114112)%N then
    Some [byte_of_N (240 + c / 262144); byte_of_N (128 + (c / 4096) mod 64);
          byte_of_N (128 + (c / 64) mod 64); byte_of_N (128 + c mod 64)]
  else None.

Fixpoint utf8_encode (s : str) : option bytes :=
  match s with
  | [] => Some []
  | c :: s' =>
      match utf8_encode_char c, utf8_encode s' with
      | Some b, Some bs => Some (b ++ bs)
      | _, _ => None
      end
  end.

Definition is_cont (b : N) : bool := ((128 <=? b) && (b <? 192))%N.

Fixpoint utf8_decode (b : bytes) : option str :=
  match b with
  | [] => Some []
  | b0 :: r0 =>
      let n0 := Byte.to_N b0 in
      if (n0 <? 128)%N then option_map (cons n0) (utf8_decode r0)
      else match r0 with
      | [] => None
      | b1 :: r1 =>
          let n1 := Byte.to_N b1 in
          if negb (is_cont n1) then None
          else if ((194 <=? n0) && (n0 <? 224))%N then
            option_map (cons ((n0 - 192) * 64 + (n1 - 128))%N) (utf8_decode r1)
          else match r1 with
          | [] => None
          | b2 :: r2 =>
              let n2 := Byte.to_N b2 in
              if negb (is_cont n2) then None
              else if ((224 <=? n0) && (n0 <? 240))%N then
                let c := ((n0 - 224) * 4096 + (n1 - 128) * 64 + (n2 - 128))%N in
                if (c <? 2048)%N || is_surrogate c then None
                else option_map (cons c) (utf8_decode r2)
              else match r2 with
              | [] => None
              | b3 :: r3 =>
                  let n3 := Byte.to_N b3 in
                  if negb (is_cont n3) then None
                  else if ((240 <=? n0) && (n0 <? 245))%N then
                    let c := ((n0 - 240) * 262144 + (n1 - 128) * 4096
                              + (n2 - 128) * 64 + (n3 - 128))%N in
                    if (c <? 65536)%N || (1114112 <=? c)%N then None
                    else option_map (cons c) (utf8_decode r3)
                  else None
              end
          end
      end
  end.

Definition utf8_codec : Codec :=
  {| encode := utf8_encode; decode := utf8_decode |}.

(** The codec registry: the three codecs above by name, any other name from
    [ext], which stands for the code pages of the standard library (the
    ISO-8859 tables other than part 1, ISO-2022-JP and UTF-16). *)
Definition lookup_codec (ext : str -> Codec) (name : str) : Codec :=
  if str_eqb name (lit "ascii") then ascii_codec
  else if str_eqb name (lit "iso8859-1") then latin1_codec
  else if str_eqb name (lit "utf8") then utf8_codec
  else ext name.

(** A registry without further code pages: nothing encodes or decodes. *)
Definition no_code_pages : str -> Codec :=
  fun _ => {| encode := fun _ => None; decode := fun _ => None |}.

(* ================================================================= *)
(** ** Constants of the module *)

Definition COMPONENT_SEPARATOR : char := 58%N.     (* ':' *)
Definition DATAELEMENT_SEPARATOR : char := 43%N.   (* '+' *)
Definition DECIMAL_MARK : char := 46%N.            (* '.' *)
Definition RELEASE_CHAR : char := 63%N.            (* '?' *)
Definition SPACE : char := 32%N.                   (* ' ' *)
Definition SEGMENT_TERMINATOR : char := 39%N.      (* the apostrophe *)
Definition NEWLINE : char := 10%N.
Definition CARRIAGE_RETURN : char := 13%N.

(** [ENCODINGS]: syntax identifier to codec name, in the order of the dict.
    The [ACCEPTED_CHARACTERS] lists of UNOA and UNOB only feed the warnings
    that [parse_edi] prints on request; they take no part in what it returns
    or raises and are left out. *)
Definition ENCODINGS : list (str * str) := Eval cbv in
  [ (lit "UNOA", lit "ascii"); (lit "UNOB", lit "ascii");
    (lit "UNOC", lit "iso8859-1"); (lit "UNOD", lit "iso8859-2");
    (lit "UNOE", lit "iso8859-5"); (lit "UNOF", lit "iso8859-7");
    (lit "UNOG", lit "iso8859-3"); (lit "UNOH", lit "iso8859-4");
    (lit "UNOI", lit "iso8859-6"); (lit "UNOJ", lit "iso8859-8");
    (lit "UNOK", lit "iso8859-9"); (lit "UNOL", lit "iso8859-15");
    (lit "UNOX", lit "iso2022_jp_ext"); (lit "UNOY", lit "utf8");
    (lit "UNOW", lit "utf16") ].

(** [d[k]] on a dict kept as an association list; [None] is the KeyError. *)
Fixpoint lookup {V} (k : str) (d : list (str * V)) : option V :=
  match d with
  | [] => None
  | (k', v) :: d' => if str_eqb k k' then Some v else lookup k d'
  end.

Definition SEGMENT_NAMES : list string :=
  [
   "ADR"; "AGR"; "AJT"; "ALC"; "ALI"; "APP"; "APR"; "ARD"; "ARR"; "ASI"; "ATT"; "AUT";
   "BAS"; "BGM"; "BII"; "BUS"; "CAV"; "CCD"; "CCI"; "CDI"; "CDS"; "CDV"; "CED"; "CIN";
   "CLA"; "CLI"; "CMP"; "CNI"; "CNT"; "COD"; "COM"; "COT"; "CPI"; "CPS"; "CPT"; "CST";
   "CTA"; "CUX"; "DAM"; "DFN"; "DGS"; "DII"; "DIM"; "DLI"; "DLM"; "DMS"; "DOC"; "DRD";
   "DSG"; "DSI"; "DTM"; "EDT"; "EFI"; "ELM"; "ELU"; "ELV"; "EMP"; "EQA"; "EQD"; "EQN";
   "ERC"; "ERP"; "EVE"; "FCA"; "FII"; "FNS"; "FNT"; "FOR"; "FSQ"; "FTX"; "GDS"; "GEI";
   "GID"; "GIN"; "GIR"; "GOR"; "GPO"; "GRU"; "HAN"; "HYN"; "ICD"; "IDE"; "IFD"; "IHC";
   "IMD"; "IND"; "INP"; "INV"; "IRQ"; "LAN"; "LIN"; "LOC"; "MEA"; "MEM"; "MKS"; "MOA";
   "MSG"; "MTD"; "NAD"; "NAT"; "PAC"; "PAI"; "PAS"; "PCC"; "PCD"; "PCI"; "PDI"; "PER";
   "PGI"; "PIA"; "PNA"; "POC"; "PRC"; "PRI"; "PRV"; "PSD"; "PTY"; "PYT"; "QRS"; "QTY";
   "QUA"; "QVR"; "RCS"; "REL"; "RFF"; "RJL"; "RNG"; "ROD"; "RSL"; "RTE"; "SAL"; "SCC";
   "SCD"; "SEG"; "SEL"; "SEQ"; "SFI"; "SGP"; "SGU"; "SPR"; "SPS"; "STA"; "STC"; "STG";
   "STS"; "TAX"; "TCC"; "TDT"; "TEM"; "TMD"; "TMP"; "TOD"; "TPL"; "TRU"; "TSR"; "UCD";
   "UCF"; "UCI"; "UCM"; "UCS"; "UGH"; "UGT"; "UIB"; "UIH"; "UIR"; "UIT"; "UIZ"; "UNB";
   "UNE"; "UNG"; "UNH"; "UNO"; "UNP"; "UNS"; "UNT"; "UNZ"; "USA"; "USB"; "USC"; "USD";
   "USE"; "USF"; "USH"; "USL"; "USR"; "UST"; "USU"; "USX"; "USY"; "VLI"
  ]%string.

Definition SEGMENTS : list str := Eval cbv in List.map lit SEGMENT_NAMES.

Fixpoint mem (x : str) (l : list str) : bool :=
  match l with
  | [] => false
  | y :: l' => str_eqb x y || mem x l'
  end.

Definition UNA : str := Eval cbv in lit "UNA".
Definition UNB : str := Eval cbv in lit "UNB".

(* ================================================================= *)
(** ** The structural form *)

(** A segment is the pair of its tag and its body.  The body of a [UNA]
    segment is the list of the six service characters; the body of any other
    segment is a list of data elements, each a list of components.  Python
    keeps both in plain lists and tells them apart by the tag alone. *)
Inductive body :=
| UnaChars (chars : list char)
| Elements (data_elements : list (list str)).

Definition segment := (str * body)%type.

(** What iterating a body as data elements yields.  A list of one-character
    strings iterates as data elements that are strings, and a string iterates
    as its characters: one component per element. *)
Definition elements_of (b : body) : list (list str) :=
  match b with
  | Elements es => es
  | UnaChars cs => List.map (fun c => [[c]]) cs
  end.

(** The delimiter keyword arguments shared by [parse_edi] and [make_edi]. *)
Record Delimiters := {
  component_separator : char;
  dataelement_separator : char;
  decimal_mark : char;
  release_char : char;
  segment_terminator : char;
  newline : char;
  carriage_return : char
}.

Definition default_delimiters : Delimiters :=
  {| component_separator := COMPONENT_SEPARATOR;
     dataelement_separator := DATAELEMENT_SEPARATOR;
     decimal_mark := DECIMAL_MARK;
     release_char := RELEASE_CHAR;
     segment_terminator := SEGMENT_TERMINATOR;
     newline := NEWLINE;
     carriage_return := CARRIAGE_RETURN |}.

Definition UNOY : str := Eval cbv in lit "UNOY".

Fixpoint char_mem (c : char) (l : list char) : bool :=
  match l with
  | [] => false
  | x :: l' => N.eqb c x || char_mem c l'
  end.

(** [len(chars) == len(set(chars))] *)
Fixpoint unique (l : list char) : bool :=
  match l with
  | [] => true
  | c :: l' => negb (char_mem c l') && unique l'
  end.

Definition delimiter_chars (d : Delimiters) : list char :=
  [ component_separator d; dataelement_separator d; decimal_mark d;
    release_char d; segment_terminator d; newline d; carriage_return d ].

(* ================================================================= *)
(** ** parse_edi *)

(** The truth value of [unb_index]: [False] when [index] raised, and the
    position otherwise, of which [0] is false as well. *)
Definition truthy (unb_index : option nat) : bool :=
  match unb_index with
  | Some (S _) => true
  | _ => false
  end.

(** Sniffing the syntax identifier from the raw bytes. *)
Definition sniff_encoding (default_encoding : str) (data : bytes) : result str :=
  let unb_index := bytes_index data (blit "UNB") in
  if truthy unb_index then
    let unb_index := match unb_index with Some i => i | None => 0 end in
    match bytes_index (skipn unb_index data) (blit "UNO") with
    | None => Raise ValueError
    | Some uno_offset =>
        match decode ascii_codec
                (firstn 4 (skipn (unb_index + uno_offset) data)) with
        | Some uno => Ok uno
        | None => Raise UnicodeDecodeError
        end
    end
  else Ok default_encoding.

(** The [for ... else] over [ENCODINGS] that runs when the sniffed codec
    rejects the bytes. *)
Fixpoint decode_fallback (ext : str -> Codec) (uno : str) (data : bytes)
    (encodings : list (str * str)) : result str :=
  match encodings with
  | [] => Raise UnicodeError
  | (encoding, name) :: rest =>
      if str_eqb encoding uno then decode_fallback ext uno data rest
      else match decode (lookup_codec ext name) data with
           | Some content => Ok content
           | None => decode_fallback ext uno data rest
           end
  end.

Definition decode_content (ext : str -> Codec) (uno : str) (data : bytes)
    : result str :=
  match lookup uno ENCODINGS with
  | None => Raise ValueError
  | Some name =>
      match decode (lookup_codec ext name) data with
      | Some content => Ok content
      | None => decode_fallback ext uno data ENCODINGS
      end
  end.

(** The special characters after the optional UNA segment has had its say. *)
Definition resolve_una (d : Delimiters) (content : str) : result Delimiters :=
  if startswith content UNA then
    match firstn 6 (skipn 3 content) with
    | [cs; ds; dm; rc; _; st] =>
        Ok {| component_separator := cs; dataelement_separator := ds;
              decimal_mark := dm; release_char := rc;
              segment_terminator := st;
              newline := newline d; carriage_return := carriage_return d |}
    | _ => Raise ValueError
    end
  else Ok d.

(** Splitting the content into segment lines. *)
Definition split_lines (d : Delimiters) (content : str) : result (list str) :=
  let rc := release_char d in
  let st := segment_terminator d in
  joined <- re_sub_breaks rc st (carriage_return d) (newline d) content ;;
  Ok (drop_last (List.map (replace [rc; st] [st]) (re_split rc st joined))).

(** The body of the loop over the lines. *)
Definition parse_line (d : Delimiters) (il : nat * str) : result segment :=
  let (i, line) := il in
  let cs := component_separator d in
  let ds := dataelement_separator d in
  let rc := release_char d in
  if startswith line UNA then
    ensure (i =? 0) else AssertionError ;;
    Ok (UNA, UnaChars [cs; ds; decimal_mark d; rc; SPACE; segment_terminator d])
  else
    match nth_error line 3 with
    | None => Raise IndexError
    | Some c =>
        ensure (N.eqb c ds) else SyntaxError (ExpectedSeparator (i + 1) ds c) ;;
        let segment := firstn 3 line in
        let data_elements := skipn 4 line in
        ensure (mem segment SEGMENTS) else SyntaxError (UnknownSegment segment) ;;
        let data_elements :=
          List.map (replace [rc; ds] [ds]) (re_split rc ds data_elements) in
        Ok (segment,
            Elements (List.map (fun data_element =>
                        List.map (replace [rc; cs] [cs]) (re_split rc cs data_element))
                      data_elements))
    end.

(** From the decoded content to the segments. *)
Definition parse_content (d : Delimiters) (content : str) : result (list segment) :=
  d <- resolve_una d content ;;
  ensure (unique (delimiter_chars d)) else AssertionError ;;
  lines <- split_lines d content ;;
  mapM (parse_line d) (enumerate lines).

(** Sniffing and decoding.  With [warn_invalid_characters] Python prints one
    line per unexpected character at this point and goes on. *)
Definition read_content (ext : str -> Codec) (default_encoding : str)
    (data : bytes) : result str :=
  uno <- sniff_encoding default_encoding data ;;
  decode_content ext uno data.

Definition parse_edi (ext : str -> Codec) (d : Delimiters)
    (warn_invalid_characters : bool) (default_encoding : str)
    (data : bytes) : result (list segment) :=
  content <- read_content ext default_encoding data ;;
  parse_content d content.

(* ================================================================= *)
(** ** make_edi *)

(** The three replacements applied to a component, in the order written. *)
Definition escape_component (d : Delimiters) (c : str) : str :=
  let rc := release_char d in
  let ds := dataelement_separator d in
  let cs := component_separator d in
  let st := segment_terminator d in
  replace [st] [rc; st] (replace [cs] [rc; cs] (replace [ds] [rc; ds] c)).

(** The optional line break after a segment. *)
Definition line_break (d : Delimiters) (with_newline with_carriage_return : bool)
    : list str :=
  (if with_carriage_return then [[carriage_return d]] else [])
  ++ (if with_newline then [[newline d]] else []).

(** The strings one data element appends. *)
Definition element_strings (d : Delimiters) (n : nat) (ic : nat * list str)
    : list str :=
  let (c_i, components) := ic in
  join [component_separator d] (List.map (escape_component d) components)
  :: (if n - 1 =? c_i then [] else [[dataelement_separator d]]).

(** The strings one segment appends; [n] is [len(segments)]. *)
Definition segment_strings (d : Delimiters)
    (with_newline with_carriage_return : bool) (n : nat) (item : nat * segment)
    : result (list str) :=
  let '(s_i, (segment, data_elements)) := item in
  if str_eqb segment UNA then
    ensure (s_i =? 0) else AssertionError ;;
    Ok []
  else
    ensure (mem segment SEGMENTS) else SyntaxError (UnknownSegment segment) ;;
    let data_elements := elements_of data_elements in
    Ok ([segment ++ [dataelement_separator d]]
        ++ flat_map (element_strings d (List.length data_elements))
             (enumerate data_elements)
        ++ [[segment_terminator d]]
        ++ (if n - 1 =? s_i then []
            else line_break d with_newline with_carriage_return)).

(** The strings of the leading UNA segment. *)
Definition una_strings (d : Delimiters)
    (with_newline with_carriage_return with_una : bool) : list str :=
  if with_una then
    (UNA ++ [component_separator d; dataelement_separator d; decimal_mark d;
             release_char d; SPACE; segment_terminator d])
    :: line_break d with_newline with_carriage_return
  else [].

(** The [for ... else] that picks the syntax identifier. *)
Fixpoint find_uno (default_encoding : str) (segments : list segment) : result str :=
  match segments with
  | [] => Ok default_encoding
  | (segment, dataelement) :: rest =>
      if str_eqb segment UNB then
        match nth_error (elements_of dataelement) 0 with
        | None => Raise IndexError
        | Some e0 =>
            match nth_error e0 0 with
            | None => Raise IndexError
            | Some uno => Ok uno
            end
        end
      else find_uno default_encoding rest
  end.

(** The text that [make_edi] assembles before it encodes it. *)
Definition make_text (d : Delimiters)
    (with_newline with_carriage_return with_una : bool)
    (segments : list segment) : result str :=
  ensure (unique (delimiter_chars d)) else AssertionError ;;
  strings <- mapM (segment_strings d with_newline with_carriage_return
                     (List.length segments)) (enumerate segments) ;;
  Ok (List.concat (una_strings d with_newline with_carriage_return with_una
                   ++ List.concat strings)).

Definition make_edi (ext : str -> Codec) (d : Delimiters)
    (default_encoding : str)
    (with_newline with_carriage_return with_una : bool)
    (segments : list segment) : result bytes :=
  text <- make_text d with_newline with_carriage_return with_una segments ;;
  uno <- find_uno default_encoding segments ;;
  match lookup uno ENCODINGS with
  | None => Raise KeyError
  | Some name =>
      match encode (lookup_codec ext name) text with
      | Some data => Ok data
      | None => Raise UnicodeEncodeError
      end
  end.

(* ================================================================= *)
(** ** The XML tree *)

(** An [ElementTree.Element]: tag, attribute dict, text and children.  An
    attribute holds whatever was stored under its key, [None] included. *)
#[local] Unset Elimination Schemes.
Inductive Element :=
| mkElement (tag : str) (attrib : list (str * option str))
    (text : option str) (children : list Element).
#[local] Set Elimination Schemes.

Definition tag (e : Element) : str :=
  match e with mkElement t _ _ _ => t end.
Definition attrib (e : Element) : list (str * option str) :=
  match e with mkElement _ a _ _ => a end.
Definition text (e : Element) : option str :=
  match e with mkElement _ _ t _ => t end.
Definition children (e : Element) : list Element :=
  match e with mkElement _ _ _ c => c end.

(** The truth value of a string. *)
Definition nonempty (s : str) : bool :=
  match s with
  | [] => false
  | _ :: _ => true
  end.

(** [''.join(data_elements)] on the body of a UNA segment: the characters of
    a character list; a TypeError on a list that holds lists. *)
Definition join_body (b : body) : result str :=
  match b with
  | UnaChars chars => Ok chars
  | Elements [] => Ok []
  | Elements (_ :: _) => Raise TypeError
  end.

Definition component_xml (segment : str) (d_i : nat) (item : nat * str) : Element :=
  let (c_i, component) := item in
  mkElement (segment ++ str_of_nat d_i ++ str_of_nat c_i) []
    (if nonempty component then Some component else None) [].

Definition data_element_xml (segment : str) (item : nat * list str) : Element :=
  let (d_i, data_element) := item in
  mkElement (segment ++ str_of_nat d_i) [] None
    (List.map (component_xml segment d_i) (enumerate data_element)).

Definition segment_xml (item : nat * segment) : result Element :=
  let '(s_i, (segment, data_elements)) := item in
  if str_eqb segment UNA then
    ensure (s_i =? 0) else AssertionError ;;
    text <- join_body data_elements ;;
    Ok (mkElement UNA [] (Some text) [])
  else
    Ok (mkElement segment [] None
          (List.map (data_element_xml segment)
             (enumerate (elements_of data_elements)))).

Definition make_xml (segments : list segment) (root_tag : str) : result Element :=
  elements <- mapM segment_xml (enumerate segments) ;;
  Ok (mkElement root_tag [] None elements).

(** [component.text if component.text else ''] *)
Definition component_value (component : Element) : str :=
  match text component with
  | Some (c :: t) => c :: t
  | _ => []
  end.

Definition parse_element (item : nat * Element) : result segment :=
  let (e_i, element) := item in
  if str_eqb (tag element) UNA then
    ensure (e_i =? 0) else AssertionError ;;
    match text element with
    | Some t => Ok (UNA, UnaChars t)
    | None => Raise TypeError
    end
  else
    Ok (tag element,
        Elements (List.map (fun data_element =>
                              List.map component_value (children data_element))
                    (children element))).

Definition parse_xml (root : Element) : result (list segment) :=
  mapM parse_element (enumerate (children root)).

(* ================================================================= *)
(** ** The dictionaries *)

(** A row of a segment table; the fields are the keys [pos], [code], [name],
    [representation], [mc] and [repeat] of the JSON object.  [pos] and
    [representation] may be [None]. *)
Record Row := {
  row_pos : option str;
  row_code : str;
  row_name : str;
  row_representation : option str;
  row_mc : str;
  row_repeat : str
}.

(** An entry of the segment dictionary [sd]. *)
Record SegmentEntry := {
  sd_name : str;
  sd_description : str;
  sd_table : list Row
}.

(** An entry of a code table, and an entry of the code dictionary [ed], whose
    key [table] may be absent. *)
Record CodeValue := {
  cv_name : str;
  cv_description : str
}.

Record CodeEntry := {
  ed_name : str;
  ed_table : option (list (str * CodeValue))
}.

Definition SD := list (str * SegmentEntry).
Definition ED := list (str * CodeEntry).

(** The character classes of Python's Unicode database that [report]
    consults: [str.isalpha], [str.isdigit], the class [\d] of [re], and the
    value [int] gives a decimal digit. *)
Record Unicode := {
  isalpha_char : char -> bool;
  isdigit_char : char -> bool;
  isdecimal_char : char -> bool;
  decimal_value : char -> nat
}.

(** The classes on the ASCII range, where letters are A-Z and a-z and the
    digits are 0-9. *)
Definition ascii_classes : Unicode :=
  {| isalpha_char := fun c =>
       (((65 <=? c) && (c <=? 90)) || ((97 <=? c) && (c <=? 122)))%N;
     isdigit_char := fun c => ((48 <=? c) && (c <=? 57))%N;
     isdecimal_char := fun c => ((48 <=? c) && (c <=? 57))%N;
     decimal_value := fun c => N.to_nat (c - 48) |}.

Definition option_str_eqb (a b : option str) : bool :=
  match a, b with
  | Some x, Some y => str_eqb x y
  | None, None => true
  | _, _ => false
  end.

(** [r == cd] on rows. *)
Definition row_eqb (r cd : Row) : bool :=
  option_str_eqb (row_pos r) (row_pos cd)
  && str_eqb (row_code r) (row_code cd)
  && str_eqb (row_name r) (row_name cd)
  && option_str_eqb (row_representation r) (row_representation cd)
  && str_eqb (row_mc r) (row_mc cd)
  && str_eqb (row_repeat r) (row_repeat cd).

(** [r['pos'] and r['pos'].endswith(pos)] *)
Definition pos_matches (pos : str) (r : Row) : bool :=
  match row_pos r with
  | Some p => nonempty p && endswith p pos
  | None => false
  end.

(** [table.index(cd)] *)
Fixpoint table_index (cd : Row) (table : list Row) : option nat :=
  match table with
  | [] => None
  | r :: table' =>
      if row_eqb r cd then Some 0 else option_map S (table_index cd table')
  end.

Definition is_none {A} (o : option A) : bool :=
  match o with
  | None => true
  | Some _ => false
  end.

(** The row found for the data element at index [i_d] and the rows its
    components are paired with: the lines that [report] and [make_edi_xml]
    share.  A row without representation heads a composite, and the pairing
    starts after it. *)
Definition located_rows (table : list Row) (i_d : nat) : result (Row * list Row) :=
  let pos := str_of_nat ((i_d + 1) * 10) in
  match filter (pos_matches pos) table with
  | [] => Raise IndexError
  | cd :: _ =>
      match table_index cd table with
      | None => Raise ValueError
      | Some start =>
          let start := if is_none (row_representation cd) then start + 1 else start in
          Ok (cd, skipn start table)
      end
  end.

(* ================================================================= *)
(** ** report *)

Definition dots : str := [46%N; 46%N].

(** ['..' in representation] *)
Definition has_dots (representation : str) : bool :=
  negb (is_none (str_index representation dots)).

(** [representation.split('..')] *)
Fixpoint split_dots (s : str) : list str :=
  match s with
  | [] => [[]]
  | c :: s' =>
      match s' with
      | c' :: s'' =>
          if N.eqb c 46 && N.eqb c' 46 then [] :: split_dots s''
          else match split_dots s' with
               | p :: ps => (c :: p) :: ps
               | [] => [[c]]
               end
      | [] => [[c]]
      end
  end.

(** The type and the digits of a representation such as [an..35] or [n3]. *)
Definition representation_parts (u : Unicode) (representation : str)
    : result (str * str) :=
  if has_dots representation then
    match split_dots representation with
    | [t; d] => Ok (t, d)
    | _ => Raise ValueError
    end
  else
    let d := filter (isdecimal_char u) representation in
    match str_index representation d with
    | Some i => Ok (firstn i representation, d)
    | None => Raise ValueError
    end.

(** [component.isalpha()] and [d.isdigit()] *)
Definition isalpha (u : Unicode) (s : str) : bool :=
  nonempty s && forallb (isalpha_char u) s.
Definition isdigit (u : Unicode) (s : str) : bool :=
  nonempty s && forallb (isdigit_char u) s.

(** [int(d)] for a [d] that passed [isdigit]: the digits have to be decimal
    ones. *)
Definition py_int (u : Unicode) (d : str) : result nat :=
  if forallb (isdecimal_char u) d
  then Ok (fold_left (fun acc c => 10 * acc + decimal_value u c) d 0)
  else Raise ValueError.

(** [re.match('\d*(\.|,)?\d+', component)] finds a match exactly when the
    component starts with a digit, or with a point or comma and a digit. *)
Definition numeric_match (u : Unicode) (component : str) : bool :=
  match component with
  | c :: rest =>
      isdecimal_char u c
      || ((N.eqb c 46 || N.eqb c 44)
          && match rest with
             | c' :: _ => isdecimal_char u c'
             | [] => false
             end)
  | [] => false
  end.

(** The list [repr_errors] for a non-empty component. *)
Definition repr_errors (u : Unicode) (representation component : str)
    : result (list str) :=
  td <- representation_parts u representation ;;
  let (t, d) := td in
  ensure (mem t [lit "a"; lit "n"; lit "an"]) else AssertionError ;;
  ensure (isdigit u d) else AssertionError ;;
  let alpha :=
    if str_eqb t (lit "a") && negb (isalpha u component)
    then [lit "is not alphanumeric."] else [] in
  let numeric :=
    if str_eqb t (lit "n") && negb (numeric_match u component)
    then [lit "is not numeric."] else [] in
  n <- py_int u d ;;
  let len :=
    if has_dots representation
    then if List.length component <=? n then []
         else [lit "repr: " ++ representation ++ lit ",  max. len " ++ d]
    else if List.length component =? n then []
         else [lit "repr: " ++ representation ++ lit ", exact len " ++ d] in
  Ok (alpha ++ numeric ++ len).

Definition undefined_segment_line (segment : str) (s_i : nat) : str :=
  lit "ERROR: skipping undefined segment: <" ++ segment ++ lit "> at index "
  ++ str_of_nat s_i.

Definition unknown_code_line (component code : str) : str :=
  lit "    ERROR: unknown code <" ++ component ++ lit "> not in (" ++ code
  ++ lit ")".

Definition missing_mandatory_line (code segment : str) : str :=
  NEWLINE :: lit "    Error, component <" ++ code ++ lit "> in segment "
  ++ segment.

Definition component_line (r : Row) (component : str) : str :=
  lit "    " ++ row_name r ++ lit " <" ++ component ++ lit "> ("
  ++ row_code r ++ lit ")".

(** The lookup of a non-empty component in the code table of its row: the
    error line for a value that is not listed, or the name of the value. *)
Definition code_lookup (ed : ED) (r : Row) (component : str)
    : result (list str * option str) :=
  if nonempty component then
    match lookup (row_code r) ed with
    | None => Raise KeyError
    | Some entry =>
        match ed_table entry with
        | None => Ok ([], None)
        | Some table =>
            match lookup component table with
            | None => Ok ([unknown_code_line component (row_code r)], None)
            | Some value => Ok ([], Some (cv_name value))
            end
        end
    end
  else Ok ([], None).

(** The lines for one component paired with its row [r]; [cd] is the row
    found for the data element. *)
Definition component_lines (u : Unicode) (ed : ED) (segment : str) (cd : Row)
    (rc : Row * str) : result (list str) :=
  let (r, component) := rc in
  found <- code_lookup ed r component ;;
  let (unknown, code_name) := found in
  let msg :=
    match code_name with
    | Some n => if nonempty n then component_line r component ++ lit " " ++ n
                else component_line r component
    | None => component_line r component
    end in
  checked <-
    (if nonempty component then
       match row_representation r with
       | None => Raise TypeError
       | Some representation =>
           errors <- repr_errors u representation component ;;
           Ok (List.map (fun e => lit "    ERROR:" ++ e) errors)
       end
     else Ok []) ;;
  let missing :=
    if negb (nonempty component) && str_eqb (row_mc r) (lit "M")
    then if negb (is_none (row_representation cd))
         then [missing_mandatory_line (row_code r) segment]
         else []
    else [] in
  Ok (unknown ++ [msg] ++ checked ++ missing).

(** The lines for one data element. *)
Definition element_lines (u : Unicode) (ed : ED) (segment : str)
    (table : list Row) (item : nat * list str) : result (list str) :=
  let (i_d, data_element) := item in
  found <- located_rows table i_d ;;
  let (cd, rows) := found in
  let header :=
    if is_none (row_representation cd)
    then [lit "  " ++ row_name cd ++ lit " (" ++ row_code cd ++ lit ")"]
    else [] in
  lines <- mapM (component_lines u ed segment cd) (combine rows data_element) ;;
  Ok (header ++ List.concat lines).

(** [make_edi([segments[s_i]], with_una=False).decode('utf8')] *)
Definition edi_line (ext : str -> Codec) (s : segment) : result str :=
  data <- make_edi ext default_delimiters UNOY false false false [s] ;;
  match decode utf8_codec data with
  | Some line => Ok line
  | None => Raise UnicodeDecodeError
  end.

(** The lines for one segment. *)
Definition segment_lines (ext : str -> Codec) (u : Unicode) (sd : SD) (ed : ED)
    (item : nat * segment) : result (list str) :=
  let '(s_i, (segment, data_elements)) := item in
  match lookup segment sd with
  | None =>
      Ok (if str_eqb segment UNA then []
          else [undefined_segment_line segment s_i])
  | Some entry =>
      line <- edi_line ext (segment, data_elements) ;;
      lines <- mapM (element_lines u ed segment (sd_table entry))
                 (enumerate (elements_of data_elements)) ;;
      Ok ([line; repeat 45%N (List.length line);
           sd_name entry ++ lit " <" ++ segment ++ lit ">"]
          ++ List.concat lines ++ [[]])
  end.

Definition report_lines (ext : str -> Codec) (u : Unicode)
    (segments : list segment) (sd : SD) (ed : ED) : result (list str) :=
  lines <- mapM (segment_lines ext u sd ed) (enumerate segments) ;;
  Ok (List.concat lines).

Definition report (ext : str -> Codec) (u : Unicode)
    (segments : list segment) (sd : SD) (ed : ED) : result str :=
  lines <- report_lines ext u segments sd ed ;;
  Ok (join [NEWLINE] lines).

(* ================================================================= *)
(** ** make_edi_xml *)

(** The attribute dict of a component element that has a row. *)
Definition component_attrib (ed : ED) (rc : Row * str)
    : result (list (str * option str)) :=
  let (r, c_component) := rc in
  let attrib :=
    [ (lit "code", Some (row_code r)); (lit "name", Some (row_name r));
      (lit "mc", Some (row_mc r));
      (lit "representation", row_representation r) ] in
  match lookup (row_code r) ed with
  | None => Raise KeyError
  | Some entry =>
      match ed_table entry with
      | Some table =>
          if nonempty c_component then
            match lookup c_component table with
            | Some value =>
                Ok (attrib ++ [ (lit "value", Some (cv_name value));
                                (lit "description", Some (cv_description value)) ])
            | None => Ok (attrib ++ [ (lit "value", Some (lit "CUSTOM CODE")) ])
            end
          else Ok attrib
      | None => Ok attrib
      end
  end.

(** The attribute dict of a data-element element. *)
Definition data_element_attrib (cd : Row) (pos : str) : list (str * option str) :=
  (if is_none (row_representation cd)
   then [ (lit "pos", Some pos); (lit "code", Some (row_code cd));
          (lit "name", Some (row_name cd)) ]
   else if negb (is_none (row_pos cd)) then [ (lit "pos", Some pos) ] else [])
  ++ (if nonempty (row_repeat cd)
      then [ (lit "repeat", Some (row_repeat cd)); (lit "mc", Some (row_mc cd)) ]
      else []).

Definition attributed_component (segment : str) (d_i : nat)
    (attribs : list (list (str * option str))) (item : nat * str) : Element :=
  let (c_i, component) := item in
  mkElement (segment ++ str_of_nat d_i ++ str_of_nat c_i)
    (nth c_i attribs [])
    (if nonempty component then Some component else None) [].

Definition attributed_data_element (ed : ED) (segment : str) (table : list Row)
    (item : nat * list str) : result Element :=
  let (d_i, data_element) := item in
  found <- located_rows table d_i ;;
  let (cd, rows) := found in
  attribs <- mapM (component_attrib ed) (combine rows data_element) ;;
  Ok (mkElement (segment ++ str_of_nat d_i)
        (data_element_attrib cd (str_of_nat ((d_i + 1) * 10))) None
        (List.map (attributed_component segment d_i attribs)
           (enumerate data_element))).

Definition attributed_segment (sd : SD) (ed : ED) (s : segment) : result Element :=
  let (segment, data_elements) := s in
  if str_eqb segment UNA then
    text <- join_body data_elements ;;
    Ok (mkElement UNA [] (Some text) [])
  else
    match lookup segment sd with
    | None => Raise KeyError
    | Some entry =>
        elements <- mapM (attributed_data_element ed segment (sd_table entry))
                      (enumerate (elements_of data_elements)) ;;
        Ok (mkElement segment
              [ (lit "description", Some (sd_description entry));
                (lit "name", Some (sd_name entry)) ]
              None elements)
    end.

Definition make_edi_xml (segments : list segment) (sd : SD) (ed : ED)
    (root_tag : str) : result Element :=
  elements <- mapM (attributed_segment sd ed) segments ;;
  Ok (mkElement root_tag [] None elements).

(* ================================================================= *)
(** ** The editor windows of gui.py *)

(** The two attributes of an [Editor] that its search buttons read and
    write: the positions of the matches, [None] before the first search, and
    the index of the match shown last, [None] before the first click. *)
Record Editor := {
  index_matches : option (list str);
  current_index : option Z
}.

(** [l[i]]: a negative index counts from the end. *)
Definition list_item {A} (l : list A) (i : Z) : result A :=
  let j := if (i <? 0)%Z then (i + Z.of_nat (List.length l))%Z else i in
  if (j <? 0)%Z then Raise IndexError
  else match nth_error l (Z.to_nat j) with
       | Some a => Ok a
       | None => Raise IndexError
       end.

(** [click_next_button]: the editor afterwards and the position handed to
    [sc_text.see], [None] when the method returns at once. *)
Definition click_next_button (e : Editor) : result (Editor * option str) :=
  match index_matches e with
  | None => Ok (e, None)
  | Some [] => Ok (e, None)
  | Some (m :: ms) =>
      let matches := m :: ms in
      let i := match current_index e with
               | None => 0%Z
               | Some i => (i + 1)%Z
               end in
      let i := (i mod Z.of_nat (List.length matches))%Z in
      shown <- list_item matches i ;;
      Ok ({| index_matches := Some matches; current_index := Some i |}, Some shown)
  end.

(** [click_prev_button] *)
Definition click_prev_button (e : Editor) : result (Editor * option str) :=
  match index_matches e with
  | None => Ok (e, None)
  | Some [] => Ok (e, None)
  | Some (m :: ms) =>
      let matches := m :: ms in
      let i := match current_index e with
               | None => (Z.of_nat (List.length matches) - 1)%Z
               | Some i => (i - 1)%Z
               end in
      let i := (i mod Z.of_nat (List.length matches))%Z in
      shown <- list_item matches i ;;
      Ok ({| index_matches := Some matches; current_index := Some i |}, Some shown)
  end.

(** [make_edi(self.segments, with_newline=True).decode('utf8')]: the text
    that [reload], [edit_xml] and [edit_segments] put into the EDI editor. *)
Definition editor_edi_text (ext : str -> Codec) (segments : list segment)
    : result str :=
  data <- make_edi ext default_delimiters UNOY true false true segments ;;
  match decode utf8_codec data with
  | Some text => Ok text
  | None => Raise UnicodeDecodeError
  end.

(** [parse_edi(self.editor_edi.text.encode('utf8'))]: the segments that
    [edit_edifact] takes from the text of the EDI editor.  The method shows
    an exception in a dialog and leaves the segments as they were. *)
Definition edit_edifact (ext : str -> Codec) (editor_text : str)
    : result (list segment) :=
  match encode utf8_codec editor_text with
  | Some data => parse_edi ext default_delimiters false UNOY data
  | None => Raise UnicodeEncodeError
  end.

(* ================================================================= *)
(** * Notions used in the statements and proofs *)

(* ================================================================= *)
(** ** Escapes and pieces *)

(** Inserting the release character before every [x], and deleting every
    release character that stands before an [x]: what the two kinds of
    [replace] calls of the module amount to. *)
Definition ins (rc x : char) (s : str) : str :=
  flat_map (fun c => if N.eqb c x then [rc; x] else [c]) s.

Fixpoint del (rc x : char) (s : str) : str :=
  match s with
  | [] => []
  | c :: s' =>
      if N.eqb c rc
      then match s' with
           | y :: _ => if N.eqb y x then del rc x s' else c :: del rc x s'
           | [] => [c]
           end
      else c :: del rc x s'
  end.

(** [escaped rc x b s]: every [x] in [s] has the release character on its
    left; [b] tells whether the character before [s] is the release
    character. *)
Fixpoint escaped (rc x : char) (b : bool) (s : str) : bool :=
  match s with
  | [] => true
  | c :: s' => (negb (N.eqb c x) || b) && escaped rc x (N.eqb c rc) s'
  end.

(** [ends_rc rc b s]: the last character of [s], or the one before [s] when
    [s] is empty, is the release character. *)
Fixpoint ends_rc (rc : char) (b : bool) (s : str) : bool :=
  match s with
  | [] => b
  | c :: s' => ends_rc rc (N.eqb c rc) s'
  end.

(** A piece that a split at unescaped [x] leaves whole and that does not
    shield the separator after it. *)
Definition piece_ok (rc x : char) (s : str) : bool :=
  escaped rc x false s && negb (ends_rc rc false s).

(** The last character of a component is not the release character. *)
Definition no_trailing (rc : char) (c : str) : bool := negb (ends_rc rc false c).

(** The character before the position that follows [s]. *)
Fixpoint last_or (prev : option char) (s : str) : option char :=
  match s with
  | [] => prev
  | c :: s' => last_or (Some c) s'
  end.

(** A piece whose first two characters are not the line feed: a segment
    terminator in front of it is not taken for the start of a line break. *)
Definition starts_plain (nl : char) (p : str) : bool :=
  match p with
  | u :: v :: _ => negb (N.eqb u nl) && negb (N.eqb v nl)
  | _ => false
  end.

(** Pieces, each followed by the terminator [x]. *)
Definition terminated (x : char) (ps : list str) : str :=
  List.concat (List.map (fun p => p ++ [x]) ps).

Definition is_upper (c : char) : bool := ((65 <=? c) && (c <=? 90))%N.

(* ================================================================= *)
(** ** What make_edi writes *)

Definition is_una (seg : segment) : bool := str_eqb (fst seg) UNA.

(** The segments that [make_edi] writes out: all but a [UNA]. *)
Definition payload (segments : list segment) : list segment :=
  filter (fun seg => negb (is_una seg)) segments.

(** The loop of [make_edi] runs to its end: a [UNA] only at index 0, any
    other tag a recognised one.  [i] is the index of the first segment. *)
Fixpoint emittable (i : nat) (segments : list segment) : bool :=
  match segments with
  | [] => true
  | seg :: rest =>
      (if is_una seg then i =? 0 else mem (fst seg) SEGMENTS)
      && emittable (S i) rest
  end.

Definition element_text (d : Delimiters) (components : list str) : str :=
  join [component_separator d] (List.map (escape_component d) components).

(** A segment as written, without its terminator. *)
Definition segment_text (d : Delimiters) (seg : segment) : str :=
  fst seg ++ dataelement_separator d
    :: join [dataelement_separator d]
         (List.map (element_text d) (elements_of (snd seg))).

(** The service string advice as written, without its terminator. *)
Definition una_text (d : Delimiters) : str :=
  UNA ++ [component_separator d; dataelement_separator d; decimal_mark d;
          release_char d; SPACE].

Definition una_segment (d : Delimiters) : segment :=
  (UNA, UnaChars [component_separator d; dataelement_separator d;
                  decimal_mark d; release_char d; SPACE;
                  segment_terminator d]).

(** The text of a message without line breaks and with the advice in front:
    the advice and every written segment, each with its terminator. *)
Definition message_text (d : Delimiters) (segments : list segment) : str :=
  terminated (segment_terminator d)
    (una_text d :: List.map (segment_text d) (payload segments)).

(* ================================================================= *)
(** ** What parse_edi reads back *)

(** Python's [re.split] never returns an empty list: a data element without
    components, and a segment without data elements, come back with one
    empty string in them. *)
Definition norm_components (e : list str) : list str :=
  match e with
  | [] => [[]]
  | _ :: _ => e
  end.

Definition norm_elements (es : list (list str)) : list (list str) :=
  match es with
  | [] => [[[]]]
  | _ :: _ => List.map norm_components es
  end.

Definition normal (seg : segment) : segment :=
  (fst seg, Elements (norm_elements (elements_of (snd seg)))).

(** No component of the segment ends with the release character. *)
Definition components_ok (rc : char) (seg : segment) : bool :=
  forallb (forallb (no_trailing rc)) (elements_of (snd seg)).

(** Delimiters under which the written text can be cut up again: pairwise
    distinct as both functions assert; a terminator that is neither a letter
    of a tag nor the backslash that [re.sub] rejects as a template; a release
    character other than the space that ends the advice; a line feed that is
    not the first letter of a tag. *)
Definition plain_delimiters (d : Delimiters) : bool :=
  unique (delimiter_chars d)
  && negb (N.eqb (segment_terminator d) backslash)
  && negb (N.eqb (release_char d) SPACE)
  && negb (is_upper (segment_terminator d))
  && negb (is_upper (newline d)).

(** The delimiters in force once the advice written under [d] has been read
    by a parser called with [p]: the line-break characters stay those of
    [p]. *)
Definition una_override (d p : Delimiters) : Delimiters :=
  {| component_separator := component_separator d;
     dataelement_separator := dataelement_separator d;
     decimal_mark := decimal_mark d;
     release_char := release_char d;
     segment_terminator := segment_terminator d;
     newline := newline p;
     carriage_return := carriage_return p |}.

Definition tag_shape (t : str) : bool :=
  match t with
  | [a; b; c] => is_upper a && is_upper b && is_upper c && negb (str_eqb t UNA)
  | _ => false
  end.

(** A component with the separators of its data element escaped, and with
    those of its segment escaped as well. *)
Definition in_element (d : Delimiters) (c : str) : str :=
  ins (release_char d) (component_separator d) c.

Definition in_segment (d : Delimiters) (c : str) : str :=
  ins (release_char d) (component_separator d)
    (ins (release_char d) (dataelement_separator d) c).

(** A segment with a recognised tag and no component that ends with the
    release character. *)
Definition writable (d : Delimiters) (seg : segment) : bool :=
  mem (fst seg) SEGMENTS && components_ok (release_char d) seg.

(* ================================================================= *)
(** ** Reading back what was written *)

(** The syntax identifiers whose codecs are written out above. *)
Definition builtin (uno : str) : bool :=
  mem uno [lit "UNOA"; lit "UNOB"; lit "UNOC"; lit "UNOY"].

(** Segments that come back as they went in: at least one data element, at
    least one component in each. *)
Definition filled (seg : segment) : bool :=
  match snd seg with
  | Elements (e :: es) =>
      forallb (fun e => match e with [] => false | _ :: _ => true end) (e :: es)
  | _ => false
  end.

(* ================================================================= *)
(** ** The round trips as the specification writes them *)

(** [parse_edi(make_edi(S))] with the same delimiters on both sides and the
    flags left at their defaults. *)
Definition round_trip (ext : str -> Codec) (d : Delimiters) (de : str)
    (segments : list segment) : result (list segment) :=
  data <- make_edi ext d de false false true segments ;;
  parse_edi ext d false de data.

(** [make_edi(parse_edi(make_edi(S, D1)), D2)] *)
Definition reemit (ext : str -> Codec) (d1 d2 : Delimiters) (de : str)
    (segments : list segment) : result bytes :=
  data <- make_edi ext d1 de false false true segments ;;
  segments' <- parse_edi ext default_delimiters false de data ;;
  make_edi ext d2 de false false true segments'.

(* ================================================================= *)
(** ** Escaping *)

(** What [make_edi] writes for one character of a component. *)
Definition escape_char (d : Delimiters) (x : char) : str :=
  if char_mem x [component_separator d; dataelement_separator d;
                 segment_terminator d]
  then [release_char d; x]
  else [x].

(* ================================================================= *)
(** ** Valid structural forms *)

(** A valid structural form: a [UNA] tag only at index 0 and with a list of
    characters for its body, every other tag with a list of data elements.
    [i] is the index of the first segment. *)
Fixpoint valid_from (i : nat) (segments : list segment) : bool :=
  match segments with
  | [] => true
  | (segment, b) :: rest =>
      (if str_eqb segment UNA
       then (i =? 0) && match b with UnaChars _ => true | Elements _ => false end
       else match b with UnaChars _ => false | Elements _ => true end)
      && valid_from (S i) rest
  end.
Definition valid (segments : list segment) : bool := valid_from 0 segments.

(* ================================================================= *)
(** ** Occurrence in a text *)

(** [x] occurs in [s] as a contiguous part. *)
Definition occurs (x s : str) : Prop := exists a b, s = a ++ x ++ b.

(* ================================================================= *)
(** ** Dictionaries that cover a message *)






(* ================================================================= *)
(** ** The shape of what parse_edi returns *)

(** A segment as the loop of [parse_edi] appends it: the advice, or a
    recognised tag with at least one data element and at least one component
    in each. *)
Definition parsed_segment (seg : segment) : bool :=
  is_una seg || (mem (fst seg) SEGMENTS && filled seg).

(* ================================================================= *)
(** ** Line breaks *)

(** The characters of the line break that [make_edi] writes after a
    terminator. *)
Definition break_text (d : Delimiters) (with_newline with_carriage_return : bool)
    : str :=
  List.concat (line_break d with_newline with_carriage_return).

(** Pieces, each followed by the terminator [x] and a line break of its
    own. *)
Definition broken (x : char) (pbs : list (str * str)) : str :=
  List.concat (List.map (fun pb => fst pb ++ x :: snd pb) pbs).

(** A line break that [parse_edi] takes away after a terminator: none, a line
    feed, or a carriage return and a line feed. *)
Definition is_break (cr nl : char) (br : str) : bool :=
  match br with
  | [] => true
  | [x] => N.eqb x nl
  | [x; y] => N.eqb x cr && N.eqb y nl
  | _ => false
  end.

Definition piece_break_ok (rc st cr nl : char) (pb : str * str) : bool :=
  piece_ok rc st (fst pb) && starts_plain nl (fst pb) && is_break cr nl (snd pb).

(** The pieces of a message, the advice first when it is written, each with
    the line break written after its terminator. *)
Definition message_pieces (d : Delimiters) (with_una : bool) (b0 : str)
    (P : list segment) (brs : list str) : list (str * str) :=
  (if with_una then [(una_text d, b0)] else [])
  ++ combine (List.map (segment_text d) P) brs.

(* ================================================================= *)
(** ** Length checks of the report *)

(** The length of a component breaks its representation: more characters
    than the maximum of a representation with dots, or a number of
    characters other than that of a representation without. *)
Definition length_violated (representation : str) (n : nat) (component : str)
    : bool :=
  if has_dots representation
  then negb (List.length component <=? n)
  else negb (List.length component =? n).

(** The line of the report for such a component; [digits] is the number as
    the representation writes it. *)
Definition length_error_line (representation digits : str) : str :=
  lit "    ERROR:repr: " ++ representation
  ++ (if has_dots representation then lit ",  max. len " else lit ", exact len ")
  ++ digits.

(* ================================================================= *)
(** ** Dictionaries that annotate a message *)

(** What [make_edi_xml] needs of the dictionaries: the code of every row
    paired with a component is a key of [ed], whether the component is empty
    or not. *)
Definition annotatable_component (ed : ED) (rc : Row * str) : bool :=
  negb (is_none (lookup (row_code (fst rc)) ed)).

(** The table has a row for the position of the data element. *)
Definition annotatable_element (ed : ED) (table : list Row)
    (item : nat * list str) : bool :=
  match located_rows table (fst item) with
  | Ok (_, rows) => forallb (annotatable_component ed) (combine rows (snd item))
  | Raise _ => false
  end.

(** The tag is a key of [sd], or it is [UNA] with a body that joins to a
    string. *)
Definition annotatable_segment (sd : SD) (ed : ED) (s : segment) : bool :=
  if str_eqb (fst s) UNA then
    match join_body (snd s) with Ok _ => true | Raise _ => false end
  else
    match lookup (fst s) sd with
    | Some entry =>
        forallb (annotatable_element ed (sd_table entry))
          (enumerate (elements_of (snd s)))
    | None => false
    end.

(* ================================================================= *)
(** ** The search buttons *)

(** What both search buttons do once the next index [i] is chosen: it is
    reduced modulo the number of matches, and the match at it is shown. *)
Definition show_match (ms : list str) (i : Z) : result (Editor * option str) :=
  let i := (i mod Z.of_nat (List.length ms))%Z in
  m <- list_item ms i ;;
  Ok ({| index_matches := Some ms; current_index := Some i |}, Some m).

(* ================================================================= *)
(** ** Interchanges *)

(** How the text of an interchange starts when [make_edi] writes it under
    the default delimiters: the advice, its line break, and the [UNB] tag
    with the syntax identifier after it. *)
Definition interchange_prefix (with_newline with_carriage_return : bool)
    (uno : str) : str :=
  una_text default_delimiters
  ++ SEGMENT_TERMINATOR
     :: break_text default_delimiters with_newline with_carriage_return
  ++ UNB ++ DATAELEMENT_SEPARATOR :: uno.

(* ================================================================= *)
(** ** A carriage return without a line feed *)

(** The pieces of a text when the line break written after a terminator is
    left in front of the piece that follows: the pieces, with [b] in front of
    the first one, and what is left behind the last terminator. *)
Fixpoint shift_breaks (b : str) (pbs : list (str * str)) : list str * str :=
  match pbs with
  | [] => ([], b)
  | (p, br) :: rest =>
      let (ps, tail) := shift_breaks br rest in ((b ++ p) :: ps, tail)
  end.

(** The syntax error at the line after the advice when a carriage return
    stands in front of the tag [t]: the fourth character of that line is the
    third letter of the tag, and line 2 expects the data-element separator
    there; should that letter be the separator, the carriage return and the
    first two letters are taken for a tag, which is not a recognised one. *)
Definition cr_alone_error (d : Delimiters) (t : str) : syntax_msg :=
  match nth_error t 2 with
  | Some z =>
      if N.eqb z (dataelement_separator d)
      then UnknownSegment (carriage_return d :: firstn 2 t)
      else ExpectedSeparator 2 (dataelement_separator d) z
  | None => UnknownSegment t
  end.

(* ================================================================= *)
(** * Worked examples *)

(* ================================================================= *)
(** ** Worked messages *)

(** The interchange of the module's docstring. *)
Definition example_edi : bytes := blit "UNA:+.? 'UNB+UNOY:3+INVALIDATORSTUDIO:1+BYTESREADER:1+20180630:1159+6002'UNH+SSDD1+ORDERS:D:03B:UN:EAN008'BGM+220+BKOD99+9'DTM+137:20180630:102'NAD+BY+31-424-2022::16'NAD+SU+34-093-1588::16'LIN+1+1+0764569104:IB'QTY+1:25'FTX+AFM+1++XPATH 2.0 PROGRAMMER?'S REFERENCE'LIN+2+1+0764569090:IB'QTY+1:25'FTX+AFM+1++XSLT 2.0 PROGRAMMER?'S REFERENCE'LIN+3+1+1861004656:IB'QTY+1:16'FTX+AFM+1++JAVA SERVER PROGRAMMING'LIN+4+1+0-19-501476-6:IB'QTY+1:10'FTX+AFM+1++TZUN TZU'UNS+S'CNT+2:4'UNT+22+SSDD1'UNZ+1+6002'".

Definition seg (tag : string) (data_elements : list (list string)) : segment :=
  (lit tag, Elements (List.map (List.map lit) data_elements)).
Arguments seg tag%_string data_elements%_string.

Local Open Scope string_scope.

(** Its segments after the advice, as the docstring prints them. *)
Definition example_segments : list segment :=
  [ seg "UNB" [["UNOY"; "3"]; ["INVALIDATORSTUDIO"; "1"]; ["BYTESREADER"; "1"];
               ["20180630"; "1159"]; ["6002"]];
    seg "UNH" [["SSDD1"]; ["ORDERS"; "D"; "03B"; "UN"; "EAN008"]];
    seg "BGM" [["220"]; ["BKOD99"]; ["9"]];
    seg "DTM" [["137"; "20180630"; "102"]];
    seg "NAD" [["BY"]; ["31-424-2022"; ""; "16"]];
    seg "NAD" [["SU"]; ["34-093-1588"; ""; "16"]];
    seg "LIN" [["1"]; ["1"]; ["0764569104"; "IB"]];
    seg "QTY" [["1"; "25"]];
    seg "FTX" [["AFM"]; ["1"]; [""]; ["XPATH 2.0 PROGRAMMER'S REFERENCE"]];
    seg "LIN" [["2"]; ["1"]; ["0764569090"; "IB"]];
    seg "QTY" [["1"; "25"]];
    seg "FTX" [["AFM"]; ["1"]; [""]; ["XSLT 2.0 PROGRAMMER'S REFERENCE"]];
    seg "LIN" [["3"]; ["1"]; ["1861004656"; "IB"]];
    seg "QTY" [["1"; "16"]];
    seg "FTX" [["AFM"]; ["1"]; [""]; ["JAVA SERVER PROGRAMMING"]];
    seg "LIN" [["4"]; ["1"]; ["0-19-501476-6"; "IB"]];
    seg "QTY" [["1"; "10"]];
    seg "FTX" [["AFM"]; ["1"]; [""]; ["TZUN TZU"]];
    seg "UNS" [["S"]];
    seg "CNT" [["2"; "4"]];
    seg "UNT" [["22"]; ["SSDD1"]];
    seg "UNZ" [["1"]; ["6002"]] ].

Local Close Scope string_scope.

(* ================================================================= *)
(** ** The wire round trips *)

(** Delimiters other than the default ones, for the examples. *)
Definition bar_delimiters : Delimiters :=
  {| component_separator := 42%N;      (* '*' *)
     dataelement_separator := 124%N;   (* '|' *)
     decimal_mark := 44%N;             (* ',' *)
     release_char := 33%N;             (* '!' *)
     segment_terminator := 126%N;      (* '~' *)
     newline := NEWLINE;
     carriage_return := CARRIAGE_RETURN |}.

Local Open Scope string_scope.

(** Delimiters that are pairwise distinct, with a terminator that is a letter
    of the tags. *)
Definition letter_delimiters : Delimiters :=
  {| component_separator := COMPONENT_SEPARATOR;
     dataelement_separator := DATAELEMENT_SEPARATOR;
     decimal_mark := DECIMAL_MARK;
     release_char := RELEASE_CHAR;
     segment_terminator := 66%N;       (* 'B' *)
     newline := NEWLINE;
     carriage_return := CARRIAGE_RETURN |}.

Local Close Scope string_scope.

(* ================================================================= *)
(** ** Example dictionaries *)

Definition row (pos : option string) (code name : string)
    (representation : option string) (mc repeat : string) : Row :=
  {| row_pos := option_map lit pos;
     row_code := lit code;
     row_name := lit name;
     row_representation := option_map lit representation;
     row_mc := lit mc;
     row_repeat := lit repeat |}.
Arguments row pos%_string code%_string name%_string representation%_string
  mc%_string repeat%_string.

Local Open Scope string_scope.

(** The table of LIN as the docstring shows it, with the line item identifier
    and the item identifier marked mandatory. *)
Definition lin_table : list Row :=
  [ row (Some "010") "1082" "LINE ITEM IDENTIFIER" (Some "an..6") "M" "1";
    row (Some "020") "1229" "ACTION CODE" (Some "an..3") "C" "1";
    row (Some "030") "C212" "ITEM NUMBER IDENTIFICATION" None "C" "1";
    row None "7140" "Item identifier" (Some "an..35") "M" "";
    row None "7143" "Item type identification code" (Some "an..3") "C" "";
    row None "1131" "Code list identification code" (Some "an..17") "C" "";
    row None "3055" "Code list responsible agency code" (Some "an..3") "C" "";
    row (Some "040") "C829" "SUB-LINE INFORMATION" None "C" "1";
    row None "5495" "Sub-line indicator code" (Some "an..3") "C" "";
    row None "1082" "Line item identifier" (Some "an..6") "C" "";
    row (Some "050") "1222" "CONFIGURATION LEVEL NUMBER" (Some "n..2") "C" "1";
    row (Some "060") "7083" "CONFIGURATION OPERATION CODE" (Some "an..30") "C" "1" ].

Definition lin_entry : SegmentEntry :=
  {| sd_name := lit "LINE ITEM";
     sd_description := lit "To identify a line item and configuration.";
     sd_table := lin_table |}.

Definition example_sd : SD := [ (lit "LIN", lin_entry) ].

Definition code_value (name description : string) : CodeValue :=
  {| cv_name := lit name; cv_description := lit description |}.

Definition item_type_codes : list (str * CodeValue) :=
  [ (lit "IB",
     code_value "ISBN (International Standard Book Number)" "Self explanatory.");
    (lit "IN",
     code_value "Buyer's item number"
       "The item number has been allocated by the buyer.") ].

Definition item_type_entry : CodeEntry :=
  {| ed_name := lit "Item type identification code";
     ed_table := Some item_type_codes |}.

Definition example_ed : ED :=
  [ (lit "1082", {| ed_name := lit "Line item identifier"; ed_table := None |});
    (lit "1229", {| ed_name := lit "Action code"; ed_table := None |});
    (lit "7140", {| ed_name := lit "Item identifier"; ed_table := None |});
    (lit "7143", item_type_entry) ].


Local Close Scope string_scope.

(* ================================================================= *)
(** ** Missing mandatory components *)

Local Open Scope string_scope.

(** What [report] returns for a LIN segment whose item identifier is
    empty. *)
Definition composite_report_lines : list str :=
  [ lit "LIN+1+1+:IB'";
    lit "------------";
    lit "LINE ITEM <LIN>";
    lit "    LINE ITEM IDENTIFIER <1> (1082)";
    lit "    ACTION CODE <1> (1229)";
    lit "  ITEM NUMBER IDENTIFICATION (C212)";
    lit "    Item identifier <> (7140)";
    lit "    Item type identification code <IB> (7143) ISBN (International Standard Book Number)";
    lit "" ].

Local Close Scope string_scope.

(* ================================================================= *)
(** ** The formatting example *)

(** The docstring's delimiters of the formatting example. *)
Definition emoji_delimiters : Delimiters :=
  {| component_separator := 9993%N;     (* U+2709 *)
     dataelement_separator := 9786%N;   (* U+263A *)
     decimal_mark := 9763%N;            (* U+2623 *)
     release_char := 9742%N;            (* U+260E *)
     segment_terminator := 10084%N;     (* U+2764 *)
     newline := NEWLINE;
     carriage_return := CARRIAGE_RETURN |}.

(* ================================================================= *)
(** * Theorems *)

(* ================================================================= *)
(** ** Facts about the string primitives *)

Lemma str_eqb_eq (a b : str) : str_eqb a b = true <-> a = b.
Proof.
  revert b; induction a as [|x a IH]; intros [|y b]; simpl; split; intros H;
    try reflexivity; try discriminate.
  - apply andb_true_iff in H as [H1 H2]. apply N.eqb_eq in H1.
    apply IH in H2. now subst.
  - injection H as -> ->. rewrite N.eqb_refl. simpl. now apply IH.
Qed.

Lemma str_eqb_refl (a : str) : str_eqb a a = true.
Proof. now apply str_eqb_eq. Qed.

Lemma str_eqb_neq (a b : str) : str_eqb a b = false <-> a <> b.
Proof.
  split.
  - intros H E. apply str_eqb_eq in E. congruence.
  - intros H. destruct (str_eqb a b) eqn:E; [|reflexivity].
    apply str_eqb_eq in E. contradiction.
Qed.

Lemma mem_In (x : str) (l : list str) : mem x l = true <-> In x l.
Proof.
  induction l as [|y l IH]; simpl.
  - split; [discriminate | tauto].
  - rewrite orb_true_iff, IH, str_eqb_eq. split; intros [H|H]; auto.
Qed.

Lemma startswith_app (p s : str) : startswith (p ++ s) p = true.
Proof. induction p as [|x p IH]; simpl; [reflexivity|]. now rewrite N.eqb_refl. Qed.

Lemma replace_insert (rc x : char) (s : str) :
  replace [x] [rc; x] s = ins rc x s.
Proof.
  unfold replace, ins. induction s as [|c s IH]; [reflexivity|].
  cbn [replace_from startswith flat_map List.length Nat.sub app].
  rewrite andb_true_r, N.eqb_sym.
  destruct (N.eqb c x) eqn:E.
  - apply N.eqb_eq in E. subst c. simpl. now rewrite IH.
  - simpl. now rewrite IH.
Qed.

Lemma replace_delete (rc x : char) (s : str) :
  x <> rc -> replace [rc; x] [x] s = del rc x s.
Proof.
  intros Hx. unfold replace.
  assert (Erx : N.eqb rc x = false) by (apply N.eqb_neq; congruence).
  induction s as [|c s IH]; [reflexivity|].
  cbn [replace_from startswith List.length Nat.sub del].
  rewrite (N.eqb_sym rc c).
  destruct (N.eqb c rc) eqn:E; cbn [andb].
  - destruct s as [|y s]; [reflexivity|].
    rewrite andb_true_r, (N.eqb_sym x y).
    destruct (N.eqb y x) eqn:Ey.
    + rewrite <- IH. cbn [replace_from startswith app].
      apply N.eqb_eq in Ey. subst y. rewrite Erx. reflexivity.
    + now rewrite IH.
  - now rewrite IH.
Qed.

Lemma ins_app (rc x : char) (a b : str) : ins rc x (a ++ b) = ins rc x a ++ ins rc x b.
Proof. unfold ins. apply flat_map_app. Qed.

Lemma del_ins (rc x : char) (s : str) : x <> rc -> del rc x (ins rc x s) = s.
Proof.
  intros Hx. induction s as [|c s IH]; [reflexivity|].
  unfold ins in *. cbn [flat_map].
  destruct (N.eqb c x) eqn:E.
  - apply N.eqb_eq in E. subst c. cbn [app del].
    rewrite !N.eqb_refl.
    assert (N.eqb x rc = false) as -> by now apply N.eqb_neq.
    now rewrite IH.
  - cbn [app del]. destruct (N.eqb c rc) eqn:Ec; [|now rewrite IH].
    destruct s as [|y s]; [reflexivity|].
    cbn [flat_map] in *.
    destruct (N.eqb y x) eqn:Ey; cbn [app] in *.
    + assert (N.eqb rc x = false) as -> by (apply N.eqb_neq; congruence).
      now rewrite IH.
    + rewrite Ey. now rewrite IH.
Qed.

Lemma del_notin (rc x : char) (s : str) : ~ In x s -> del rc x s = s.
Proof.
  induction s as [|c s IH]; intros H; [reflexivity|].
  cbn [del]. assert (Hs : ~ In x s) by (intros F; apply H; now right).
  rewrite (IH Hs).
  destruct (N.eqb c rc); [|reflexivity].
  destruct s as [|y s]; [reflexivity|].
  assert (N.eqb y x = false) as ->; [|reflexivity].
  apply N.eqb_neq. intros ->. apply Hs. now left.
Qed.

Lemma del_app_sep (rc x y : char) (a b : str) :
  y <> rc -> y <> x ->
  del rc x (a ++ y :: b) = del rc x a ++ y :: del rc x b.
Proof.
  intros Hy Hyx.
  assert (Ey : N.eqb y rc = false) by now apply N.eqb_neq.
  assert (Eyx : N.eqb y x = false) by now apply N.eqb_neq.
  induction a as [|c a IH].
  - cbn [app del]. now rewrite Ey.
  - cbn [app del]. destruct (N.eqb c rc) eqn:Ec.
    + destruct a as [|z a].
      * cbn [app del] in *. now rewrite Eyx, Ey.
      * cbn [app] in *. destruct (N.eqb z x); now rewrite IH.
    + now rewrite IH.
Qed.

Lemma del_join (rc x y : char) (ps : list str) :
  y <> rc -> y <> x ->
  del rc x (join [y] ps) = join [y] (List.map (del rc x) ps).
Proof.
  intros Hy Hyx. induction ps as [|p ps IH]; [reflexivity|].
  destruct ps as [|q ps]; [reflexivity|].
  change (join [y] (p :: q :: ps)) with (p ++ y :: join [y] (q :: ps)).
  rewrite del_app_sep by assumption. rewrite IH. reflexivity.
Qed.

Lemma del_cons_rc (rc x : char) (s : str) :
  del rc x (rc :: s) =
  match s with
  | y :: _ => if N.eqb y x then del rc x s else rc :: del rc x s
  | [] => [rc]
  end.
Proof. cbn [del]. now rewrite N.eqb_refl. Qed.

Lemma del_cons_other (rc x c : char) (s : str) :
  c <> rc -> del rc x (c :: s) = c :: del rc x s.
Proof. intros H. cbn [del]. apply N.eqb_neq in H. now rewrite H. Qed.

Lemma ins_cons_same (rc x : char) (s : str) :
  ins rc x (x :: s) = rc :: x :: ins rc x s.
Proof. unfold ins. cbn [flat_map]. now rewrite N.eqb_refl. Qed.

Lemma ins_cons_other (rc x c : char) (s : str) :
  c <> x -> ins rc x (c :: s) = c :: ins rc x s.
Proof. intros H. unfold ins. cbn [flat_map]. apply N.eqb_neq in H. now rewrite H. Qed.

Lemma del_ins_other (rc x y : char) (s : str) :
  x <> y -> x <> rc -> y <> rc ->
  del rc x (ins rc y s) = ins rc y (del rc x s).
Proof.
  intros Hxy Hx Hy.
  induction s as [|c s IH]; [reflexivity|].
  destruct (N.eq_dec c y) as [->|Hcy].
  - rewrite ins_cons_same, del_cons_rc.
    assert (N.eqb y x = false) as -> by (apply N.eqb_neq; congruence).
    rewrite !del_cons_other by assumption.
    now rewrite ins_cons_same, IH.
  - rewrite ins_cons_other by assumption.
    destruct (N.eq_dec c rc) as [->|Hcr].
    + rewrite !del_cons_rc.
      destruct s as [|z s].
      { rewrite ins_cons_other by congruence. reflexivity. }
      destruct (N.eq_dec z y) as [->|Hzy].
      * rewrite ins_cons_same in *.
        assert (N.eqb rc x = false) as -> by (apply N.eqb_neq; congruence).
        assert (N.eqb y x = false) as -> by (apply N.eqb_neq; congruence).
        rewrite IH. rewrite (ins_cons_other rc y rc) by congruence. reflexivity.
      * rewrite (ins_cons_other rc y z) in * by assumption.
        destruct (N.eqb z x) eqn:Ezx.
        -- exact IH.
        -- rewrite IH. rewrite (ins_cons_other rc y rc) by congruence. reflexivity.
    + rewrite !del_cons_other by assumption.
      rewrite ins_cons_other by assumption. now rewrite IH.
Qed.

Lemma escaped_app (rc x : char) (b : bool) (a s : str) :
  escaped rc x b (a ++ s) = escaped rc x b a && escaped rc x (ends_rc rc b a) s.
Proof.
  revert b; induction a as [|c a IH]; intros b; [reflexivity|].
  cbn [app escaped ends_rc]. rewrite IH. now rewrite andb_assoc.
Qed.

Lemma ends_rc_app (rc : char) (b : bool) (a s : str) :
  ends_rc rc b (a ++ s) = ends_rc rc (ends_rc rc b a) s.
Proof. revert b; induction a as [|c a IH]; intros b; [reflexivity|]. apply IH. Qed.

Lemma is_prev_last_or (rc : char) (prev : option char) (s : str) :
  is_prev rc (last_or prev s) = ends_rc rc (is_prev rc prev) s.
Proof. revert prev; induction s as [|c s IH]; intros prev; [reflexivity|]. apply IH. Qed.

Lemma escaped_notin (rc x : char) (b : bool) (s : str) :
  ~ In x s -> escaped rc x b s = true.
Proof.
  revert b; induction s as [|c s IH]; intros b H; [reflexivity|].
  cbn [escaped]. rewrite IH by (intros F; apply H; now right).
  assert (N.eqb c x = false) as -> by (apply N.eqb_neq; intros ->; apply H; now left).
  reflexivity.
Qed.

Lemma escaped_ins_same (rc x : char) (b : bool) (s : str) :
  x <> rc -> escaped rc x b (ins rc x s) = true.
Proof.
  intros Hx. revert b; induction s as [|c s IH]; intros b; [reflexivity|].
  destruct (N.eq_dec c x) as [->|Hc].
  - rewrite ins_cons_same. cbn [escaped]. rewrite !N.eqb_refl, IH.
    assert (N.eqb rc x = false) as -> by (apply N.eqb_neq; congruence).
    reflexivity.
  - rewrite ins_cons_other by assumption. cbn [escaped]. rewrite IH.
    apply N.eqb_neq in Hc. now rewrite Hc.
Qed.

Lemma escaped_ins_other (rc x y : char) (b : bool) (s : str) :
  x <> y -> x <> rc ->
  escaped rc x b (ins rc y s) = escaped rc x b s.
Proof.
  intros Hxy Hx. revert b; induction s as [|c s IH]; intros b; [reflexivity|].
  destruct (N.eq_dec c y) as [->|Hc].
  - rewrite ins_cons_same. cbn [escaped]. rewrite IH.
    assert (N.eqb rc x = false) as -> by (apply N.eqb_neq; congruence).
    assert (N.eqb y x = false) as -> by (apply N.eqb_neq; congruence).
    reflexivity.
  - rewrite ins_cons_other by assumption. cbn [escaped]. now rewrite IH.
Qed.

Lemma ends_rc_ins (rc y : char) (b : bool) (s : str) :
  y <> rc -> ends_rc rc b (ins rc y s) = ends_rc rc b s.
Proof.
  intros Hy. revert b; induction s as [|c s IH]; intros b; [reflexivity|].
  destruct (N.eq_dec c y) as [->|Hc].
  - rewrite ins_cons_same. cbn [ends_rc]. apply IH.
  - rewrite ins_cons_other by assumption. cbn [ends_rc]. apply IH.
Qed.

(** *** Splitting *)

Lemma re_split_piece (rc x : char) (prev : option char) (p rest : str) :
  escaped rc x (is_prev rc prev) p = true ->
  ends_rc rc (is_prev rc prev) p = false ->
  re_split_from rc x prev (p ++ x :: rest)
  = p :: re_split_from rc x (Some x) rest.
Proof.
  revert prev; induction p as [|c p IH]; intros prev He Hn.
  - cbn [app re_split_from ends_rc] in *. now rewrite N.eqb_refl, Hn.
  - cbn [app re_split_from escaped ends_rc] in *.
    apply andb_true_iff in He as [H1 H2].
    rewrite (IH (Some c)) by assumption.
    destruct (N.eqb c x); [|reflexivity].
    cbn [negb orb] in H1. now rewrite H1.
Qed.

Lemma re_split_whole (rc x : char) (prev : option char) (p : str) :
  escaped rc x (is_prev rc prev) p = true ->
  re_split_from rc x prev p = [p].
Proof.
  revert prev; induction p as [|c p IH]; intros prev He; [reflexivity|].
  cbn [re_split_from escaped] in *.
  apply andb_true_iff in He as [H1 H2].
  rewrite (IH (Some c)) by assumption.
  destruct (N.eqb c x); [|reflexivity].
  cbn [negb orb] in H1. now rewrite H1.
Qed.

Lemma piece_ok_inv (rc x : char) (p : str) :
  piece_ok rc x p = true ->
  escaped rc x false p = true /\ ends_rc rc false p = false.
Proof.
  unfold piece_ok. intros H. apply andb_true_iff in H as [H1 H2].
  split; [assumption|]. now apply negb_true_iff.
Qed.

Lemma re_split_join (rc x : char) (prev : option char) (ps : list str) :
  x <> rc -> is_prev rc prev = false -> ps <> [] ->
  Forall (fun p => piece_ok rc x p = true) ps ->
  re_split_from rc x prev (join [x] ps) = ps.
Proof.
  intros Hx. assert (Ex : N.eqb x rc = false) by now apply N.eqb_neq.
  revert prev; induction ps as [|p ps IH]; intros prev Hp Hne Hall; [congruence|].
  inversion Hall as [|? ? H1 H2]; subst.
  apply piece_ok_inv in H1 as [He Hn].
  destruct ps as [|q ps].
  - cbn [join]. apply re_split_whole. now rewrite Hp.
  - change (join [x] (p :: q :: ps)) with (p ++ x :: join [x] (q :: ps)).
    rewrite re_split_piece by now rewrite Hp.
    rewrite IH; [reflexivity| exact Ex | discriminate | assumption].
Qed.

Lemma re_split_terminated (rc x : char) (prev : option char) (ps : list str) :
  x <> rc -> is_prev rc prev = false ->
  Forall (fun p => piece_ok rc x p = true) ps ->
  re_split_from rc x prev (terminated x ps) = ps ++ [[]].
Proof.
  intros Hx. assert (Ex : N.eqb x rc = false) by now apply N.eqb_neq.
  revert prev; induction ps as [|p ps IH]; intros prev Hp Hall; [reflexivity|].
  inversion Hall as [|? ? H1 H2]; subst.
  apply piece_ok_inv in H1 as [He Hn].
  unfold terminated in *. cbn [List.map List.concat].
  rewrite <- app_assoc. cbn [app].
  rewrite re_split_piece by now rewrite Hp.
  rewrite IH; [reflexivity| exact Ex | assumption].
Qed.

(** *** Line breaks after a terminator *)

Lemma re_sub_piece (rc st cr nl : char) (prev : option char) (p q : str) :
  escaped rc st (is_prev rc prev) p = true ->
  re_sub_breaks_from rc st cr nl prev 0 (p ++ q)
  = p ++ re_sub_breaks_from rc st cr nl (last_or prev p) 0 q.
Proof.
  revert prev; induction p as [|c p IH]; intros prev He; [reflexivity|].
  cbn [app re_sub_breaks_from escaped last_or] in *.
  apply andb_true_iff in He as [H1 H2].
  rewrite (IH (Some c)) by assumption.
  destruct (N.eqb c st); [|reflexivity].
  cbn [negb orb] in H1. now rewrite H1.
Qed.

Lemma re_sub_at_terminator (rc st cr nl : char) (prev : option char)
    (u v : char) (r : str) :
  is_prev rc prev = false -> N.eqb u nl = false -> N.eqb v nl = false ->
  re_sub_breaks_from rc st cr nl prev 0 (st :: u :: v :: r)
  = st :: re_sub_breaks_from rc st cr nl (Some st) 0 (u :: v :: r).
Proof.
  intros Hp Hu Hv.
  change (re_sub_breaks_from rc st cr nl prev 0 (st :: u :: v :: r))
    with (if N.eqb st st && negb (is_prev rc prev)
          then if N.eqb u cr && N.eqb v nl
               then st :: re_sub_breaks_from rc st cr nl (Some st) 2 (u :: v :: r)
               else if N.eqb u nl
                    then st :: re_sub_breaks_from rc st cr nl (Some st) 1 (u :: v :: r)
                    else st :: re_sub_breaks_from rc st cr nl (Some st) 0 (u :: v :: r)
          else st :: re_sub_breaks_from rc st cr nl (Some st) 0 (u :: v :: r)).
  rewrite Hu, Hv, andb_false_r. now destruct (N.eqb st st && negb (is_prev rc prev)).
Qed.

Lemma re_sub_terminated (rc st cr nl : char) (prev : option char) (ps : list str) :
  st <> rc -> is_prev rc prev = false ->
  Forall (fun p => piece_ok rc st p = true) ps ->
  Forall (fun p => starts_plain nl p = true) ps ->
  re_sub_breaks_from rc st cr nl prev 0 (terminated st ps) = terminated st ps.
Proof.
  intros Hx. assert (Ex : N.eqb st rc = false) by now apply N.eqb_neq.
  revert prev; induction ps as [|p ps IH]; intros prev Hp Hall Hpl; [reflexivity|].
  inversion Hall as [|? ? H1 H2]; subst.
  inversion Hpl as [|? ? P1 P2]; subst.
  apply piece_ok_inv in H1 as [He Hn].
  unfold terminated in *. cbn [List.map List.concat].
  rewrite <- app_assoc. rewrite re_sub_piece by now rewrite Hp.
  f_equal. cbn [app].
  assert (Hl : is_prev rc (last_or prev p) = false)
    by now rewrite is_prev_last_or, Hp.
  specialize (IH (Some st) Ex H2 P2).
  destruct ps as [|q ps].
  - cbn [List.map List.concat re_sub_breaks_from].
    now rewrite N.eqb_refl, Hl.
  - inversion P2 as [|? ? Q1 Q2]; subst.
    destruct q as [|u [|v q]]; try discriminate Q1.
    cbn [starts_plain] in Q1. apply andb_true_iff in Q1 as [Qu Qv].
    apply negb_true_iff in Qu, Qv.
    cbn [List.map List.concat app] in *.
    rewrite re_sub_at_terminator by assumption.
    f_equal. exact IH.
Qed.

(* ================================================================= *)
(** ** What make_edi writes *)

Lemma element_strings_join (d : Delimiters) (n i : nat) (es : list (list str)) :
  n = i + List.length es ->
  List.concat (flat_map (element_strings d n) (enumerate_from i es))
  = join [dataelement_separator d] (List.map (element_text d) es).
Proof.
  revert i; induction es as [|e es IH]; intros i Hn; [reflexivity|].
  cbn [enumerate_from flat_map element_strings List.map].
  fold (element_text d e).
  destruct es as [|e' es].
  - cbn [List.length] in Hn.
    replace (n - 1 =? i) with true by (symmetry; apply Nat.eqb_eq; lia).
    cbn. now rewrite app_nil_r.
  - replace (n - 1 =? i) with false
      by (symmetry; apply Nat.eqb_neq; cbn [List.length] in Hn; lia).
    cbn [app List.concat].
    rewrite (IH (S i)) by (cbn [List.length] in *; lia).
    reflexivity.
Qed.

Lemma segment_strings_plain (d : Delimiters) (n i : nat) (seg : segment) :
  is_una seg = false -> mem (fst seg) SEGMENTS = true ->
  exists strings,
    segment_strings d false false n (i, seg) = Ok strings
    /\ List.concat strings = segment_text d seg ++ [segment_terminator d].
Proof.
  destruct seg as [tag b]. unfold is_una. cbn [fst snd]. intros Hu Hm.
  unfold segment_strings. rewrite Hu, Hm.
  eexists. split; [reflexivity|].
  unfold line_break. cbn [app].
  replace (if n - 1 =? i then [] else []) with (@nil (list char))
    by now destruct (n - 1 =? i).
  cbn [List.concat]. rewrite concat_app. unfold enumerate.
  rewrite (element_strings_join d _ 0) by reflexivity.
  unfold segment_text. cbn [fst snd List.concat].
  rewrite <- !app_assoc. cbn [app]. reflexivity.
Qed.

Lemma segment_strings_una (d : Delimiters) (n : nat) (seg : segment) :
  is_una seg = true -> segment_strings d false false n (0, seg) = Ok [].
Proof.
  destruct seg as [tag b]. unfold is_una. cbn [fst]. intros Hu.
  unfold segment_strings. now rewrite Hu.
Qed.

Lemma mapM_segment_strings_ok (d : Delimiters) (n i : nat) (segments : list segment) :
  emittable i segments = true ->
  exists strings,
    mapM (segment_strings d false false n) (enumerate_from i segments) = Ok strings
    /\ List.concat (List.concat strings)
       = terminated (segment_terminator d)
           (List.map (segment_text d) (payload segments)).
Proof.
  revert i; induction segments as [|seg rest IH]; intros i He.
  - exists []. split; reflexivity.
  - cbn [emittable] in He. apply andb_true_iff in He as [H1 H2].
    destruct (IH (S i) H2) as (strs & Hs & Hc).
    cbn [enumerate_from mapM payload filter].
    destruct (is_una seg) eqn:Eu.
    + apply Nat.eqb_eq in H1. subst i.
      rewrite (segment_strings_una d n seg Eu). cbn [bind].
      rewrite Hs. cbn [bind negb]. eexists. split; [reflexivity|].
      cbn [List.concat app]. exact Hc.
    + destruct (segment_strings_plain d n i seg Eu H1) as (l & Hl & Hlc).
      rewrite Hl. cbn [bind]. rewrite Hs. cbn [bind negb].
      eexists. split; [reflexivity|].
      cbn [List.concat List.map]. rewrite concat_app, Hlc.
      unfold terminated in *. cbn [List.map List.concat]. now rewrite Hc.
Qed.

Lemma mapM_segment_strings_inv (d : Delimiters) (wn wc : bool) (n i : nat)
    (segments : list segment) (strings : list (list str)) :
  mapM (segment_strings d wn wc n) (enumerate_from i segments) = Ok strings ->
  emittable i segments = true.
Proof.
  revert i strings; induction segments as [|seg rest IH]; intros i strs H;
    [reflexivity|].
  cbn [enumerate_from mapM emittable] in *.
  destruct (segment_strings d wn wc n (i, seg)) as [l|e] eqn:E; [|discriminate].
  cbn [bind] in H.
  destruct (mapM (segment_strings d wn wc n) (enumerate_from (S i) rest))
    as [ls|e] eqn:E2; [|discriminate].
  rewrite (IH _ _ E2), andb_true_r.
  destruct seg as [tag b]. unfold segment_strings in E. unfold is_una. cbn [fst].
  destruct (str_eqb tag UNA).
  - destruct (i =? 0); [reflexivity|discriminate].
  - destruct (mem tag SEGMENTS); [reflexivity|discriminate].
Qed.

Lemma make_text_ok (d : Delimiters) (segments : list segment) :
  unique (delimiter_chars d) = true -> emittable 0 segments = true ->
  make_text d false false true segments = Ok (message_text d segments).
Proof.
  intros Hu He. unfold make_text. rewrite Hu.
  destruct (mapM_segment_strings_ok d (List.length segments) 0 segments He)
    as (strs & Hs & Hc).
  unfold enumerate. rewrite Hs. cbn [bind]. f_equal.
  unfold una_strings, line_break. cbn [app List.concat].
  rewrite Hc. unfold message_text, terminated, una_text.
  cbn [List.map List.concat]. rewrite <- !app_assoc. reflexivity.
Qed.

Lemma make_text_inv (d : Delimiters) (wn wc wu : bool) (segments : list segment)
    (text : str) :
  make_text d wn wc wu segments = Ok text ->
  unique (delimiter_chars d) = true /\ emittable 0 segments = true.
Proof.
  unfold make_text. destruct (unique (delimiter_chars d)); [|discriminate].
  destruct (mapM _ (enumerate segments)) as [strs|e] eqn:E; [|discriminate].
  intros _. split; [reflexivity|].
  unfold enumerate in E. now apply mapM_segment_strings_inv in E.
Qed.

(* ================================================================= *)
(** ** What parse_edi reads back *)

Lemma segments_shape (t : str) :
  mem t SEGMENTS = true ->
  exists a b c, t = [a; b; c] /\ is_upper a = true /\ is_upper b = true
                /\ is_upper c = true /\ str_eqb t UNA = false.
Proof.
  intros H. apply mem_In in H.
  assert (A : forallb tag_shape SEGMENTS = true) by (vm_compute; reflexivity).
  rewrite forallb_forall in A. specialize (A t H).
  destruct t as [|a [|b [|c [|? ?]]]]; try discriminate A.
  unfold tag_shape in A.
  apply andb_true_iff in A as [A H4]. apply andb_true_iff in A as [A H3].
  apply andb_true_iff in A as [A H2].
  exists a, b, c. repeat split; try assumption. now apply negb_true_iff.
Qed.

Lemma upper_neq (x u : char) :
  is_upper x = false -> is_upper u = true -> u <> x.
Proof. intros Hx Hu E. subst. congruence. Qed.

Lemma plain_facts (d : Delimiters) :
  plain_delimiters d = true ->
  component_separator d <> dataelement_separator d
  /\ component_separator d <> release_char d
  /\ component_separator d <> segment_terminator d
  /\ dataelement_separator d <> release_char d
  /\ dataelement_separator d <> segment_terminator d
  /\ decimal_mark d <> segment_terminator d
  /\ release_char d <> segment_terminator d
  /\ segment_terminator d <> backslash
  /\ release_char d <> SPACE
  /\ is_upper (segment_terminator d) = false
  /\ is_upper (newline d) = false.
Proof.
  destruct d as [cs ds dm rc st nl cr].
  unfold plain_delimiters, delimiter_chars.
  cbn [unique char_mem component_separator dataelement_separator decimal_mark
       release_char segment_terminator newline carriage_return].
  intros H.
  repeat rewrite andb_true_iff in H. repeat rewrite negb_true_iff in H.
  repeat rewrite orb_false_iff in H. repeat rewrite N.eqb_neq in H.
  intuition congruence.
Qed.

Lemma plain_unique (d : Delimiters) :
  plain_delimiters d = true -> unique (delimiter_chars d) = true.
Proof.
  unfold plain_delimiters. intros H.
  destruct (unique (delimiter_chars d)); [reflexivity | discriminate H].
Qed.

Lemma escape_component_ins (d : Delimiters) (c : str) :
  escape_component d c
  = ins (release_char d) (segment_terminator d)
      (ins (release_char d) (component_separator d)
         (ins (release_char d) (dataelement_separator d) c)).
Proof. unfold escape_component. now rewrite !replace_insert. Qed.

Lemma escaped_join (rc x y : char) (b : bool) (ps : list str) :
  y <> x ->
  Forall (fun p => forall b', escaped rc x b' p = true) ps ->
  escaped rc x b (join [y] ps) = true.
Proof.
  intros Hy. assert (Ey : N.eqb y x = false) by now apply N.eqb_neq.
  revert b; induction ps as [|p ps IH]; intros b Hall; [reflexivity|].
  inversion Hall as [|? ? H1 H2]; subst.
  destruct ps as [|q ps]; [apply H1|].
  change (join [y] (p :: q :: ps)) with (p ++ y :: join [y] (q :: ps)).
  rewrite escaped_app, H1. cbn [escaped andb]. rewrite Ey. cbn [negb orb andb].
  now apply IH.
Qed.

Lemma ends_rc_join (rc y : char) (ps : list str) :
  y <> rc ->
  Forall (fun p => ends_rc rc false p = false) ps ->
  ends_rc rc false (join [y] ps) = false.
Proof.
  intros Hy. assert (Ey : N.eqb y rc = false) by now apply N.eqb_neq.
  induction ps as [|p ps IH]; intros Hall; [reflexivity|].
  inversion Hall as [|? ? H1 H2]; subst.
  destruct ps as [|q ps]; [apply H1|].
  change (join [y] (p :: q :: ps)) with (p ++ y :: join [y] (q :: ps)).
  rewrite ends_rc_app. cbn [ends_rc]. rewrite Ey. now apply IH.
Qed.

Lemma del_cons_next (rc x c y : char) (s : str) :
  y <> x -> del rc x (c :: y :: s) = c :: del rc x (y :: s).
Proof.
  intros Hy. apply N.eqb_neq in Hy.
  change (del rc x (c :: y :: s))
    with (if N.eqb c rc
          then if N.eqb y x then del rc x (y :: s) else c :: del rc x (y :: s)
          else c :: del rc x (y :: s)).
  rewrite Hy. now destruct (N.eqb c rc).
Qed.

Lemma forallb_Forall_true {A} (f : A -> bool) (l : list A) :
  forallb f l = true -> Forall (fun x => f x = true) l.
Proof. intros H. apply Forall_forall. now apply forallb_forall. Qed.

Section ReadBack.

Variable d : Delimiters.
Hypothesis Hplain : plain_delimiters d = true.

Local Abbreviation cs := (component_separator d).
Local Abbreviation ds := (dataelement_separator d).
Local Abbreviation rc := (release_char d).
Local Abbreviation st := (segment_terminator d).

Lemma written_component_ok (c : str) :
  no_trailing rc c = true -> piece_ok rc cs (in_element d c) = true.
Proof.
  destruct (plain_facts d Hplain) as (_ & Hcr & _).
  intros Hc. unfold piece_ok, in_element.
  rewrite escaped_ins_same by assumption.
  rewrite ends_rc_ins by assumption. exact Hc.
Qed.

Lemma read_components (e : list str) :
  forallb (no_trailing rc) e = true ->
  List.map (replace [rc; cs] [cs])
    (re_split rc cs (join [cs] (List.map (in_element d) e)))
  = norm_components e.
Proof.
  destruct (plain_facts d Hplain) as (_ & Hcr & _).
  intros He. destruct e as [|c e]; [reflexivity|].
  unfold re_split. rewrite re_split_join; try assumption; try reflexivity;
    try discriminate.
  - rewrite map_map. cbn [norm_components].
    rewrite <- (map_id (c :: e)) at 2. apply map_ext. intros a.
    rewrite replace_delete by assumption. now apply del_ins.
  - apply Forall_map. apply forallb_Forall_true in He.
    eapply Forall_impl; [|exact He]. intros a. apply written_component_ok.
Qed.

Lemma written_element_ok (e : list str) :
  forallb (no_trailing rc) e = true ->
  piece_ok rc ds (join [cs] (List.map (in_segment d) e)) = true.
Proof.
  destruct (plain_facts d Hplain) as (Hcd & Hcr & _ & Hdr & _).
  intros He. apply forallb_Forall_true in He. unfold piece_ok.
  rewrite escaped_join; [| assumption |].
  - rewrite ends_rc_join; [reflexivity | assumption |].
    apply Forall_map. eapply Forall_impl; [|exact He].
    intros a Ha. unfold in_segment.
    rewrite !ends_rc_ins by assumption.
    unfold no_trailing in Ha. now apply negb_true_iff in Ha.
  - apply Forall_map. apply Forall_forall. intros a _ b. unfold in_segment.
    rewrite escaped_ins_other by congruence.
    now apply escaped_ins_same.
Qed.

Lemma read_element (e : list str) :
  replace [rc; ds] [ds] (join [cs] (List.map (in_segment d) e))
  = join [cs] (List.map (in_element d) e).
Proof.
  destruct (plain_facts d Hplain) as (Hcd & Hcr & _ & Hdr & _).
  rewrite replace_delete by assumption.
  rewrite del_join by assumption. rewrite map_map. f_equal.
  apply map_ext. intros a. unfold in_segment, in_element.
  rewrite del_ins_other by congruence. now rewrite del_ins.
Qed.

Lemma read_elements (es : list (list str)) :
  forallb (forallb (no_trailing rc)) es = true ->
  List.map (fun data_element =>
              List.map (replace [rc; cs] [cs]) (re_split rc cs data_element))
    (List.map (replace [rc; ds] [ds])
       (re_split rc ds
          (join [ds] (List.map (fun e => join [cs] (List.map (in_segment d) e)) es))))
  = norm_elements es.
Proof.
  destruct (plain_facts d Hplain) as (Hcd & Hcr & _ & Hdr & _).
  intros Hes. destruct es as [|e es]; [reflexivity|].
  unfold re_split. rewrite re_split_join; try assumption; try reflexivity;
    try discriminate.
  - rewrite !map_map. cbn [norm_elements]. apply map_ext_in. intros a Ha.
    rewrite read_element. apply read_components.
    rewrite forallb_forall in Hes. now apply Hes.
  - apply Forall_map. apply forallb_Forall_true in Hes.
    eapply Forall_impl; [|exact Hes]. intros a. apply written_element_ok.
Qed.

Lemma in_tag (x : char) (t : str) :
  mem t SEGMENTS = true -> is_upper x = false -> ~ In x t.
Proof.
  intros Ht Hx. destruct (segments_shape t Ht) as (a & b & c & -> & Ha & Hb & Hc & _).
  intros [E|[E|[E|[]]]]; subst; congruence.
Qed.

Lemma written_segment_read (seg : segment) :
  mem (fst seg) SEGMENTS = true ->
  replace [rc; st] [st] (segment_text d seg)
  = fst seg ++ ds :: join [ds]
      (List.map (fun e => join [cs] (List.map (in_segment d) e))
         (elements_of (snd seg))).
Proof.
  destruct (plain_facts d Hplain)
    as (Hcd & Hcr & Hcs & Hdr & Hds & _ & Hrs & _ & _ & Hup & _).
  intros Ht. rewrite replace_delete by congruence. unfold segment_text.
  rewrite del_app_sep by assumption.
  rewrite del_notin by now apply in_tag.
  rewrite del_join by assumption. rewrite map_map.
  do 3 f_equal. apply map_ext. intros e. unfold element_text.
  rewrite del_join by assumption. rewrite map_map. f_equal.
  apply map_ext. intros c. rewrite escape_component_ins.
  rewrite del_ins by congruence. reflexivity.
Qed.

Lemma parse_line_written (i : nat) (seg : segment) :
  mem (fst seg) SEGMENTS = true -> components_ok rc seg = true ->
  parse_line d (i, replace [rc; st] [st] (segment_text d seg)) = Ok (normal seg).
Proof.
  intros Ht Hc. rewrite written_segment_read by assumption.
  destruct seg as [tag b]. cbn [fst snd] in *.
  destruct (segments_shape tag Ht) as (x & y & z & -> & _ & _ & _ & Hu).
  unfold parse_line. cbn [app startswith UNA].
  cbn [str_eqb UNA] in Hu.
  rewrite (N.eqb_sym _ x), (N.eqb_sym _ y), (N.eqb_sym _ z), Hu.
  cbn [nth_error firstn skipn]. rewrite N.eqb_refl, Ht.
  unfold components_ok in Hc. cbn [snd] in Hc.
  rewrite (read_elements _ Hc). reflexivity.
Qed.

Lemma written_segment_piece (seg : segment) :
  mem (fst seg) SEGMENTS = true -> components_ok rc seg = true ->
  piece_ok rc st (segment_text d seg) = true.
Proof.
  destruct (plain_facts d Hplain)
    as (Hcd & Hcr & Hcs & Hdr & Hds & _ & Hrs & _ & _ & Hup & _).
  intros Ht Hc. unfold components_ok in Hc. apply forallb_Forall_true in Hc.
  unfold piece_ok, segment_text.
  assert (Edr : N.eqb ds rc = false) by now apply N.eqb_neq.
  assert (Eds : N.eqb ds st = false) by now apply N.eqb_neq.
  rewrite escaped_app, ends_rc_app. cbn [escaped ends_rc].
  rewrite Edr, Eds. cbn [negb orb andb].
  rewrite escaped_notin by now apply in_tag. cbn [andb].
  rewrite escaped_join; [| assumption |].
  - rewrite ends_rc_join; [reflexivity | assumption |].
    apply Forall_map. eapply Forall_impl; [|exact Hc].
    intros e He. apply forallb_Forall_true in He. unfold element_text.
    apply ends_rc_join; [assumption|].
    apply Forall_map. eapply Forall_impl; [|exact He].
    intros c Hcc. rewrite escape_component_ins.
    rewrite !ends_rc_ins by congruence.
    unfold no_trailing in Hcc. now apply negb_true_iff in Hcc.
  - apply Forall_map. apply Forall_forall. intros e _ b. unfold element_text.
    apply escaped_join; [assumption|].
    apply Forall_map. apply Forall_forall. intros c _ b'.
    rewrite escape_component_ins. apply escaped_ins_same. congruence.
Qed.

Lemma written_segment_plain (seg : segment) :
  mem (fst seg) SEGMENTS = true ->
  starts_plain (newline d) (segment_text d seg) = true.
Proof.
  destruct (plain_facts d Hplain) as (_ & _ & _ & _ & _ & _ & _ & _ & _ & _ & Hnl).
  intros Ht. destruct seg as [tag b]. cbn [fst] in Ht.
  destruct (segments_shape tag Ht) as (x & y & z & -> & Hx & Hy & _).
  unfold segment_text. cbn [fst app starts_plain].
  apply (upper_neq _ _ Hnl) in Hx, Hy. apply N.eqb_neq in Hx, Hy.
  now rewrite Hx, Hy.
Qed.

Lemma una_text_piece : piece_ok rc st (una_text d) = true.
Proof.
  destruct (plain_facts d Hplain)
    as (Hcd & Hcr & Hcs & Hdr & Hds & Hms & Hrs & _ & Hsp & Hup & _).
  assert (E1 : N.eqb 85 st = false)
    by (apply N.eqb_neq, (upper_neq _ _ Hup); reflexivity).
  assert (E2 : N.eqb 78 st = false)
    by (apply N.eqb_neq, (upper_neq _ _ Hup); reflexivity).
  assert (E3 : N.eqb 65 st = false)
    by (apply N.eqb_neq, (upper_neq _ _ Hup); reflexivity).
  apply N.eqb_neq in Hcs, Hds, Hms, Hrs.
  assert (E4 : N.eqb SPACE rc = false) by (apply N.eqb_neq; congruence).
  unfold piece_ok, una_text. cbn [UNA app escaped ends_rc].
  rewrite E1, E2, E3, Hcs, Hds, Hms, Hrs, E4, N.eqb_refl.
  cbn [negb orb andb]. now rewrite orb_true_r.
Qed.

Lemma una_text_plain : starts_plain (newline d) (una_text d) = true.
Proof.
  destruct (plain_facts d Hplain) as (_ & _ & _ & _ & _ & _ & _ & _ & _ & _ & Hnl).
  unfold una_text. cbn [UNA app starts_plain].
  assert (E1 : N.eqb 85 (newline d) = false)
    by (apply N.eqb_neq, (upper_neq _ _ Hnl); reflexivity).
  assert (E2 : N.eqb 78 (newline d) = false)
    by (apply N.eqb_neq, (upper_neq _ _ Hnl); reflexivity).
  now rewrite E1, E2.
Qed.

Lemma parse_line_una :
  parse_line d (0, replace [rc; st] [st] (una_text d)) = Ok (una_segment d).
Proof.
  destruct (plain_facts d Hplain)
    as (Hcd & Hcr & Hcs & Hdr & Hds & Hms & Hrs & _ & Hsp & Hup & _).
  rewrite replace_delete by congruence.
  unfold una_text. cbn [UNA app].
  rewrite del_cons_next by (apply (upper_neq _ _ Hup); reflexivity).
  rewrite del_cons_next by (apply (upper_neq _ _ Hup); reflexivity).
  rewrite del_cons_next by assumption.
  unfold parse_line. cbn [startswith UNA]. rewrite !N.eqb_refl.
  reflexivity.
Qed.

Lemma split_lines_written (P : list segment) :
  forallb (writable d) P = true ->
  split_lines d (terminated st (una_text d :: List.map (segment_text d) P))
  = Ok (List.map (replace [rc; st] [st])
          (una_text d :: List.map (segment_text d) P)).
Proof.
  destruct (plain_facts d Hplain)
    as (Hcd & Hcr & Hcs & Hdr & Hds & Hms & Hrs & Hbs & Hsp & Hup & _).
  intros HP. apply forallb_Forall_true in HP.
  assert (Hok : Forall (fun p => piece_ok rc st p = true)
                  (una_text d :: List.map (segment_text d) P)).
  { constructor; [apply una_text_piece|]. apply Forall_map.
    eapply Forall_impl; [|exact HP]. intros seg Hs. unfold writable in Hs.
    apply andb_true_iff in Hs as [H1 H2]. now apply written_segment_piece. }
  assert (Hpl : Forall (fun p => starts_plain (newline d) p = true)
                  (una_text d :: List.map (segment_text d) P)).
  { constructor; [apply una_text_plain|]. apply Forall_map.
    eapply Forall_impl; [|exact HP]. intros seg Hs. unfold writable in Hs.
    apply andb_true_iff in Hs as [H1 H2]. now apply written_segment_plain. }
  unfold split_lines, re_sub_breaks.
  apply N.eqb_neq in Hbs. rewrite Hbs. cbn [bind].
  rewrite re_sub_terminated; try assumption; try reflexivity; try congruence.
  unfold re_split. rewrite re_split_terminated; try assumption; try reflexivity;
    try congruence.
  rewrite map_app. cbn [List.map]. unfold drop_last.
  now rewrite removelast_last.
Qed.

Lemma mapM_parse_lines (i : nat) (P : list segment) :
  forallb (writable d) P = true ->
  mapM (parse_line d)
    (enumerate_from i (List.map (replace [rc; st] [st]) (List.map (segment_text d) P)))
  = Ok (List.map normal P).
Proof.
  revert i; induction P as [|seg P IH]; intros i HP; [reflexivity|].
  cbn [forallb] in HP. apply andb_true_iff in HP as [Hs HP].
  unfold writable in Hs. apply andb_true_iff in Hs as [H1 H2].
  cbn [List.map enumerate_from mapM].
  rewrite parse_line_written by assumption. cbn [bind].
  rewrite IH by assumption. reflexivity.
Qed.

Lemma resolve_una_written (p : Delimiters) (rest : str) :
  newline p = newline d -> carriage_return p = carriage_return d ->
  resolve_una p (una_text d ++ st :: rest) = Ok d.
Proof.
  intros Hn Hc. unfold resolve_una, una_text. cbn [UNA app startswith].
  rewrite !N.eqb_refl. cbn [andb skipn firstn]. rewrite Hn, Hc.
  now destruct d.
Qed.

Lemma parse_content_written (p : Delimiters) (P : list segment) :
  newline p = newline d -> carriage_return p = carriage_return d ->
  forallb (writable d) P = true ->
  parse_content p (terminated st (una_text d :: List.map (segment_text d) P))
  = Ok (una_segment d :: List.map normal P).
Proof.
  intros Hn Hc HP. unfold parse_content.
  assert (R : resolve_una p
                (terminated st (una_text d :: List.map (segment_text d) P))
              = Ok d).
  { unfold terminated. cbn [List.map List.concat]. rewrite <- app_assoc.
    now apply resolve_una_written. }
  rewrite R. cbn [bind].
  rewrite (plain_unique d Hplain). rewrite split_lines_written by assumption. cbn [bind].
  unfold enumerate. cbn [List.map enumerate_from mapM].
  rewrite parse_line_una. cbn [bind].
  rewrite mapM_parse_lines by assumption. reflexivity.
Qed.

End ReadBack.

(* ================================================================= *)
(** ** Reading back what was written *)

Lemma una_override_self (d : Delimiters) : una_override d d = d.
Proof. now destruct d. Qed.

Lemma message_text_override (d p : Delimiters) (segments : list segment) :
  message_text (una_override d p) segments = message_text d segments.
Proof. reflexivity. Qed.

Lemma emittable_payload (i : nat) (segments : list segment) :
  emittable i segments = true ->
  forallb (fun seg => mem (fst seg) SEGMENTS) (payload segments) = true.
Proof.
  revert i; induction segments as [|seg rest IH]; intros i H; [reflexivity|].
  cbn [emittable] in H. apply andb_true_iff in H as [H1 H2].
  cbn [payload filter]. fold (payload rest).
  destruct (is_una seg); cbn [negb].
  - now apply (IH (S i)).
  - cbn [forallb]. rewrite H1. now apply (IH (S i)).
Qed.

Lemma writable_payload (d : Delimiters) (i : nat) (segments : list segment) :
  emittable i segments = true ->
  forallb (components_ok (release_char d)) (payload segments) = true ->
  forallb (writable d) (payload segments) = true.
Proof.
  intros He Hc. apply emittable_payload in He.
  rewrite forallb_forall in *. intros seg Hs. unfold writable.
  now rewrite (He seg Hs), (Hc seg Hs).
Qed.

Lemma make_edi_inv (ext : str -> Codec) (d : Delimiters) (de : str)
    (wn wc wu : bool) (segments : list segment) (data : bytes) :
  make_edi ext d de wn wc wu segments = Ok data ->
  exists text uno name,
    make_text d wn wc wu segments = Ok text
    /\ find_uno de segments = Ok uno
    /\ lookup uno ENCODINGS = Some name
    /\ encode (lookup_codec ext name) text = Some data.
Proof.
  unfold make_edi.
  destruct (make_text d wn wc wu segments) as [text|e] eqn:E1; [|discriminate].
  cbn [bind]. destruct (find_uno de segments) as [uno|e] eqn:E2; [|discriminate].
  cbn [bind]. destruct (lookup uno ENCODINGS) as [name|] eqn:E3; [|discriminate].
  destruct (encode (lookup_codec ext name) text) as [b|] eqn:E4; [|discriminate].
  intros H. injection H as <-. exists text, uno, name. auto.
Qed.

(** The segments [parse_edi] returns for a message that [make_edi] wrote with
    the advice in front and without line breaks. *)
Lemma parse_edi_written (ext : str -> Codec) (d p : Delimiters) (de : str)
    (warn : bool) (segments : list segment) (data : bytes) :
  plain_delimiters (una_override d p) = true ->
  forallb (components_ok (release_char d)) (payload segments) = true ->
  make_edi ext d de false false true segments = Ok data ->
  read_content ext de data = make_text d false false true segments ->
  parse_edi ext p warn de data
  = Ok (una_segment d :: List.map normal (payload segments)).
Proof.
  intros Hp Hc Hm Hr.
  destruct (make_edi_inv _ _ _ _ _ _ _ _ Hm) as (text & uno & name & Ht & _).
  destruct (make_text_inv _ _ _ _ _ _ Ht) as [Hu He].
  rewrite (make_text_ok d segments Hu He) in Hr.
  unfold parse_edi. rewrite Hr. cbn [bind].
  rewrite <- (message_text_override d p). unfold message_text.
  rewrite (parse_content_written (una_override d p) Hp p); try reflexivity.
  apply (writable_payload (una_override d p) 0); assumption.
Qed.

Lemma filled_normal (seg : segment) : filled seg = true -> normal seg = seg.
Proof.
  destruct seg as [tag [cs|es]]; unfold filled, normal; cbn [fst snd elements_of];
    [discriminate|].
  destruct es as [|e es]; [discriminate|]. intros H.
  cbn [norm_elements]. do 2 f_equal.
  rewrite <- (map_id (e :: es)) at 2. apply map_ext_in. intros a Ha.
  rewrite forallb_forall in H. specialize (H a Ha). now destruct a.
Qed.

Lemma mem_not_una (seg : segment) :
  mem (fst seg) SEGMENTS = true -> is_una seg = false.
Proof.
  intros H. destruct (segments_shape _ H) as (a & b & c & E & _ & _ & _ & Hu).
  exact Hu.
Qed.

Lemma payload_recognised (P : list segment) :
  forallb (fun seg => mem (fst seg) SEGMENTS) P = true -> payload P = P.
Proof.
  induction P as [|seg P IH]; intros H; [reflexivity|].
  cbn [forallb] in H. apply andb_true_iff in H as [H1 H2].
  cbn [payload filter]. rewrite (mem_not_una seg H1). cbn [negb].
  fold (payload P). now rewrite IH.
Qed.

Lemma writable_recognised (d : Delimiters) (P : list segment) :
  forallb (writable d) P = true ->
  forallb (fun seg => mem (fst seg) SEGMENTS) P = true.
Proof.
  rewrite !forallb_forall. intros H seg Hs. specialize (H seg Hs).
  unfold writable in H. now apply andb_true_iff in H as [H _].
Qed.

Lemma writable_components (d : Delimiters) (P : list segment) :
  forallb (writable d) P = true ->
  forallb (components_ok (release_char d)) P = true.
Proof.
  rewrite !forallb_forall. intros H seg Hs. specialize (H seg Hs).
  unfold writable in H. now apply andb_true_iff in H as [_ H].
Qed.

Lemma escape_component_nil (d : Delimiters) : escape_component d [] = [].
Proof. reflexivity. Qed.

Lemma element_text_norm (d : Delimiters) (e : list str) :
  element_text d (norm_components e) = element_text d e.
Proof. now destruct e. Qed.

Lemma segment_text_normal (d : Delimiters) (seg : segment) :
  segment_text d (normal seg) = segment_text d seg.
Proof.
  unfold segment_text, normal. cbn [fst snd elements_of].
  destruct (elements_of (snd seg)) as [|e es]; [reflexivity|].
  cbn [norm_elements]. rewrite map_map. do 3 f_equal.
  apply map_ext. intros a. apply element_text_norm.
Qed.

Lemma find_uno_normal (de uno : str) (d : Delimiters) (segments : list segment) :
  find_uno de segments = Ok uno ->
  find_uno de (una_segment d :: List.map normal (payload segments)) = Ok uno.
Proof.
  intros H. cbn [find_uno una_segment].
  change (str_eqb UNA UNB) with false. cbv iota.
  induction segments as [|[tag b] rest IH]; [exact H|].
  cbn [find_uno] in H. cbn [payload filter]. fold (payload rest).
  unfold is_una. cbn [fst].
  destruct (str_eqb tag UNB) eqn:Eb.
  - apply str_eqb_eq in Eb. subst tag.
    change (str_eqb UNB UNA) with false. cbn [negb List.map find_uno normal fst snd].
    change (str_eqb UNB UNB) with true. cbv iota.
    cbn [elements_of].
    destruct (elements_of b) as [|e0 es]; [discriminate H|].
    cbn [nth_error] in H. destruct e0 as [|c0 e0]; [discriminate H|].
    exact H.
  - destruct (str_eqb tag UNA); cbn [negb].
    + now apply IH.
    + cbn [List.map find_uno normal fst]. rewrite Eb. now apply IH.
Qed.

Lemma emittable_normal (d : Delimiters) (P : list segment) :
  forallb (fun seg => mem (fst seg) SEGMENTS) P = true ->
  emittable 0 (una_segment d :: List.map normal P) = true.
Proof.
  intros H. cbn [emittable]. change (is_una (una_segment d)) with true.
  cbn [Nat.eqb andb]. generalize 1.
  induction P as [|seg P IH]; intros i; [reflexivity|].
  cbn [forallb] in H. apply andb_true_iff in H as [H1 H2].
  cbn [List.map emittable].
  assert (Hu : is_una (normal seg) = false) by (apply mem_not_una; exact H1).
  rewrite Hu. cbn [normal fst]. rewrite H1. now apply IH.
Qed.

Lemma payload_normal (d : Delimiters) (P : list segment) :
  forallb (fun seg => mem (fst seg) SEGMENTS) P = true ->
  payload (una_segment d :: List.map normal P) = List.map normal P.
Proof.
  intros H. cbn [payload filter]. change (is_una (una_segment d)) with true.
  cbn [negb]. fold (payload (List.map normal P)).
  apply payload_recognised. rewrite forallb_forall in *.
  intros seg Hs. apply in_map_iff in Hs as (s0 & <- & Hs0).
  cbn [normal fst]. now apply H.
Qed.

(** Writing the segments that were read back gives what writing the original
    segments gives, under any delimiters. *)
Lemma make_edi_normal (ext : str -> Codec) (d d2 : Delimiters) (de uno : str)
    (segments : list segment) :
  emittable 0 segments = true -> find_uno de segments = Ok uno ->
  make_edi ext d2 de false false true
    (una_segment d :: List.map normal (payload segments))
  = make_edi ext d2 de false false true segments.
Proof.
  intros He Hf. unfold make_edi.
  rewrite (find_uno_normal de uno d segments Hf), Hf.
  destruct (unique (delimiter_chars d2)) eqn:Hu.
  - rewrite (make_text_ok d2 segments Hu He).
    pose proof (emittable_payload 0 segments He) as Hr.
    rewrite (make_text_ok d2 _ Hu (emittable_normal d _ Hr)).
    replace (message_text d2 (una_segment d :: List.map normal (payload segments)))
      with (message_text d2 segments); [reflexivity|].
    unfold message_text. rewrite (payload_normal d _ Hr).
    rewrite map_map. do 2 f_equal. apply map_ext.
    intros seg. symmetry. apply segment_text_normal.
  - unfold make_text. now rewrite Hu.
Qed.

(* ================================================================= *)
(** ** Text codecs *)

Lemma byte_of_N_to_N (n : N) : (n < 256)%N -> Byte.to_N (byte_of_N n) = n.
Proof.
  intros H. unfold byte_of_N. destruct (Byte.of_N n) as [b|] eqn:E.
  - now apply Byte.to_of_N.
  - apply Byte.of_N_None_iff in E. lia.
Qed.

Lemma decode_encode_below (bound : N) (s : str) (b : bytes) :
  (bound <= 256)%N -> encode_below bound s = Some b ->
  decode_below bound b = Some s.
Proof.
  intros Hb. revert b; induction s as [|c s IH]; intros b H.
  - injection H as <-. reflexivity.
  - cbn [encode_below] in H. destruct (c <? bound)%N eqn:E; [|discriminate H].
    destruct (encode_below bound s) as [bs|]; [|discriminate H].
    injection H as <-. apply N.ltb_lt in E.
    cbn [decode_below]. rewrite byte_of_N_to_N by lia.
    apply N.ltb_lt in E. rewrite E. now rewrite (IH bs eq_refl).
Qed.

Lemma utf8_decode_1 (b0 : byte) (r : bytes) :
  (Byte.to_N b0 < 128)%N ->
  utf8_decode (b0 :: r) = option_map (cons (Byte.to_N b0)) (utf8_decode r).
Proof. intros H. cbn [utf8_decode]. apply N.ltb_lt in H. now rewrite H. Qed.

Lemma utf8_decode_2 (b0 b1 : byte) (r : bytes) :
  (194 <= Byte.to_N b0)%N -> (Byte.to_N b0 < 224)%N ->
  is_cont (Byte.to_N b1) = true ->
  utf8_decode (b0 :: b1 :: r)
  = option_map (cons ((Byte.to_N b0 - 192) * 64 + (Byte.to_N b1 - 128))%N)
      (utf8_decode r).
Proof.
  intros H1 H2 H3. cbn [utf8_decode].
  assert (E0 : (Byte.to_N b0 <? 128)%N = false) by (apply N.ltb_ge; lia).
  apply N.leb_le in H1. apply N.ltb_lt in H2.
  now rewrite E0, H3, H1, H2.
Qed.


Lemma utf8_decode_3 (b0 b1 b2 : byte) (r : bytes) :
  (224 <= Byte.to_N b0)%N -> (Byte.to_N b0 < 240)%N ->
  is_cont (Byte.to_N b1) = true -> is_cont (Byte.to_N b2) = true ->
  utf8_decode (b0 :: b1 :: b2 :: r)
  = let c := ((Byte.to_N b0 - 224) * 4096 + (Byte.to_N b1 - 128) * 64
              + (Byte.to_N b2 - 128))%N in
    if (c <? 2048)%N || is_surrogate c then None
    else option_map (cons c) (utf8_decode r).
Proof.
  intros H1 H2 H3 H4. cbn [utf8_decode].
  assert (E0 : (Byte.to_N b0 <? 128)%N = false) by (apply N.ltb_ge; lia).
  assert (E1 : (Byte.to_N b0 <? 224)%N = false) by (apply N.ltb_ge; lia).
  apply N.leb_le in H1. apply N.ltb_lt in H2.
  rewrite E0, H3, E1, andb_false_r, H4, H1, H2. reflexivity.
Qed.

Lemma utf8_decode_4 (b0 b1 b2 b3 : byte) (r : bytes) :
  (240 <= Byte.to_N b0)%N -> (Byte.to_N b0 < 245)%N ->
  is_cont (Byte.to_N b1) = true -> is_cont (Byte.to_N b2) = true ->
  is_cont (Byte.to_N b3) = true ->
  utf8_decode (b0 :: b1 :: b2 :: b3 :: r)
  = let c := ((Byte.to_N b0 - 240) * 262144 + (Byte.to_N b1 - 128) * 4096
              + (Byte.to_N b2 - 128) * 64 + (Byte.to_N b3 - 128))%N in
    if (c <? 65536)%N || (1114112 <=? c)%N then None
    else option_map (cons c) (utf8_decode r).
Proof.
  intros H1 H2 H3 H4 H5. cbn [utf8_decode].
  assert (E0 : (Byte.to_N b0 <? 128)%N = false) by (apply N.ltb_ge; lia).
  assert (E1 : (Byte.to_N b0 <? 224)%N = false) by (apply N.ltb_ge; lia).
  assert (E2 : (Byte.to_N b0 <? 240)%N = false) by (apply N.ltb_ge; lia).
  apply N.leb_le in H1. apply N.ltb_lt in H2.
  rewrite E0, H3, E1, andb_false_r, H4, E2, andb_false_r, H5, H1, H2.
  reflexivity.
Qed.

Lemma is_cont_low (n : N) : (n < 64)%N -> is_cont (128 + n) = true.
Proof.
  intros H. unfold is_cont. apply andb_true_iff. split.
  - apply N.leb_le. lia.
  - apply N.ltb_lt. lia.
Qed.

Lemma Some_eq {A} (a b : A) : Some a = Some b -> a = b.
Proof. intros H. now injection H. Qed.

Lemma utf8_decode_encode_char (c : N) (bc rest : bytes) :
  utf8_encode_char c = Some bc ->
  utf8_decode (bc ++ rest) = option_map (cons c) (utf8_decode rest).
Proof.
  unfold utf8_encode_char.
  destruct (c <? 128)%N eqn:E1.
  { intros H. apply Some_eq in H. subst bc. apply N.ltb_lt in E1. cbn [app].
    rewrite utf8_decode_1; rewrite byte_of_N_to_N by lia; [reflexivity | lia]. }
  apply N.ltb_ge in E1.
  replace (c / 4096)%N with (c / 64 / 64)%N
    by (rewrite N.Div0.div_div; reflexivity).
  replace (c / 262144)%N with (c / 64 / 64 / 64)%N
    by (rewrite !N.Div0.div_div; reflexivity).
  pose proof (N.mod_upper_bound c 64 ltac:(lia)) as M0.
  pose proof (N.div_mod c 64 ltac:(lia)) as D0.
  remember (c / 64)%N as q0 eqn:Hq0. remember (c mod 64)%N as m0 eqn:Hm0.
  clear Hq0 Hm0.
  destruct (c <? 2048)%N eqn:E2.
  { intros H. apply Some_eq in H. subst bc. apply N.ltb_lt in E2. cbn [app].
    rewrite utf8_decode_2; rewrite ?byte_of_N_to_N by lia;
      try lia; try (apply is_cont_low; lia).
    replace ((192 + q0 - 192) * 64 + (128 + m0 - 128))%N with c by lia.
    reflexivity. }
  apply N.ltb_ge in E2.
  pose proof (N.mod_upper_bound q0 64 ltac:(lia)) as M1.
  pose proof (N.div_mod q0 64 ltac:(lia)) as D1.
  remember (q0 / 64)%N as q1 eqn:Hq1. remember (q0 mod 64)%N as m1 eqn:Hm1.
  clear Hq1 Hm1.
  destruct (c <? 65536)%N eqn:E3.
  { destruct (is_surrogate c) eqn:Es; [discriminate|].
    intros H. apply Some_eq in H. subst bc. apply N.ltb_lt in E3. cbn [app].
    rewrite utf8_decode_3; rewrite ?byte_of_N_to_N by lia;
      try lia; try (apply is_cont_low; lia).
    cbv zeta.
    replace ((224 + q1 - 224) * 4096 + (128 + m1 - 128) * 64
             + (128 + m0 - 128))%N with c by lia.
    rewrite Es. replace (c <? 2048)%N with false by (symmetry; apply N.ltb_ge; lia).
    reflexivity. }
  apply N.ltb_ge in E3.
  pose proof (N.mod_upper_bound q1 64 ltac:(lia)) as M2.
  pose proof (N.div_mod q1 64 ltac:(lia)) as D2.
  remember (q1 / 64)%N as q2 eqn:Hq2. remember (q1 mod 64)%N as m2 eqn:Hm2.
  clear Hq2 Hm2.
  destruct (c <? 1114112)%N eqn:E4; [|discriminate].
  intros H. apply Some_eq in H. subst bc. apply N.ltb_lt in E4. cbn [app].
  rewrite utf8_decode_4; rewrite ?byte_of_N_to_N by lia;
    try lia; try (apply is_cont_low; lia).
  cbv zeta.
  replace ((240 + q2 - 240) * 262144 + (128 + m2 - 128) * 4096
           + (128 + m1 - 128) * 64 + (128 + m0 - 128))%N with c by lia.
  replace (c <? 65536)%N with false by (symmetry; apply N.ltb_ge; lia).
  replace (1114112 <=? c)%N with false by (symmetry; apply N.leb_gt; lia).
  reflexivity.
Qed.

Lemma utf8_decode_encode (s : str) (b : bytes) :
  utf8_encode s = Some b -> utf8_decode b = Some s.
Proof.
  revert b; induction s as [|c s IH]; intros b H.
  - injection H as <-. reflexivity.
  - cbn [utf8_encode] in H.
    destruct (utf8_encode_char c) as [bc|] eqn:Ec; [|discriminate H].
    destruct (utf8_encode s) as [bs|]; [|discriminate H].
    injection H as <-. rewrite (utf8_decode_encode_char c bc bs Ec).
    now rewrite (IH bs eq_refl).
Qed.

Lemma builtin_codec_inverts (ext : str -> Codec) (uno name text : str)
    (data : bytes) :
  builtin uno = true -> lookup uno ENCODINGS = Some name ->
  encode (lookup_codec ext name) text = Some data ->
  decode (lookup_codec ext name) data = Some text.
Proof.
  unfold builtin. cbn [mem]. rewrite orb_false_r. intros Hb Hl.
  repeat (apply orb_true_iff in Hb as [Hb|Hb]);
    apply str_eqb_eq in Hb; subst uno; vm_compute in Hl;
    apply Some_eq in Hl; subst name; cbn [lookup_codec str_eqb lit].
  - apply decode_encode_below. lia.
  - apply decode_encode_below. lia.
  - apply decode_encode_below. lia.
  - apply utf8_decode_encode.
Qed.

(** The bytes that [make_edi] emitted read back as the text it assembled
    whenever the sniffer finds in them the syntax identifier that [make_edi]
    used and that identifier names one of the codecs written out here. *)
Lemma read_content_builtin (ext : str -> Codec) (d : Delimiters) (de uno : str)
    (wn wc wu : bool) (segments : list segment) (data : bytes) :
  make_edi ext d de wn wc wu segments = Ok data ->
  find_uno de segments = Ok uno ->
  builtin uno = true ->
  sniff_encoding de data = Ok uno ->
  read_content ext de data = make_text d wn wc wu segments.
Proof.
  intros Hm Hf Hb Hs.
  destruct (make_edi_inv _ _ _ _ _ _ _ _ Hm) as (text & uno' & name & Ht & Hf' & Hl & He).
  rewrite Hf in Hf'. injection Hf' as <-.
  unfold read_content, decode_content. rewrite Hs. cbn [bind]. rewrite Hl.
  rewrite (builtin_codec_inverts ext uno name text data Hb Hl He).
  now rewrite Ht.
Qed.

(* ================================================================= *)
(** ** The wire round trips *)

(** C1, as the code has it.  Take a structural form that starts with the UNA
    segment of the delimiters in use and whose other segments have a
    recognised tag, at least one data element, at least one component in
    every data element and no component that ends with the release
    character; take delimiters that are pairwise distinct, with a terminator
    that is neither an uppercase letter nor a backslash, a release character
    other than the space and a line feed character that is not an uppercase
    letter.  If [make_edi] emits bytes for it and those bytes read back,
    under the sniffed encoding, as the text that was written, then
    [parse_edi] called with the same delimiters returns the original
    structure.  By [read_content_builtin] the bytes read back so whenever the
    sniffer finds the identifier that [make_edi] used and it is one of UNOA,
    UNOB, UNOC and UNOY. *)
Theorem C1_parse_make_edi :
  forall (ext : str -> Codec) (d : Delimiters) (de : str)
         (rest : list segment) (data : bytes),
    plain_delimiters d = true ->
    forallb (writable d) rest = true ->
    forallb filled rest = true ->
    make_edi ext d de false false true (una_segment d :: rest) = Ok data ->
    read_content ext de data
    = make_text d false false true (una_segment d :: rest) ->
    parse_edi ext d false de data = Ok (una_segment d :: rest).
Proof.
  intros ext d de rest data Hp Hw Hf Hm Hr.
  pose proof (writable_recognised d rest Hw) as Hrec.
  assert (Hpay : payload (una_segment d :: rest) = rest).
  { cbn [payload filter]. change (is_una (una_segment d)) with true.
    cbn [negb]. now apply payload_recognised. }
  rewrite (parse_edi_written ext d d de false (una_segment d :: rest) data).
  - rewrite Hpay. do 2 f_equal.
    rewrite <- (map_id rest) at 2. apply map_ext_in. intros s Hs.
    apply filled_normal. rewrite forallb_forall in Hf. now apply Hf.
  - now rewrite una_override_self.
  - rewrite Hpay. now apply writable_components.
  - exact Hm.
  - exact Hr.
Qed.

(** The docstring's interchange is an instance. *)
Lemma C1_parse_make_edi_witness :
  parse_edi no_code_pages default_delimiters false UNOY example_edi
  = Ok (una_segment default_delimiters :: example_segments).
Proof.
  apply (C1_parse_make_edi no_code_pages default_delimiters UNOY
           example_segments example_edi);
    vm_compute; reflexivity.
Defined.

Local Open Scope string_scope.

(** C1 as stated fails in four ways: the advice that [make_edi] writes by
    default comes back as a segment of its own; a component that ends with
    the release character takes the terminator with it, and the segment is
    lost; a segment without data elements and a data element without
    components come back holding one empty string. *)
Lemma C1_counterexample :
  round_trip no_code_pages default_delimiters UNOY [seg "BGM" [["220"]]]
  = Ok [una_segment default_delimiters; seg "BGM" [["220"]]]
  /\ round_trip no_code_pages default_delimiters UNOY [seg "BGM" [["220"]]]
     <> Ok [seg "BGM" [["220"]]]
  /\ round_trip no_code_pages default_delimiters UNOY
       [una_segment default_delimiters; seg "BGM" [["A?"]]]
     = Ok [una_segment default_delimiters]
  /\ round_trip no_code_pages default_delimiters UNOY
       [una_segment default_delimiters; seg "BGM" []]
     = Ok [una_segment default_delimiters; seg "BGM" [[""]]]
  /\ round_trip no_code_pages default_delimiters UNOY
       [una_segment default_delimiters; seg "BGM" [[]]]
     = Ok [una_segment default_delimiters; seg "BGM" [[""]]].
Proof.
  repeat split; try (vm_compute; reflexivity).
  vm_compute. discriminate.
Qed.

Local Close Scope string_scope.

(** C3, as the code has it.  For bytes that [make_edi] emitted with its
    default options from segments of which no component ends with the release
    character, and that read back as the text that was written, [parse_edi]
    succeeds and emitting its result reproduces the bytes. *)
Theorem C3_make_parse_make :
  forall (ext : str -> Codec) (segments : list segment) (data : bytes),
    make_edi ext default_delimiters UNOY false false true segments = Ok data ->
    forallb (components_ok RELEASE_CHAR) (payload segments) = true ->
    read_content ext UNOY data
    = make_text default_delimiters false false true segments ->
    exists segments',
      parse_edi ext default_delimiters false UNOY data = Ok segments'
      /\ make_edi ext default_delimiters UNOY false false true segments'
         = Ok data.
Proof.
  intros ext segments data Hm Hc Hr.
  exists (una_segment default_delimiters :: List.map normal (payload segments)).
  split.
  - apply parse_edi_written; try assumption. reflexivity.
  - destruct (make_edi_inv _ _ _ _ _ _ _ _ Hm) as (text & uno & name & Ht & Hf & _).
    destruct (make_text_inv _ _ _ _ _ _ Ht) as [_ He].
    rewrite (make_edi_normal ext default_delimiters default_delimiters UNOY uno
               segments He Hf).
    exact Hm.
Qed.

Lemma C3_make_parse_make_witness :
  exists segments',
    parse_edi no_code_pages default_delimiters false UNOY example_edi
    = Ok segments'
    /\ make_edi no_code_pages default_delimiters UNOY false false true segments'
       = Ok example_edi.
Proof.
  apply (C3_make_parse_make no_code_pages example_segments example_edi);
    vm_compute; reflexivity.
Defined.

Local Open Scope string_scope.

(** C3 as stated fails on a component that ends with the release character:
    the terminator after it is read as data, the segment never ends and is
    dropped, and the re-emitted bytes are the advice alone. *)
Lemma C3_counterexample :
  make_edi no_code_pages default_delimiters UNOY false false true
    [seg "BGM" [["A?"]]]
  = Ok (blit "UNA:+.? 'BGM+A?'")
  /\ parse_edi no_code_pages default_delimiters false UNOY
       (blit "UNA:+.? 'BGM+A?'")
     = Ok [una_segment default_delimiters]
  /\ make_edi no_code_pages default_delimiters UNOY false false true
       [una_segment default_delimiters]
     = Ok (blit "UNA:+.? '")
  /\ blit "UNA:+.? '" <> blit "UNA:+.? 'BGM+A?'".
Proof.
  repeat split; try (vm_compute; reflexivity).
  vm_compute. discriminate.
Qed.

Local Close Scope string_scope.

(** C5, as the code has it.  Let the delimiters [d1], together with the
    line-break characters [parse_edi] is called with, be pairwise distinct,
    with a terminator that is neither an uppercase letter nor a backslash, a
    release character other than the space and a line feed character that is
    not an uppercase letter; let no component end with the release character
    of [d1]; let the bytes emitted under [d1] read back as the text that was
    written.  Then [parse_edi] succeeds on them, and emitting its result
    under any [d2] gives what emitting the original segments under [d2]
    gives. *)
Theorem C5_delimiter_invariance :
  forall (ext : str -> Codec) (d1 d2 p : Delimiters) (de : str)
         (segments : list segment) (data : bytes),
    plain_delimiters (una_override d1 p) = true ->
    forallb (components_ok (release_char d1)) (payload segments) = true ->
    make_edi ext d1 de false false true segments = Ok data ->
    read_content ext de data = make_text d1 false false true segments ->
    exists segments',
      parse_edi ext p false de data = Ok segments'
      /\ make_edi ext d2 de false false true segments'
         = make_edi ext d2 de false false true segments.
Proof.
  intros ext d1 d2 p de segments data Hp Hc Hm Hr.
  exists (una_segment d1 :: List.map normal (payload segments)).
  split.
  - now apply parse_edi_written.
  - destruct (make_edi_inv _ _ _ _ _ _ _ _ Hm) as (text & uno & name & Ht & Hf & _).
    destruct (make_text_inv _ _ _ _ _ _ Ht) as [_ He].
    now apply (make_edi_normal ext d1 d2 de uno).
Qed.

Lemma C5_delimiter_invariance_witness :
  exists segments',
    parse_edi no_code_pages default_delimiters false UNOY example_edi
    = Ok segments'
    /\ make_edi no_code_pages bar_delimiters UNOY false false true segments'
       = make_edi no_code_pages bar_delimiters UNOY false false true
           example_segments.
Proof.
  apply (C5_delimiter_invariance no_code_pages default_delimiters
           bar_delimiters default_delimiters UNOY example_segments example_edi);
    vm_compute; reflexivity.
Defined.

Local Open Scope string_scope.

(** C5 as stated fails: a component that ends with the release character of
    the first record loses its segment on the way, and a first record whose
    terminator is a letter of the tags cannot be read back at all. *)
Lemma C5_counterexample :
  reemit no_code_pages default_delimiters bar_delimiters UNOY
    [seg "QTY" [["1"; "25?"]]]
  = Ok (blit "UNA*|,! ~")
  /\ make_edi no_code_pages bar_delimiters UNOY false false true
       [seg "QTY" [["1"; "25?"]]]
     = Ok (blit "UNA*|,! ~QTY|1*25?~")
  /\ reemit no_code_pages letter_delimiters default_delimiters UNOY
       [seg "BGM" [["1"]]]
     = Raise IndexError
  /\ make_edi no_code_pages default_delimiters UNOY false false true
       [seg "BGM" [["1"]]]
     = Ok (blit "UNA:+.? 'BGM+1'").
Proof. repeat split; vm_compute; reflexivity. Qed.

Local Close Scope string_scope.

(* ================================================================= *)
(** ** Escaping *)

Lemma unique_facts (d : Delimiters) :
  unique (delimiter_chars d) = true ->
  component_separator d <> dataelement_separator d
  /\ component_separator d <> release_char d
  /\ component_separator d <> segment_terminator d
  /\ dataelement_separator d <> release_char d
  /\ dataelement_separator d <> segment_terminator d
  /\ release_char d <> segment_terminator d.
Proof.
  destruct d as [cs ds dm rc st nl cr].
  unfold delimiter_chars.
  cbn [unique char_mem component_separator dataelement_separator decimal_mark
       release_char segment_terminator newline carriage_return].
  intros H.
  repeat rewrite andb_true_iff in H. repeat rewrite negb_true_iff in H.
  repeat rewrite orb_false_iff in H. repeat rewrite N.eqb_neq in H.
  intuition congruence.
Qed.

Lemma ins_two (rc x u v : char) :
  u <> x -> v <> x -> ins rc x [u; v] = [u; v].
Proof.
  intros Hu Hv. rewrite ins_cons_other by assumption.
  now rewrite ins_cons_other by assumption.
Qed.

Lemma ins_one_same (rc x : char) : ins rc x [x] = [rc; x].
Proof. unfold ins. cbn [flat_map app]. now rewrite N.eqb_refl. Qed.

Lemma ins_one_other (rc x c : char) : c <> x -> ins rc x [c] = [c].
Proof.
  intros H. unfold ins. cbn [flat_map app]. apply N.eqb_neq in H. now rewrite H.
Qed.

Lemma escape_one (d : Delimiters) (x : char) :
  unique (delimiter_chars d) = true ->
  ins (release_char d) (segment_terminator d)
    (ins (release_char d) (component_separator d)
       (ins (release_char d) (dataelement_separator d) [x]))
  = escape_char d x.
Proof.
  intros Hu. destruct (unique_facts d Hu) as (Hcd & Hcr & Hcs & Hdr & Hds & Hrs).
  unfold escape_char. cbn [char_mem].
  destruct (N.eq_dec x (dataelement_separator d)) as [->|Hxd].
  - rewrite N.eqb_refl, orb_true_r. cbn [orb].
    rewrite ins_one_same. rewrite ins_two by congruence.
    now rewrite ins_two by congruence.
  - rewrite ins_one_other by assumption.
    apply N.eqb_neq in Hxd. rewrite Hxd. cbn [orb].
    destruct (N.eq_dec x (component_separator d)) as [->|Hxc].
    + rewrite N.eqb_refl. cbn [orb]. rewrite ins_one_same.
      now rewrite ins_two by congruence.
    + rewrite ins_one_other by assumption.
      apply N.eqb_neq in Hxc. rewrite Hxc. cbn [orb].
      destruct (N.eq_dec x (segment_terminator d)) as [->|Hxs].
      * rewrite N.eqb_refl. apply ins_one_same.
      * rewrite ins_one_other by assumption.
        apply N.eqb_neq in Hxs. now rewrite Hxs.
Qed.

Lemma escape_component_chars (d : Delimiters) (c : str) :
  unique (delimiter_chars d) = true ->
  escape_component d c = flat_map (escape_char d) c.
Proof.
  intros Hu. rewrite escape_component_ins.
  induction c as [|x c IH]; [reflexivity|].
  cbn [flat_map]. rewrite <- IH, <- (escape_one d x Hu).
  change (x :: c) with ([x] ++ c). now rewrite !ins_app.
Qed.

Lemma escape_component_escaped (d : Delimiters) (c : str) (x : char) (b : bool) :
  unique (delimiter_chars d) = true ->
  In x [component_separator d; dataelement_separator d; segment_terminator d] ->
  escaped (release_char d) x b (escape_component d c) = true.
Proof.
  intros Hu Hx. destruct (unique_facts d Hu) as (Hcd & Hcr & Hcs & Hdr & Hds & Hrs).
  rewrite escape_component_ins.
  destruct Hx as [<-|[<-|[<-|[]]]].
  - rewrite escaped_ins_other by congruence. now apply escaped_ins_same.
  - rewrite !escaped_ins_other by congruence. now apply escaped_ins_same.
  - apply escaped_ins_same. congruence.
Qed.

Lemma unescape_escape_component (d : Delimiters) (c : str) :
  unique (delimiter_chars d) = true ->
  replace [release_char d; component_separator d] [component_separator d]
    (replace [release_char d; dataelement_separator d] [dataelement_separator d]
       (replace [release_char d; segment_terminator d] [segment_terminator d]
          (escape_component d c)))
  = c.
Proof.
  intros Hu. destruct (unique_facts d Hu) as (Hcd & Hcr & Hcs & Hdr & Hds & Hrs).
  rewrite !replace_delete by congruence. rewrite escape_component_ins.
  rewrite del_ins by congruence.
  rewrite del_ins_other by congruence.
  rewrite (del_ins _ (dataelement_separator d)) by congruence.
  now apply del_ins.
Qed.

(** A component of a segment is found at its place in the segment as it is
    read back. *)
Lemma normal_component (es : list (list str)) (d_i c_i : nat)
    (data_element : list str) (c : str) :
  nth_error es d_i = Some data_element ->
  nth_error data_element c_i = Some c ->
  nth_error (norm_elements es) d_i = Some data_element.
Proof.
  intros He Hc. destruct es as [|e es]; [now destruct d_i|].
  unfold norm_elements. rewrite nth_error_map, He. cbn [option_map].
  destruct data_element; [now destruct c_i | reflexivity].
Qed.

(** C2, as the code has it.  [make_edi] prefixes the release character to
    every component separator, data-element separator and segment terminator
    of a component and to nothing else, the release character included; so
    every one of these three characters in an emitted component has the
    release character on its left, and the three replacements of [parse_edi]
    take these release characters out again.  For a message written under
    delimiters that can be cut up again, of which no component ends with the
    release character and whose bytes decode to the text that was written,
    [parse_edi] returns the component as it was, at its place in its data
    element and its segment, one segment later for the UNA segment in
    front. *)
Theorem C2_escape_unescape :
  forall (d : Delimiters) (c : str),
    unique (delimiter_chars d) = true ->
    escape_component d c = flat_map (escape_char d) c
    /\ (forall x b,
          In x [component_separator d; dataelement_separator d;
                segment_terminator d] ->
          escaped (release_char d) x b (escape_component d c) = true)
    /\ replace [release_char d; component_separator d] [component_separator d]
         (replace [release_char d; dataelement_separator d]
            [dataelement_separator d]
            (replace [release_char d; segment_terminator d]
               [segment_terminator d] (escape_component d c)))
       = c
    /\ (forall (ext : str -> Codec) (p : Delimiters) (de : str) (warn : bool)
               (segments : list segment) (data : bytes)
               (s_i : nat) (segment : str) (b : body)
               (d_i : nat) (data_element : list str) (c_i : nat),
          plain_delimiters (una_override d p) = true ->
          forallb (components_ok (release_char d)) (payload segments) = true ->
          make_edi ext d de false false true segments = Ok data ->
          read_content ext de data = make_text d false false true segments ->
          nth_error (payload segments) s_i = Some (segment, b) ->
          nth_error (elements_of b) d_i = Some data_element ->
          nth_error data_element c_i = Some c ->
          exists segments' b' data_element',
            parse_edi ext p warn de data = Ok segments'
            /\ nth_error segments' (S s_i) = Some (segment, b')
            /\ nth_error (elements_of b') d_i = Some data_element'
            /\ nth_error data_element' c_i = Some c).
Proof.
  intros d c Hu. split; [|split; [|split]].
  - now apply escape_component_chars.
  - intros x b Hx. now apply escape_component_escaped.
  - now apply unescape_escape_component.
  - intros ext p de warn segments data s_i segment b d_i data_element c_i
           Hp Hok Hm Hr Hs He Hc.
    exists (una_segment d :: List.map normal (payload segments)),
           (Elements (norm_elements (elements_of b))), data_element.
    split; [now apply parse_edi_written|]. split; [|split].
    + cbn [nth_error]. rewrite nth_error_map, Hs. reflexivity.
    + cbn [elements_of]. now apply (normal_component _ _ c_i _ c).
    + exact Hc.
Qed.

(** A component that holds all three characters, in the second data element
    of its segment. *)
Lemma C2_escape_unescape_witness :
  escape_component default_delimiters (lit "PROGRAMMER'S 1+1:2")
  = lit "PROGRAMMER?'S 1?+1?:2"
  /\ exists segments' b' data_element',
       parse_edi no_code_pages default_delimiters false UNOY
         (blit "UNA:+.? 'FTX+AFM+PROGRAMMER?'S 1?+1?:2'")
       = Ok segments'
       /\ nth_error segments' 1 = Some (lit "FTX", b')
       /\ nth_error (elements_of b') 1 = Some data_element'
       /\ nth_error data_element' 0 = Some (lit "PROGRAMMER'S 1+1:2").
Proof.
  destruct (C2_escape_unescape default_delimiters (lit "PROGRAMMER'S 1+1:2"))
    as (H1 & _ & _ & H4).
  - vm_compute; reflexivity.
  - split.
    + rewrite H1. vm_compute; reflexivity.
    + apply (H4 no_code_pages default_delimiters UNOY false
               [(lit "FTX", Elements [[lit "AFM"]; [lit "PROGRAMMER'S 1+1:2"]])]
               (blit "UNA:+.? 'FTX+AFM+PROGRAMMER?'S 1?+1?:2'")
               0 (lit "FTX")
               (Elements [[lit "AFM"]; [lit "PROGRAMMER'S 1+1:2"]])
               1 [lit "PROGRAMMER'S 1+1:2"] 0);
        vm_compute; reflexivity.
Defined.

Local Open Scope string_scope.

(** C2 as stated fails for the fourth meta-character: a release character in
    a component is written as it is, not doubled, and at the end of a
    component it escapes the separator that follows. *)
Lemma C2_counterexample :
  escape_component default_delimiters (lit "A?") = lit "A?"
  /\ escape_component default_delimiters (lit "A?") <> lit "A??"
  /\ round_trip no_code_pages default_delimiters UNOY
       [una_segment default_delimiters; seg "FTX" [["A?"; "B"]]]
     = Ok [una_segment default_delimiters; seg "FTX" [["A:B"]]].
Proof.
  repeat split; try (vm_compute; reflexivity).
  vm_compute. discriminate.
Qed.

Local Close Scope string_scope.

(* ================================================================= *)
(** ** The encoding sniffer *)

(** An interchange that starts with its UNB segment is sniffed as if it had
    none: the position [0] that [index] returns is false in [if unb_index]. *)
Lemma sniff_encoding_at_start (de : str) (data : bytes) :
  bytes_startswith data (blit "UNB") = true ->
  sniff_encoding de data = Ok de.
Proof.
  intros H. unfold sniff_encoding.
  destruct data as [|b data]; [discriminate H|].
  cbn [bytes_index]. now rewrite H.
Qed.

(** C6 at the input on which the code departs from it: the bytes start with
    [UNB] and name UNOC, and the sniffer answers with the default UNOY; the
    same interchange behind a UNA segment is sniffed as UNOC. *)
Theorem C6_sniff_unb_at_start :
  sniff_encoding UNOY (blit "UNB+UNOC:3+SENDER+RECEIVER+20180630:1159+1'")
  = Ok UNOY
  /\ sniff_encoding UNOY
       (blit "UNA:+.? 'UNB+UNOC:3+SENDER+RECEIVER+20180630:1159+1'")
     = Ok (lit "UNOC").
Proof. split; vm_compute; reflexivity. Qed.

(* ================================================================= *)
(** ** Lines too short to hold a separator *)

Lemma enumerate_from_app {A} (i : nat) (l1 l2 : list A) :
  enumerate_from i (l1 ++ l2)
  = enumerate_from i l1 ++ enumerate_from (i + List.length l1) l2.
Proof.
  revert i; induction l1 as [|a l1 IH]; intros i.
  - cbn. now rewrite Nat.add_0_r.
  - cbn [app enumerate_from List.length]. rewrite IH.
    now rewrite Nat.add_succ_r.
Qed.

Lemma mapM_app_raise {A B} (f : A -> result B) (l1 l2 : list A) (a : A)
    (r : list B) (e : exn) :
  mapM f l1 = Ok r -> f a = Raise e -> mapM f (l1 ++ a :: l2) = Raise e.
Proof.
  revert r; induction l1 as [|x l1 IH]; intros r H1 H2.
  - cbn [app mapM]. now rewrite H2.
  - cbn [app mapM] in *. destruct (f x) as [y|e']; [|discriminate].
    cbn [bind] in *. destruct (mapM f l1) as [ys|e']; [|discriminate].
    now rewrite (IH ys eq_refl H2).
Qed.

Lemma parse_line_short (d : Delimiters) (i : nat) (line : str) :
  List.length line < 4 -> startswith line UNA = false ->
  parse_line d (i, line) = Raise IndexError.
Proof.
  intros Hl Hu. unfold parse_line. rewrite Hu.
  assert (E : nth_error line 3 = None) by (apply nth_error_None; lia).
  now rewrite E.
Qed.

(** C9, as the code has it.  When the tokenisation yields a line shorter
    than four characters that does not start with [UNA], and every line
    before it is accepted, [parse_edi] fails with the out-of-bounds index
    access of [line[3]], not with the syntax error that cites the segment
    index. *)
Theorem C9_short_line_index_error :
  forall (ext : str -> Codec) (p d : Delimiters) (warn : bool) (de : str)
         (data : bytes) (content : str) (pre post : list str) (line : str)
         (accepted : list segment),
    read_content ext de data = Ok content ->
    resolve_una p content = Ok d ->
    unique (delimiter_chars d) = true ->
    split_lines d content = Ok (pre ++ line :: post) ->
    List.length line < 4 ->
    startswith line UNA = false ->
    mapM (parse_line d) (enumerate pre) = Ok accepted ->
    parse_edi ext p warn de data = Raise IndexError.
Proof.
  intros ext p d warn de data content pre post line accepted
         Hr Hd Hu Hs Hl Hn Hpre.
  unfold parse_edi. rewrite Hr. cbn [bind].
  unfold parse_content. rewrite Hd. cbn [bind]. rewrite Hu, Hs. cbn [bind].
  unfold enumerate in *. rewrite enumerate_from_app. cbn [enumerate_from].
  apply (mapM_app_raise _ _ _ _ _ _ Hpre). now apply parse_line_short.
Qed.

Lemma C9_short_line_index_error_witness :
  parse_edi no_code_pages default_delimiters false UNOY (blit "BGM+220''")
  = Raise IndexError.
Proof.
  apply (C9_short_line_index_error no_code_pages default_delimiters
           default_delimiters false UNOY (blit "BGM+220''")
           (lit "BGM+220''") [lit "BGM+220"] [] []
           [(lit "BGM", Elements [[lit "220"]])]);
    try (vm_compute; reflexivity).
  vm_compute. lia.
Defined.

(** C9 as stated fails when an earlier line is rejected first: the
    tokenisation yields the two-character line [AB], and [parse_edi] raises
    the syntax error that cites segment 1. *)
Lemma C9_counterexample :
  split_lines default_delimiters (lit "BGM-1'AB'") = Ok [lit "BGM-1"; lit "AB"]
  /\ parse_edi no_code_pages default_delimiters false UNOY (blit "BGM-1'AB'")
     = Raise (SyntaxError (ExpectedSeparator 1 43%N 45%N))
  /\ parse_edi no_code_pages default_delimiters false UNOY (blit "BGM-1'AB'")
     <> Raise IndexError.
Proof.
  repeat split; try (vm_compute; reflexivity).
  vm_compute. discriminate.
Qed.

(* ================================================================= *)
(** ** The body of a UNA segment *)

(** C10.  The bytes [make_edi] produces do not depend on the body of a UNA
    segment at index 0: two segment lists that differ only there emit the
    same bytes, or fail alike, under every choice of the keyword
    arguments. *)
Theorem C10_una_body_ignored :
  forall (ext : str -> Codec) (d : Delimiters) (de : str)
         (with_newline with_carriage_return with_una : bool)
         (body1 body2 : body) (rest : list segment),
    make_edi ext d de with_newline with_carriage_return with_una
      ((UNA, body1) :: rest)
    = make_edi ext d de with_newline with_carriage_return with_una
        ((UNA, body2) :: rest).
Proof.
  intros. unfold make_edi, make_text, enumerate.
  cbn [enumerate_from mapM segment_strings List.length find_uno].
  reflexivity.
Qed.

(* ================================================================= *)
(** ** The XML tree *)

Lemma map_enumerate_from {A B} (g : A -> B) (f : nat * A -> B) (i : nat)
    (l : list A) :
  (forall j a, f (j, a) = g a) ->
  List.map f (enumerate_from i l) = List.map g l.
Proof.
  intros H. revert i; induction l as [|a l IH]; intros i; [reflexivity|].
  cbn [enumerate_from List.map]. now rewrite H, IH.
Qed.

Lemma component_value_xml (segment : str) (d_i c_i : nat) (c : str) :
  component_value (component_xml segment d_i (c_i, c)) = c.
Proof. now destruct c. Qed.

Lemma data_element_values (segment : str) (d_i : nat) (e : list str) :
  List.map component_value (children (data_element_xml segment (d_i, e))) = e.
Proof.
  cbn [data_element_xml children]. unfold enumerate. rewrite map_map.
  rewrite (map_enumerate_from (fun c => c)); [apply map_id|].
  intros j a. apply component_value_xml.
Qed.

Lemma parse_segment_xml (i : nat) (s : segment) :
  valid_from i [s] = true ->
  exists element,
    segment_xml (i, s) = Ok element /\ parse_element (i, element) = Ok s.
Proof.
  destruct s as [t b]. cbn [valid_from]. rewrite andb_true_r.
  unfold segment_xml, parse_element.
  destruct (str_eqb t UNA) eqn:Eu.
  - intros H. apply andb_true_iff in H as [Hi Hb].
    destruct b as [chars|es]; [|discriminate Hb].
    rewrite Hi. cbn [join_body bind]. eexists. split; [reflexivity|].
    cbn [tag text]. rewrite str_eqb_refl.
    apply str_eqb_eq in Eu. now subst.
  - intros Hb. destruct b as [chars|es]; [discriminate Hb|].
    eexists. split; [reflexivity|]. cbn [tag children]. rewrite Eu.
    do 3 f_equal. cbn [elements_of]. unfold enumerate. rewrite map_map.
    rewrite (map_enumerate_from (fun e => e)); [apply map_id|].
    intros j a. apply data_element_values.
Qed.

Lemma parse_xml_elements (i : nat) (segments : list segment) :
  valid_from i segments = true ->
  exists elements,
    mapM segment_xml (enumerate_from i segments) = Ok elements
    /\ mapM parse_element (enumerate_from i elements) = Ok segments.
Proof.
  revert i; induction segments as [|s rest IH]; intros i H.
  - exists []. split; reflexivity.
  - assert (H1 : valid_from i [s] = true /\ valid_from (S i) rest = true).
    { destruct s as [t b]. cbn [valid_from] in *.
      apply andb_true_iff in H as [Ha Hb]. now rewrite Ha, Hb. }
    destruct H1 as [Hs Hr].
    destruct (parse_segment_xml i s Hs) as (el & E1 & E2).
    destruct (IH (S i) Hr) as (els & E3 & E4).
    exists (el :: els). cbn [enumerate_from mapM].
    rewrite E1, E2. cbn [bind]. rewrite E3, E4. split; reflexivity.
Qed.

(** C4.  On every valid structural form — a UNA segment, if any, at index 0
    and holding a list of characters, every other segment holding data
    elements of components, empty components included — [make_xml] returns
    a tree and [parse_xml] maps that tree back to the structure; an empty
    component becomes an element without text and comes back as the empty
    string. *)
Theorem C4_parse_make_xml :
  forall (segments : list segment) (root_tag : str),
    valid segments = true ->
    exists root,
      make_xml segments root_tag = Ok root
      /\ parse_xml root = Ok segments
      /\ (forall segment d_i c_i,
            text (component_xml segment d_i (c_i, [])) = None
            /\ component_value (component_xml segment d_i (c_i, [])) = []).
Proof.
  intros segments root_tag H.
  destruct (parse_xml_elements 0 segments H) as (els & E1 & E2).
  exists (mkElement root_tag [] None els). unfold make_xml, parse_xml, enumerate.
  rewrite E1. cbn [bind children]. repeat split. exact E2.
Qed.

Local Open Scope string_scope.

Lemma C4_parse_make_xml_witness :
  exists root,
    make_xml (una_segment default_delimiters
              :: seg "NAD" [["BY"]; ["31-424-2022"; ""; "16"]]
              :: example_segments) (lit "EDIFACT")
    = Ok root
    /\ parse_xml root
       = Ok (una_segment default_delimiters
             :: seg "NAD" [["BY"]; ["31-424-2022"; ""; "16"]]
             :: example_segments).
Proof.
  destruct (C4_parse_make_xml
              (una_segment default_delimiters
               :: seg "NAD" [["BY"]; ["31-424-2022"; ""; "16"]]
               :: example_segments) (lit "EDIFACT"))
    as (root & H1 & H2 & _).
  - vm_compute; reflexivity.
  - exists root. split; assumption.
Defined.

Local Close Scope string_scope.

(* ================================================================= *)
(** ** Facts about the loops *)

Lemma mapM_nth {A B} (f : A -> result B) (l : list A) (rs : list B)
    (i : nat) (a : A) :
  mapM f l = Ok rs -> nth_error l i = Some a ->
  exists b, f a = Ok b /\ nth_error rs i = Some b.
Proof.
  revert rs i; induction l as [|x l IH]; intros rs i H Hn.
  - destruct i; discriminate Hn.
  - cbn [mapM] in H. destruct (f x) as [y|e] eqn:Ex; [|discriminate H].
    cbn [bind] in H. destruct (mapM f l) as [ys|e] eqn:El; [|discriminate H].
    cbn [bind] in H. injection H as <-.
    destruct i as [|i].
    + cbn in Hn. injection Hn as ->. exists y. now split.
    + cbn in Hn. destruct (IH ys i eq_refl Hn) as (b & Hb & Hi).
      exists b. now split.
Qed.


Lemma nth_error_enumerate_from {A} (k i : nat) (l : list A) (a : A) :
  nth_error l i = Some a -> nth_error (enumerate_from k l) i = Some (k + i, a).
Proof.
  revert k i; induction l as [|x l IH]; intros k i H.
  - destruct i; discriminate H.
  - destruct i as [|i].
    + cbn in *. injection H as ->. now rewrite Nat.add_0_r.
    + cbn in *. rewrite (IH (S k) i H). now rewrite Nat.add_succ_r.
Qed.


Lemma nth_error_combine {A B} (l1 : list A) (l2 : list B) (i : nat) (a : A) (b : B) :
  nth_error l1 i = Some a -> nth_error l2 i = Some b ->
  nth_error (combine l1 l2) i = Some (a, b).
Proof.
  revert l2 i; induction l1 as [|x l1 IH]; intros l2 i H1 H2.
  - destruct i; discriminate H1.
  - destruct l2 as [|y l2]; [destruct i; discriminate H2|].
    destruct i as [|i]; cbn in *.
    + now injection H1 as ->; injection H2 as ->.
    + now apply IH.
Qed.

Lemma incl_concat_nth {A} (ls : list (list A)) (i : nat) (l : list A) :
  nth_error ls i = Some l -> incl l (List.concat ls).
Proof.
  intros H x Hx. apply in_concat. exists l. split; [|assumption].
  now apply nth_error_In in H.
Qed.

Lemma occurs_join (x : str) (lines : list str) :
  In x lines -> occurs x (join [NEWLINE] lines).
Proof.
  induction lines as [|l lines IH]; intros H; [contradiction|].
  destruct lines as [|l' lines].
  - destruct H as [->|[]]. exists [], []. cbn [join app]. now rewrite app_nil_r.
  - change (join [NEWLINE] (l :: l' :: lines))
      with (l ++ [NEWLINE] ++ join [NEWLINE] (l' :: lines)).
    destruct H as [->|H].
    + exists [], ([NEWLINE] ++ join [NEWLINE] (l' :: lines)). reflexivity.
    + destruct (IH H) as (a & b & E). rewrite E.
      exists (l ++ [NEWLINE] ++ a), b. now rewrite <- !app_assoc.
Qed.

Section ReportLines.

Variable ext : str -> Codec.
Variable u : Unicode.
Variable sd : SD.
Variable ed : ED.

Lemma segment_lines_of_report (segments : list segment) (lines : list str)
    (s_i : nat) (s : segment) :
  report_lines ext u segments sd ed = Ok lines ->
  nth_error segments s_i = Some s ->
  exists ls, segment_lines ext u sd ed (s_i, s) = Ok ls /\ incl ls lines.
Proof.
  unfold report_lines. intros H Hn.
  destruct (mapM (segment_lines ext u sd ed) (enumerate segments))
    as [lss|e] eqn:E; [|discriminate H].
  cbn [bind] in H. injection H as <-.
  apply (nth_error_enumerate_from 0) in Hn.
  destruct (mapM_nth _ _ _ _ _ E Hn) as (ls & Hls & Hi).
  exists ls. split; [exact Hls|]. now apply incl_concat_nth with s_i.
Qed.

Lemma element_lines_of_segment (s_i : nat) (segment : str) (b : body)
    (entry : SegmentEntry) (ls : list str) (i_d : nat) (data_element : list str) :
  segment_lines ext u sd ed (s_i, (segment, b)) = Ok ls ->
  lookup segment sd = Some entry ->
  nth_error (elements_of b) i_d = Some data_element ->
  exists els,
    element_lines u ed segment (sd_table entry) (i_d, data_element) = Ok els
    /\ incl els ls.
Proof.
  unfold segment_lines. intros H Hl Hn. rewrite Hl in H.
  destruct (edi_line ext (segment, b)) as [line|e]; [|discriminate H].
  cbn [bind] in H.
  destruct (mapM (element_lines u ed segment (sd_table entry))
              (enumerate (elements_of b))) as [lss|e] eqn:E; [|discriminate H].
  cbn [bind] in H. injection H as <-.
  apply (nth_error_enumerate_from 0) in Hn.
  destruct (mapM_nth _ _ _ _ _ E Hn) as (els & Hels & Hi).
  exists els. split; [exact Hels|].
  intros x Hx. cbn [app In]. do 3 right. apply in_or_app. left.
  now apply (incl_concat_nth _ _ _ Hi).
Qed.

Lemma component_lines_of_element (segment : str) (table : list Row)
    (i_d : nat) (data_element : list str) (els : list str) (cd : Row)
    (rows : list Row) (i_r : nat) (r : Row) (component : str) :
  element_lines u ed segment table (i_d, data_element) = Ok els ->
  located_rows table i_d = Ok (cd, rows) ->
  nth_error rows i_r = Some r ->
  nth_error data_element i_r = Some component ->
  exists cls,
    component_lines u ed segment cd (r, component) = Ok cls /\ incl cls els.
Proof.
  unfold element_lines. intros H Hl Hr Hc. rewrite Hl in H. cbn [bind] in H.
  destruct (mapM (component_lines u ed segment cd) (combine rows data_element))
    as [lss|e] eqn:E; [|discriminate H].
  cbn [bind] in H. injection H as <-.
  pose proof (nth_error_combine _ _ _ _ _ Hr Hc) as Hn.
  destruct (mapM_nth _ _ _ _ _ E Hn) as (cls & Hcls & Hi).
  exists cls. split; [exact Hcls|].
  intros x Hx. apply in_or_app. right. now apply (incl_concat_nth _ _ _ Hi).
Qed.

(** The lines of a component are lines of the report. *)
Lemma component_lines_of_report (segments : list segment) (lines : list str)
    (s_i : nat) (segment : str) (b : body) (entry : SegmentEntry)
    (i_d : nat) (data_element : list str) (cd : Row) (rows : list Row)
    (i_r : nat) (r : Row) (component : str) :
  report_lines ext u segments sd ed = Ok lines ->
  nth_error segments s_i = Some (segment, b) ->
  lookup segment sd = Some entry ->
  nth_error (elements_of b) i_d = Some data_element ->
  located_rows (sd_table entry) i_d = Ok (cd, rows) ->
  nth_error rows i_r = Some r ->
  nth_error data_element i_r = Some component ->
  exists cls,
    component_lines u ed segment cd (r, component) = Ok cls /\ incl cls lines.
Proof.
  intros H Hs Hl Hd Hloc Hr Hc.
  destruct (segment_lines_of_report _ _ _ _ H Hs) as (ls & H1 & I1).
  destruct (element_lines_of_segment _ _ _ _ _ _ _ H1 Hl Hd) as (els & H2 & I2).
  destruct (component_lines_of_element _ _ _ _ _ _ _ _ _ _ H2 Hloc Hr Hc)
    as (cls & H3 & I3).
  exists cls. split; [exact H3|].
  intros x Hx. apply I1, I2, I3, Hx.
Qed.

End ReportLines.

(* ================================================================= *)
(** ** Missing mandatory components *)

(** C7, as the code has it.  Take a segment of the dictionary, a data element
    of it whose row, found by position, has a representation (it stands
    alone and heads no composite), a row paired with an empty component of
    that data element and marked [M].  Then the text that [report] returns
    contains the missing-mandatory line for the code of that row and the
    segment. *)
Theorem C7_missing_mandatory_reported :
  forall (ext : str -> Codec) (u : Unicode) (segments : list segment)
         (sd : SD) (ed : ED) (text : str)
         (s_i : nat) (segment : str) (b : body) (entry : SegmentEntry)
         (i_d : nat) (data_element : list str) (cd : Row) (rows : list Row)
         (i_r : nat) (r : Row),
    report ext u segments sd ed = Ok text ->
    nth_error segments s_i = Some (segment, b) ->
    lookup segment sd = Some entry ->
    nth_error (elements_of b) i_d = Some data_element ->
    located_rows (sd_table entry) i_d = Ok (cd, rows) ->
    row_representation cd <> None ->
    nth_error rows i_r = Some r ->
    nth_error data_element i_r = Some [] ->
    row_mc r = lit "M" ->
    occurs (missing_mandatory_line (row_code r) segment) text.
Proof.
  intros ext u segments sd ed text s_i segment b entry i_d data_element cd rows
         i_r r H Hs Hl Hd Hloc Hcd Hr Hc Hm.
  unfold report in H.
  destruct (report_lines ext u segments sd ed) as [lines|e] eqn:E;
    [|discriminate H].
  cbn [bind] in H. injection H as <-.
  apply occurs_join.
  destruct (component_lines_of_report _ _ _ _ _ _ _ _ _ _ _ _ _ _ _ _ _
              E Hs Hl Hd Hloc Hr Hc) as (cls & Hcls & Hin).
  apply Hin. unfold component_lines in Hcls.
  cbn [code_lookup nonempty bind negb andb app] in Hcls.
  rewrite Hm, str_eqb_refl in Hcls.
  destruct (row_representation cd); [|congruence].
  cbn [is_none negb] in Hcls. injection Hcls as <-.
  right. now left.
Qed.

Local Open Scope string_scope.

Lemma C7_missing_mandatory_reported_witness :
  exists text,
    report no_code_pages ascii_classes
      [seg "LIN" [[""]; ["1"]; ["0764569104"; "IB"]]] example_sd example_ed
    = Ok text
    /\ occurs (missing_mandatory_line (lit "1082") (lit "LIN")) text.
Proof.
  destruct (report no_code_pages ascii_classes
              [seg "LIN" [[""]; ["1"]; ["0764569104"; "IB"]]]
              example_sd example_ed) as [text|e] eqn:E;
    [|vm_compute in E; discriminate E].
  exists text. split; [reflexivity|].
  apply (C7_missing_mandatory_reported no_code_pages ascii_classes
           [seg "LIN" [[""]; ["1"]; ["0764569104"; "IB"]]]
           example_sd example_ed text
           0 (lit "LIN")
           (Elements [[lit ""]; [lit "1"]; [lit "0764569104"; lit "IB"]])
           lin_entry 0 [lit ""]
           (row (Some "010") "1082" "LINE ITEM IDENTIFIER" (Some "an..6") "M" "1")
           lin_table 0
           (row (Some "010") "1082" "LINE ITEM IDENTIFIER" (Some "an..6") "M" "1"));
    try exact E; try (vm_compute; reflexivity).
  vm_compute. discriminate.
Defined.

(** C7 as stated fails inside a composite: the item identifier 7140 is
    marked [M] and its component is empty, and the report has no
    missing-mandatory line, because the row found for the data element, C212,
    has no representation. *)
Lemma C7_counterexample :
  located_rows lin_table 2
  = Ok (row (Some "030") "C212" "ITEM NUMBER IDENTIFICATION" None "C" "1",
        skipn 3 lin_table)
  /\ nth_error (skipn 3 lin_table) 0
     = Some (row None "7140" "Item identifier" (Some "an..35") "M" "")
  /\ report no_code_pages ascii_classes
       [seg "LIN" [["1"]; ["1"]; [""; "IB"]]] example_sd example_ed
     = Ok (join [NEWLINE] composite_report_lines)
  /\ ~ In (missing_mandatory_line (lit "7140") (lit "LIN"))
         composite_report_lines.
Proof.
  repeat split; try (vm_compute; reflexivity).
  vm_compute. intros F.
  repeat (destruct F as [F|F]; [discriminate F|]). exact F.
Qed.

Local Close Scope string_scope.

(* ================================================================= *)
(** ** Dictionaries that cover a message *)






(* ================================================================= *)
(** ** Dictionary mismatches *)


Lemma nonempty_true (s : str) : s <> [] -> nonempty s = true.
Proof. destruct s; [congruence | reflexivity]. Qed.





Local Open Scope string_scope.



Local Close Scope string_scope.

(* ================================================================= *)
(** ** More facts about the loops *)

Lemma mapM_cons_inv {A B} (f : A -> result B) (a : A) (l : list A) (rs : list B) :
  mapM f (a :: l) = Ok rs ->
  exists b bs, f a = Ok b /\ mapM f l = Ok bs /\ rs = b :: bs.
Proof.
  cbn [mapM]. destruct (f a) as [b|e]; cbn [bind]; [|discriminate].
  destruct (mapM f l) as [bs|e]; cbn [bind]; [|discriminate].
  intros H. injection H as <-. now exists b, bs.
Qed.

Lemma mapM_raise_In {A B} (f : A -> result B) (l : list A) (e : exn) :
  mapM f l = Raise e -> exists a, In a l /\ f a = Raise e.
Proof.
  induction l as [|a l IH]; cbn [mapM]; [discriminate|].
  destruct (f a) as [b|e'] eqn:E; cbn [bind].
  - destruct (mapM f l) as [bs|e'']; cbn [bind]; [discriminate|].
    intros H. injection H as ->. destruct (IH eq_refl) as (a' & Hin & Ha').
    exists a'. split; [now right | exact Ha'].
  - intros H. injection H as ->. exists a. split; [now left | exact E].
Qed.

Lemma mapM_map_eq {A B C} (f : A -> result B) (g : B -> C) (h : A -> C)
    (l : list A) (rs : list B) :
  mapM f l = Ok rs ->
  (forall a b, In a l -> f a = Ok b -> g b = h a) ->
  List.map g rs = List.map h l.
Proof.
  revert rs; induction l as [|a l IH]; intros rs H Hf.
  - cbn in H. injection H as <-. reflexivity.
  - apply mapM_cons_inv in H. destruct H as (b & bs & Hb & Hbs & ->).
    cbn [List.map]. f_equal.
    + apply Hf; [now left | exact Hb].
    + apply IH; [exact Hbs|]. intros a' b' Hin. apply Hf. now right.
Qed.

(* ================================================================= *)
(** ** The decoding fallback *)

Lemma decode_latin1_total (data : bytes) :
  exists content, decode latin1_codec data = Some content.
Proof.
  cbn [decode latin1_codec]. induction data as [|x data [c IH]]; cbn [decode_below].
  - now exists [].
  - pose proof (Byte.to_N_bounded x) as Hb.
    replace (Byte.to_N x <? 256)%N with true by (symmetry; apply N.ltb_lt; lia).
    rewrite IH. cbn [option_map]. eauto.
Qed.

Lemma decode_fallback_latin1 (ext : str -> Codec) (uno : str) (data : bytes)
    (pre post : list (str * str)) :
  str_eqb (lit "UNOC") uno = false ->
  exists content,
    decode_fallback ext uno data (pre ++ (lit "UNOC", lit "iso8859-1") :: post)
    = Ok content.
Proof.
  intros Hc. induction pre as [|[encoding name] pre IH]; cbn [app decode_fallback].
  - rewrite Hc. change (lookup_codec ext (lit "iso8859-1")) with latin1_codec.
    destruct (decode_latin1_total data) as [c ->]. eauto.
  - destruct (str_eqb encoding uno); [exact IH|].
    destruct (decode (lookup_codec ext name) data); eauto.
Qed.

Lemma decode_content_total (ext : str -> Codec) (uno : str) (data : bytes) :
  lookup uno ENCODINGS <> None ->
  exists content, decode_content ext uno data = Ok content.
Proof.
  intros Hk. unfold decode_content.
  destruct (lookup uno ENCODINGS) as [name|] eqn:E; [|congruence].
  destruct (decode (lookup_codec ext name) data) as [c|] eqn:D; [eauto|].
  destruct (str_eqb (lit "UNOC") uno) eqn:Hc.
  - apply str_eqb_eq in Hc. subst uno. vm_compute in E. apply Some_eq in E.
    subst name. change (lookup_codec ext _) with latin1_codec in D.
    destruct (decode_latin1_total data) as [c Hl]. congruence.
  - change ENCODINGS
      with (firstn 2 ENCODINGS ++ (lit "UNOC", lit "iso8859-1") :: skipn 3 ENCODINGS).
    now apply decode_fallback_latin1.
Qed.

Lemma parse_line_raises (d : Delimiters) (il : nat * str) (e : exn) :
  parse_line d il = Raise e ->
  e = AssertionError \/ e = IndexError \/ exists m, e = SyntaxError m.
Proof.
  destruct il as [i line]. unfold parse_line.
  destruct (startswith line UNA).
  - destruct (i =? 0); [discriminate|]. intros H. injection H as <-. now left.
  - destruct (nth_error line 3) as [c|].
    + destruct (N.eqb c (dataelement_separator d)).
      * destruct (mem (firstn 3 line) SEGMENTS); [discriminate|].
        intros H. injection H as <-. right; right; eauto.
      * intros H. injection H as <-. right; right; eauto.
    + intros H. injection H as <-. right; now left.
Qed.

(** What follows the decoding raises no exception of class [UnicodeError]. *)
Lemma parse_content_raises (p : Delimiters) (content : str) (e : exn) :
  parse_content p content = Raise e -> is_unicode_error e = false.
Proof.
  unfold parse_content, resolve_una.
  destruct (startswith content UNA).
  - destruct (firstn 6 (skipn 3 content)) as [|a [|b [|c [|x [|y [|z [|w l]]]]]]];
      cbn [bind]; try (intros H; injection H as <-; reflexivity).
    match goal with |- context [unique ?l] => destruct (unique l) end;
      [|intros H; injection H as <-; reflexivity].
    unfold split_lines, re_sub_breaks. cbn [segment_terminator].
    destruct (N.eqb z backslash); cbn [bind];
      [intros H; injection H as <-; reflexivity|].
    intros H. apply mapM_raise_In in H. destruct H as (il & _ & H).
    apply parse_line_raises in H. destruct H as [-> | [-> | [m ->]]]; reflexivity.
  - cbn [bind]. destruct (unique (delimiter_chars p));
      [|intros H; injection H as <-; reflexivity].
    unfold split_lines, re_sub_breaks.
    destruct (N.eqb (segment_terminator p) backslash); cbn [bind];
      [intros H; injection H as <-; reflexivity|].
    intros H. apply mapM_raise_In in H. destruct H as (il & _ & H).
    apply parse_line_raises in H. destruct H as [-> | [-> | [m ->]]]; reflexivity.
Qed.

(** The sniffer raises the [ValueError] of an absent [UNO] or the
    [UnicodeDecodeError] of four bytes that are not ASCII. *)
Lemma sniff_encoding_raises (de : str) (data : bytes) (e : exn) :
  sniff_encoding de data = Raise e -> e = ValueError \/ e = UnicodeDecodeError.
Proof.
  unfold sniff_encoding. destruct (truthy _); [|discriminate].
  destruct (bytes_index _ (blit "UNO")); [|intros H; injection H as <-; now left].
  destruct (decode ascii_codec _); [discriminate|].
  intros H. injection H as <-. now right.
Qed.

(** X1.  The [raise UnicodeError] that ends the decoding fallback is never
    reached: for every syntax identifier of [ENCODINGS] the decoding stage
    returns a text, because the loop over [ENCODINGS] reaches ISO-8859-1,
    which decodes every byte string.  An exception of class [UnicodeError]
    does escape from [parse_edi], but from one place only: it is the
    [UnicodeDecodeError] of the sniffer, whose [decode('ascii')] of the four
    bytes at the first [UNO] after [UNB] stands outside every [try].  (The
    warnings of [warn_invalid_characters] are taken to be printed, as in
    [read_content].) *)
Theorem parse_edi_unicode_error_from_sniffer :
  forall (ext : str -> Codec) (p : Delimiters) (warn : bool) (de : str)
         (data : bytes),
    (forall uno,
       lookup uno ENCODINGS <> None ->
       exists content, decode_content ext uno data = Ok content)
    /\ (forall e,
          parse_edi ext p warn de data = Raise e ->
          is_unicode_error e = true ->
          e = UnicodeDecodeError
          /\ sniff_encoding de data = Raise UnicodeDecodeError).
Proof.
  intros ext p warn de data. split.
  - intros uno Hk. now apply decode_content_total.
  - intros e. unfold parse_edi, read_content.
    destruct (sniff_encoding de data) as [uno|e0] eqn:Hs; cbn [bind].
    + destruct (lookup uno ENCODINGS) as [name|] eqn:Hl.
      * destruct (decode_content_total ext uno data) as [content ->];
          [congruence|].
        cbn [bind]. intros H He. apply parse_content_raises in H. congruence.
      * unfold decode_content. rewrite Hl. cbn [bind].
        intros H He. injection H as <-. discriminate He.
    + intros H He. injection H as <-.
      destruct (sniff_encoding_raises de data e0 Hs) as [-> | ->];
        [discriminate He | now split].
Qed.

(** Four bytes after [UNO] of which one is not ASCII: the exception of the
    sniffer escapes. *)
Lemma parse_edi_unicode_error_from_sniffer_witness :
  parse_edi no_code_pages default_delimiters false UNOY
    (blit "xUNB+UNO" ++ [xe9] ++ blit ":3'")
  = Raise UnicodeDecodeError
  /\ sniff_encoding UNOY (blit "xUNB+UNO" ++ [xe9] ++ blit ":3'")
     = Raise UnicodeDecodeError.
Proof.
  split; [vm_compute; reflexivity|].
  destruct (proj2 (parse_edi_unicode_error_from_sniffer no_code_pages
                     default_delimiters false UNOY
                     (blit "xUNB+UNO" ++ [xe9] ++ blit ":3'"))
              UnicodeDecodeError) as [_ H].
  - vm_compute; reflexivity.
  - reflexivity.
  - exact H.
Defined.

(* ================================================================= *)
(** ** The shape of what parse_edi returns *)

Lemma re_split_from_nonempty (rc x : char) (prev : option char) (s : str) :
  re_split_from rc x prev s <> [].
Proof.
  revert prev; induction s as [|c s IH]; intros prev; cbn [re_split_from].
  - discriminate.
  - destruct (N.eqb c x && negb (is_prev rc prev)); [discriminate|].
    destruct (re_split_from rc x (Some c) s); discriminate.
Qed.

Lemma filled_map {A} (t : str) (F : A -> list str) (L : list A) :
  L <> [] -> (forall x, F x <> []) -> filled (t, Elements (List.map F L)) = true.
Proof.
  intros HL HF. unfold filled. cbn [snd].
  assert (Hall : forall l, forallb (fun e : list str =>
                       match e with [] => false | _ :: _ => true end)
                     (List.map F l) = true).
  { induction l as [|x l IH]; cbn [List.map forallb]; [reflexivity|].
    rewrite IH. specialize (HF x). destruct (F x); [congruence | reflexivity]. }
  destruct L as [|a L]; [congruence|].
  specialize (Hall (a :: L)). cbn [List.map] in *. exact Hall.
Qed.

Lemma parse_line_shape (d : Delimiters) (i : nat) (line : str) (s : segment) :
  parse_line d (i, line) = Ok s ->
  (s = una_segment d /\ i = 0)
  \/ (mem (fst s) SEGMENTS = true /\ filled s = true).
Proof.
  unfold parse_line. destruct (startswith line UNA).
  - destruct (i =? 0) eqn:Hi; [|discriminate]. intros H. injection H as <-.
    left. split; [reflexivity | now apply Nat.eqb_eq].
  - destruct (nth_error line 3) as [c|]; [|discriminate].
    destruct (N.eqb c (dataelement_separator d)); [|discriminate].
    destruct (mem (firstn 3 line) SEGMENTS) eqn:Hm; [|discriminate].
    intros H. injection H as <-. right. split; [exact Hm|].
    apply filled_map.
    + unfold re_split. intros E. apply map_eq_nil in E.
      now apply re_split_from_nonempty in E.
    + intros e E. apply map_eq_nil in E. now apply re_split_from_nonempty in E.
Qed.

Lemma filled_elements (s : segment) :
  filled s = true -> exists es, snd s = Elements es.
Proof.
  destruct s as [t [cs|es]]; unfold filled; cbn [snd]; [discriminate | eauto].
Qed.

Lemma parse_lines_shape (d : Delimiters) (i : nat) (lines : list str)
    (segs : list segment) :
  mapM (parse_line d) (enumerate_from i lines) = Ok segs ->
  valid_from i segs = true /\ forallb parsed_segment segs = true
  /\ emittable i segs = true.
Proof.
  revert i segs; induction lines as [|line lines IH]; intros i segs H.
  - cbn in H. injection H as <-. now cbn.
  - cbn [enumerate_from] in H. apply mapM_cons_inv in H.
    destruct H as (s & ss & Hs & Hss & ->).
    destruct (IH _ _ Hss) as (Hv & Hp & He).
    apply parse_line_shape in Hs. destruct Hs as [[-> ->]|[Hm Hf]].
    + split; [|split].
      * cbn [valid_from una_segment]. change (str_eqb UNA UNA) with true.
        cbn [Nat.eqb andb]. exact Hv.
      * cbn [forallb]. rewrite Hp. reflexivity.
      * cbn [emittable]. rewrite He. reflexivity.
    + pose proof (mem_not_una s Hm) as Hu.
      destruct (filled_elements s Hf) as [es Hes].
      destruct s as [t b]. cbn [snd] in Hes. subst b.
      unfold is_una in Hu. cbn [fst] in Hu, Hm. split; [|split].
      * cbn [valid_from]. now rewrite Hu, Hv.
      * cbn [forallb]. unfold parsed_segment at 1. unfold is_una. cbn [fst].
        now rewrite Hu, Hm, Hf, Hp.
      * cbn [emittable]. unfold is_una. cbn [fst]. now rewrite Hu, Hm, He.
Qed.

Lemma parse_content_shape (p : Delimiters) (content : str) (segs : list segment) :
  parse_content p content = Ok segs ->
  valid segs = true /\ forallb parsed_segment segs = true
  /\ emittable 0 segs = true.
Proof.
  unfold parse_content. destruct (resolve_una p content) as [d|]; [|discriminate].
  cbn [bind]. destruct (unique (delimiter_chars d)); [|discriminate].
  destruct (split_lines d content) as [lines|]; [|discriminate]. cbn [bind].
  apply parse_lines_shape.
Qed.

Lemma parse_edi_content (ext : str -> Codec) (p : Delimiters) (warn : bool)
    (de : str) (data : bytes) (segs : list segment) :
  parse_edi ext p warn de data = Ok segs ->
  exists content,
    read_content ext de data = Ok content /\ parse_content p content = Ok segs.
Proof.
  unfold parse_edi. destruct (read_content ext de data) as [content|];
    [|discriminate]. cbn [bind]. eauto.
Qed.

(** X2.  Whatever [parse_edi] returns is a valid structural form: a [UNA]
    segment only at index 0 and with a character list as its body, every
    other segment with a recognised tag, at least one data element and at
    least one component in each data element.  In particular the loop of
    [make_edi] runs to its end on it. *)
Theorem parse_edi_returns_valid :
  forall (ext : str -> Codec) (p : Delimiters) (warn : bool) (de : str)
         (data : bytes) (segs : list segment),
    parse_edi ext p warn de data = Ok segs ->
    valid segs = true /\ forallb parsed_segment segs = true
    /\ emittable 0 segs = true.
Proof.
  intros ext p warn de data segs H.
  destruct (parse_edi_content _ _ _ _ _ _ H) as (content & _ & Hc).
  now apply parse_content_shape in Hc.
Qed.

Lemma parse_edi_returns_valid_witness :
  valid (una_segment default_delimiters :: example_segments) = true
  /\ forallb parsed_segment (una_segment default_delimiters :: example_segments)
     = true
  /\ emittable 0 (una_segment default_delimiters :: example_segments) = true.
Proof.
  apply (parse_edi_returns_valid no_code_pages default_delimiters false UNOY
           example_edi).
  vm_compute; reflexivity.
Defined.

(** X3.  The XML tree carries whatever [parse_edi] returns: [make_xml]
    succeeds on it and [parse_xml] gives the same segments back, so that
    [make_edi] after the detour through XML is [make_edi] without it. *)
Theorem parse_edi_through_xml :
  forall (ext : str -> Codec) (p : Delimiters) (warn : bool) (de : str)
         (data : bytes) (segs : list segment) (root_tag : str),
    parse_edi ext p warn de data = Ok segs ->
    exists root,
      make_xml segs root_tag = Ok root /\ parse_xml root = Ok segs.
Proof.
  intros ext p warn de data segs root_tag H.
  destruct (parse_edi_content _ _ _ _ _ _ H) as (content & _ & Hc).
  apply parse_content_shape in Hc. destruct Hc as (Hv & _).
  destruct (parse_xml_elements 0 segs Hv) as (els & E1 & E2).
  exists (mkElement root_tag [] None els). unfold make_xml, parse_xml, enumerate.
  rewrite E1. cbn [bind children]. split; [reflexivity | exact E2].
Qed.

Lemma parse_edi_through_xml_witness :
  exists root,
    make_xml (una_segment default_delimiters :: example_segments) (lit "EDIFACT")
    = Ok root
    /\ parse_xml root = Ok (una_segment default_delimiters :: example_segments).
Proof.
  apply (parse_edi_through_xml no_code_pages default_delimiters false UNOY
           example_edi).
  vm_compute; reflexivity.
Defined.

(* ================================================================= *)
(** ** The annotated XML tree *)

Lemma component_value_attributed (segment : str) (d_i : nat)
    (attribs : list (list (str * option str))) (c_i : nat) (c : str) :
  component_value (attributed_component segment d_i attribs (c_i, c)) = c.
Proof. destruct c; reflexivity. Qed.

Lemma attributed_data_element_values (ed : ED) (segment : str) (table : list Row)
    (d_i : nat) (e : list str) (el : Element) :
  attributed_data_element ed segment table (d_i, e) = Ok el ->
  List.map component_value (children el) = e.
Proof.
  unfold attributed_data_element.
  destruct (located_rows table d_i) as [[cd rows]|]; [|discriminate]. cbn [bind].
  destruct (mapM (component_attrib ed) (combine rows e)) as [attribs|];
    [|discriminate]. cbn [bind].
  intros H. injection H as <-. cbn [children]. rewrite map_map.
  unfold enumerate.
  rewrite (map_enumerate_from (fun c => c)); [apply map_id|].
  intros j a. apply component_value_attributed.
Qed.

Lemma parse_attributed_segment (sd : SD) (ed : ED) (i : nat) (s : segment)
    (el : Element) :
  attributed_segment sd ed s = Ok el -> valid_from i [s] = true ->
  parse_element (i, el) = Ok s.
Proof.
  destruct s as [t b]. unfold attributed_segment. cbn [valid_from].
  destruct (str_eqb t UNA) eqn:Ht.
  - apply str_eqb_eq in Ht. subst t.
    destruct b as [cs|es]; [|now rewrite andb_false_r].
    cbn [join_body bind]. intros H. injection H as <-.
    rewrite andb_true_r, andb_true_r. intros Hi.
    unfold parse_element. cbn [tag text]. change (str_eqb UNA UNA) with true.
    cbn iota. now rewrite Hi.
  - destruct b as [cs|es]; [discriminate|]. intros H _.
    destruct (lookup t sd) as [entry|]; [|discriminate].
    cbn [elements_of] in H.
    destruct (mapM (attributed_data_element ed t (sd_table entry)) (enumerate es))
      as [els|] eqn:Hels; [|discriminate].
    cbn [bind] in H. injection H as <-.
    unfold parse_element. cbn [tag children]. rewrite Ht. do 3 f_equal.
    rewrite (mapM_map_eq _ _ snd _ _ Hels).
    + unfold enumerate. clear. generalize 0.
      induction es as [|e es IH]; intros k; cbn [enumerate_from List.map snd];
        [reflexivity | now rewrite IH].
    + intros [d_i e] el' _ Hel. now apply attributed_data_element_values in Hel.
Qed.

Lemma parse_attributed_segments (sd : SD) (ed : ED) (i : nat)
    (segments : list segment) (els : list Element) :
  mapM (attributed_segment sd ed) segments = Ok els ->
  valid_from i segments = true ->
  mapM parse_element (enumerate_from i els) = Ok segments.
Proof.
  revert i els; induction segments as [|s segments IH]; intros i els H Hv.
  - cbn in H. injection H as <-. reflexivity.
  - apply mapM_cons_inv in H. destruct H as (el & els' & Hel & Hels & ->).
    assert (Hv1 : valid_from i [s] = true /\ valid_from (S i) segments = true).
    { destruct s as [t b]. cbn [valid_from] in *. rewrite andb_true_r.
      now apply andb_true_iff in Hv. }
    destruct Hv1 as [Hv1 Hv2].
    cbn [enumerate_from mapM].
    rewrite (parse_attributed_segment sd ed i s el Hel Hv1). cbn [bind].
    rewrite (IH _ _ Hels Hv2). reflexivity.
Qed.

(** X4.  The dictionary attributes do not disturb the way back: whenever
    [make_edi_xml] returns a tree for a valid structural form, [parse_xml]
    reads the segments back from it. *)
Theorem parse_make_edi_xml :
  forall (segments : list segment) (sd : SD) (ed : ED) (root_tag : str)
         (root : Element),
    valid segments = true ->
    make_edi_xml segments sd ed root_tag = Ok root ->
    parse_xml root = Ok segments.
Proof.
  intros segments sd ed root_tag root Hv H. unfold make_edi_xml in H.
  destruct (mapM (attributed_segment sd ed) segments) as [els|] eqn:Hels;
    [|discriminate]. cbn [bind] in H. injection H as <-.
  unfold parse_xml, enumerate. cbn [children].
  now apply (parse_attributed_segments sd ed).
Qed.

Local Open Scope string_scope.

Lemma parse_make_edi_xml_witness :
  exists root,
    make_edi_xml [una_segment default_delimiters;
                  seg "LIN" [["1"]; ["1"]; ["0764569104"; "XX"]]]
      example_sd example_ed (lit "EDIFACT") = Ok root
    /\ parse_xml root
       = Ok [una_segment default_delimiters;
             seg "LIN" [["1"]; ["1"]; ["0764569104"; "XX"]]].
Proof.
  destruct (make_edi_xml [una_segment default_delimiters;
                          seg "LIN" [["1"]; ["1"]; ["0764569104"; "XX"]]]
              example_sd example_ed (lit "EDIFACT")) as [root|] eqn:E.
  - exists root. split; [reflexivity|].
    apply (parse_make_edi_xml _ example_sd example_ed (lit "EDIFACT"));
      [vm_compute; reflexivity | exact E].
  - vm_compute in E. discriminate.
Defined.

Local Close Scope string_scope.

(* ================================================================= *)
(** ** When make_edi raises *)

Lemma mapM_segment_strings_total (d : Delimiters) (wn wc : bool) (n i : nat)
    (segments : list segment) :
  emittable i segments = true ->
  exists strings,
    mapM (segment_strings d wn wc n) (enumerate_from i segments) = Ok strings.
Proof.
  revert i; induction segments as [|[t b] segments IH]; intros i H.
  - now exists [].
  - cbn [emittable] in H. apply andb_true_iff in H. destruct H as [H1 H2].
    destruct (IH _ H2) as [strings Hs].
    cbn [enumerate_from mapM segment_strings]. unfold is_una in H1.
    cbn [fst] in H1. destruct (str_eqb t UNA).
    + rewrite H1. cbn [bind]. rewrite Hs. cbn [bind]. eauto.
    + rewrite H1. cbn [bind]. rewrite Hs. cbn [bind]. eauto.
Qed.

(** X5.  The text stage of [make_edi] succeeds exactly on pairwise distinct
    delimiters and a segment list with [UNA] nowhere but at index 0 and every
    other tag a recognised one, whatever the flags and the bodies are. *)
Theorem make_text_succeeds_iff :
  forall (d : Delimiters) (wn wc wu : bool) (segments : list segment),
    (exists text, make_text d wn wc wu segments = Ok text)
    <-> unique (delimiter_chars d) = true /\ emittable 0 segments = true.
Proof.
  intros d wn wc wu segments. split.
  - intros [text H]. now apply make_text_inv in H.
  - intros [Hu He]. unfold make_text. rewrite Hu.
    destruct (mapM_segment_strings_total d wn wc (List.length segments) 0
                segments He) as [strings Hs].
    unfold enumerate. rewrite Hs. cbn [bind]. eauto.
Qed.

Lemma segment_strings_unknown (d : Delimiters) (wn wc : bool) (n i : nat)
    (t : str) (b : body) :
  str_eqb t UNA = false -> mem t SEGMENTS = false ->
  segment_strings d wn wc n (i, (t, b)) = Raise (SyntaxError (UnknownSegment t)).
Proof. intros Hu Hm. cbn [segment_strings]. now rewrite Hu, Hm. Qed.

(** X6.  [make_edi] stops at the first segment whose tag is neither [UNA]
    nor recognised, with the syntax error that names the tag, whatever
    follows it and whatever the flags are. *)
Theorem make_edi_unknown_segment :
  forall (ext : str -> Codec) (d : Delimiters) (de : str) (wn wc wu : bool)
         (pre post : list segment) (t : str) (b : body),
    unique (delimiter_chars d) = true ->
    emittable 0 pre = true ->
    t <> UNA -> mem t SEGMENTS = false ->
    make_edi ext d de wn wc wu (pre ++ (t, b) :: post)
    = Raise (SyntaxError (UnknownSegment t)).
Proof.
  intros ext d de wn wc wu pre post t b Hu He Ht Hm.
  unfold make_edi, make_text. rewrite Hu. unfold enumerate.
  rewrite enumerate_from_app. cbn [enumerate_from].
  destruct (mapM_segment_strings_total d wn wc
              (List.length (pre ++ (t, b) :: post)) 0 pre He) as [strings Hs].
  rewrite (mapM_app_raise _ _ _ _ _ _ Hs
             (segment_strings_unknown d wn wc _ _ t b
                (proj2 (str_eqb_neq t UNA) Ht) Hm)).
  reflexivity.
Qed.

Local Open Scope string_scope.

Lemma make_edi_unknown_segment_witness :
  make_edi no_code_pages default_delimiters UNOY true false true
    ([seg "BGM" [["220"]]] ++ seg "XYZ" [["1"]] :: [seg "UNA" [["2"]]])
  = Raise (SyntaxError (UnknownSegment (lit "XYZ"))).
Proof.
  apply (make_edi_unknown_segment no_code_pages default_delimiters UNOY
           true false true [seg "BGM" [["220"]]] [seg "UNA" [["2"]]]);
    try (vm_compute; reflexivity).
  vm_compute. discriminate.
Defined.

Local Close Scope string_scope.

Lemma find_uno_default (de1 de2 : str) (segments : list segment) :
  existsb (fun s => str_eqb (fst s) UNB) segments = true ->
  find_uno de1 segments = find_uno de2 segments.
Proof.
  induction segments as [|[t b] segments IH]; cbn [existsb find_uno fst];
    [discriminate|].
  destruct (str_eqb t UNB); [reflexivity|]. exact IH.
Qed.

(** X7.  [default_encoding] is a fallback only: when the segments hold a
    [UNB] segment, [make_edi] returns or raises the same for every default,
    the first component of the first [UNB] deciding the codec. *)
Theorem make_edi_default_encoding_unused :
  forall (ext : str -> Codec) (d : Delimiters) (de1 de2 : str)
         (wn wc wu : bool) (segments : list segment),
    existsb (fun s => str_eqb (fst s) UNB) segments = true ->
    make_edi ext d de1 wn wc wu segments = make_edi ext d de2 wn wc wu segments.
Proof.
  intros ext d de1 de2 wn wc wu segments H. unfold make_edi.
  now rewrite (find_uno_default de1 de2 segments H).
Qed.

Lemma make_edi_default_encoding_unused_witness :
  make_edi no_code_pages default_delimiters (lit "UNOA") false false true
    example_segments
  = make_edi no_code_pages default_delimiters (lit "no such identifier")
      false false true example_segments.
Proof.
  apply (make_edi_default_encoding_unused no_code_pages default_delimiters).
  vm_compute; reflexivity.
Defined.

(* ================================================================= *)
(** ** The advice against the keyword arguments *)




(* ================================================================= *)
(** ** Line breaks in the text *)

Lemma re_sub_escaped (rc st cr nl : char) (prev : option char) (p : str) :
  escaped rc st (is_prev rc prev) p = true ->
  re_sub_breaks_from rc st cr nl prev 0 p = p.
Proof.
  intros H. rewrite <- (app_nil_r p) at 1. rewrite re_sub_piece by assumption.
  cbn [re_sub_breaks_from]. apply app_nil_r.
Qed.

Lemma re_sub_step0 (rc st cr nl : char) (prev : option char) :
  is_prev rc prev = false ->
  re_sub_breaks_from rc st cr nl prev 0 [st] = [st].
Proof. intros Hp. cbn [re_sub_breaks_from]. now rewrite N.eqb_refl, Hp. Qed.

Lemma re_sub_step1 (rc st cr nl : char) (prev : option char) (x : char) :
  is_prev rc prev = false ->
  re_sub_breaks_from rc st cr nl prev 0 [st; x]
  = if N.eqb x nl then [st]
    else st :: re_sub_breaks_from rc st cr nl (Some st) 0 [x].
Proof.
  intros Hp. cbn [re_sub_breaks_from]. rewrite N.eqb_refl, Hp. cbn [andb negb].
  reflexivity.
Qed.

Lemma re_sub_step2 (rc st cr nl : char) (prev : option char) (x y : char)
    (t : str) :
  is_prev rc prev = false ->
  re_sub_breaks_from rc st cr nl prev 0 (st :: x :: y :: t)
  = if N.eqb x cr && N.eqb y nl
    then st :: re_sub_breaks_from rc st cr nl (Some y) 0 t
    else if N.eqb x nl
         then st :: re_sub_breaks_from rc st cr nl (Some x) 0 (y :: t)
         else st :: re_sub_breaks_from rc st cr nl (Some st) 0 (x :: y :: t).
Proof.
  intros Hp.
  change (re_sub_breaks_from rc st cr nl prev 0 (st :: x :: y :: t))
    with (if N.eqb st st && negb (is_prev rc prev)
          then if N.eqb x cr && N.eqb y nl
               then st :: re_sub_breaks_from rc st cr nl (Some st) 2 (x :: y :: t)
               else if N.eqb x nl
                    then st :: re_sub_breaks_from rc st cr nl (Some st) 1 (x :: y :: t)
                    else st :: re_sub_breaks_from rc st cr nl (Some st) 0 (x :: y :: t)
          else st :: re_sub_breaks_from rc st cr nl (Some st) 0 (x :: y :: t)).
  rewrite N.eqb_refl, Hp. cbn [andb negb]. reflexivity.
Qed.

Lemma re_sub_at_nl (rc st cr nl : char) (prev : option char) (r : str) :
  is_prev rc prev = false -> N.eqb nl cr = false ->
  re_sub_breaks_from rc st cr nl prev 0 (st :: nl :: r)
  = st :: re_sub_breaks_from rc st cr nl (Some nl) 0 r.
Proof.
  intros Hp Hc. destruct r as [|y r].
  - rewrite re_sub_step1 by assumption. now rewrite N.eqb_refl.
  - rewrite re_sub_step2 by assumption. now rewrite Hc, N.eqb_refl.
Qed.

Lemma re_sub_at_crnl (rc st cr nl : char) (prev : option char) (r : str) :
  is_prev rc prev = false ->
  re_sub_breaks_from rc st cr nl prev 0 (st :: cr :: nl :: r)
  = st :: re_sub_breaks_from rc st cr nl (Some nl) 0 r.
Proof.
  intros Hp. rewrite re_sub_step2 by assumption. now rewrite !N.eqb_refl.
Qed.

Lemma re_sub_at_end (rc st cr nl : char) (prev : option char) (tail : str) :
  is_prev rc prev = false -> N.eqb st rc = false -> N.eqb nl rc = false ->
  escaped rc st false tail = true ->
  exists tail',
    re_sub_breaks_from rc st cr nl prev 0 (st :: tail) = st :: tail'
    /\ escaped rc st false tail' = true.
Proof.
  intros Hp Hs Hn He. destruct tail as [|x [|y t]].
  - exists []. split; [now apply re_sub_step0 | reflexivity].
  - rewrite re_sub_step1 by assumption. destruct (N.eqb x nl).
    + exists []. split; reflexivity.
    + exists [x]. split; [|exact He].
      rewrite re_sub_escaped; [reflexivity|]. cbn [is_prev]. now rewrite Hs.
  - rewrite re_sub_step2 by assumption.
    pose proof He as He'. cbn [escaped] in He'.
    apply andb_true_iff in He' as [_ He'].
    apply andb_true_iff in He' as [H1 H2].
    destruct (N.eqb x cr && N.eqb y nl) eqn:E1.
    + apply andb_true_iff in E1 as [_ Ey]. apply N.eqb_eq in Ey. subst y.
      rewrite Hn in H2. exists t. split; [|exact H2].
      rewrite re_sub_escaped; [reflexivity|]. cbn [is_prev]. now rewrite Hn.
    + destruct (N.eqb x nl) eqn:E2.
      * apply N.eqb_eq in E2. subst x. rewrite Hn in *.
        assert (He2 : escaped rc st false (y :: t) = true).
        { cbn [escaped]. now rewrite H1, H2. }
        exists (y :: t). split; [|exact He2].
        rewrite re_sub_escaped; [reflexivity|]. cbn [is_prev]. now rewrite Hn.
      * exists (x :: y :: t). split; [|exact He].
        rewrite re_sub_escaped; [reflexivity|]. cbn [is_prev]. now rewrite Hs.
Qed.

Lemma broken_cons (st : char) (p br : str) (pbs : list (str * str)) (tail : str) :
  broken st ((p, br) :: pbs) ++ tail = p ++ st :: br ++ broken st pbs ++ tail.
Proof.
  unfold broken. cbn [List.map List.concat fst snd].
  rewrite <- !app_assoc. reflexivity.
Qed.

Lemma re_sub_broken (rc st cr nl : char) (pbs : list (str * str)) :
  N.eqb st rc = false -> N.eqb nl rc = false -> N.eqb nl cr = false ->
  forall (prev : option char) (tail : str),
    is_prev rc prev = false ->
    forallb (piece_break_ok rc st cr nl) pbs = true ->
    escaped rc st false tail = true ->
    exists tail',
      re_sub_breaks_from rc st cr nl prev 0 (broken st pbs ++ tail)
      = terminated st (List.map fst pbs) ++ tail'
      /\ escaped rc st false tail' = true.
Proof.
  intros Hs Hn Hc. induction pbs as [|[p br] pbs IH]; intros prev tail Hp Hall He.
  - exists tail. split; [|exact He]. cbn [broken List.map List.concat app].
    apply re_sub_escaped. now rewrite Hp.
  - cbn [forallb] in Hall. apply andb_true_iff in Hall as [Hpb Hall].
    unfold piece_break_ok in Hpb. cbn [fst snd] in Hpb.
    apply andb_true_iff in Hpb as [Hpb Hbr].
    apply andb_true_iff in Hpb as [Hok Hpl].
    apply piece_ok_inv in Hok as [Hesc Hend].
    rewrite broken_cons. rewrite re_sub_piece by now rewrite Hp.
    assert (Hl : is_prev rc (last_or prev p) = false)
      by now rewrite is_prev_last_or, Hp.
    assert (Hgoal : exists tail',
               re_sub_breaks_from rc st cr nl (last_or prev p) 0
                 (st :: br ++ broken st pbs ++ tail)
               = st :: terminated st (List.map fst pbs) ++ tail'
               /\ escaped rc st false tail' = true).
    { destruct br as [|x [|y [|z br]]]; cbn [is_break] in Hbr; try discriminate.
      - cbn [app]. destruct pbs as [|[q bq] pbs'].
        + cbn [broken List.map List.concat app terminated].
          now apply re_sub_at_end.
        + pose proof Hall as Hall'. cbn [forallb] in Hall'.
          apply andb_true_iff in Hall' as [Hq _].
          unfold piece_break_ok in Hq. cbn [fst snd] in Hq.
          apply andb_true_iff in Hq as [Hq _].
          apply andb_true_iff in Hq as [_ Hq].
          destruct q as [|u [|v q]]; try discriminate Hq.
          cbn [starts_plain] in Hq. apply andb_true_iff in Hq as [Qu Qv].
          apply negb_true_iff in Qu, Qv.
          destruct (IH (Some st) tail) as (tail' & E & He'); try assumption.
          exists tail'. split; [|exact He'].
          rewrite broken_cons in *. cbn [app] in *.
          rewrite re_sub_at_terminator by assumption. now rewrite E.
      - apply N.eqb_eq in Hbr. subst x. cbn [app].
        destruct (IH (Some nl) tail) as (tail' & E & He'); try assumption.
        exists tail'. split; [|exact He'].
        rewrite re_sub_at_nl by assumption. now rewrite E.
      - apply andb_true_iff in Hbr as [Hx Hy].
        apply N.eqb_eq in Hx, Hy. subst x y. cbn [app].
        destruct (IH (Some nl) tail) as (tail' & E & He'); try assumption.
        exists tail'. split; [|exact He'].
        rewrite re_sub_at_crnl by assumption. now rewrite E. }
    destruct Hgoal as (tail' & E & He'). exists tail'. split; [|exact He'].
    rewrite E. unfold terminated. cbn [List.map List.concat fst].
    rewrite <- !app_assoc. reflexivity.
Qed.

Lemma re_split_terminated_tail (rc x : char) (ps : list str) (tail : str) :
  x <> rc ->
  forall prev : option char,
    is_prev rc prev = false ->
    Forall (fun p => piece_ok rc x p = true) ps ->
    escaped rc x false tail = true ->
    re_split_from rc x prev (terminated x ps ++ tail) = ps ++ [tail].
Proof.
  intros Hx. assert (Ex : N.eqb x rc = false) by now apply N.eqb_neq.
  induction ps as [|p ps IH]; intros prev Hp Hall He.
  - cbn [terminated List.map List.concat app]. apply re_split_whole.
    now rewrite Hp.
  - inversion Hall as [|? ? H1 H2]; subst.
    apply piece_ok_inv in H1 as [Hesc Hend].
    unfold terminated in *. cbn [List.map List.concat].
    rewrite <- !app_assoc. cbn [app].
    rewrite re_split_piece by now rewrite Hp.
    cbn [app]. f_equal. apply IH; assumption.
Qed.

Lemma unique_break_facts (d : Delimiters) :
  unique (delimiter_chars d) = true ->
  N.eqb (segment_terminator d) (release_char d) = false
  /\ N.eqb (newline d) (release_char d) = false
  /\ N.eqb (newline d) (carriage_return d) = false
  /\ N.eqb (carriage_return d) (release_char d) = false
  /\ N.eqb (carriage_return d) (segment_terminator d) = false.
Proof.
  destruct d as [cs ds dm rc st nl cr].
  unfold delimiter_chars.
  cbn [unique char_mem component_separator dataelement_separator decimal_mark
       release_char segment_terminator newline carriage_return].
  intros H.
  repeat rewrite andb_true_iff in H. repeat rewrite negb_true_iff in H.
  repeat rewrite orb_false_iff in H. repeat rewrite N.eqb_neq in H.
  repeat rewrite N.eqb_neq. intuition congruence.
Qed.

Lemma is_break_text (d : Delimiters) (wn wc : bool) :
  (wc = true -> wn = true) ->
  is_break (carriage_return d) (newline d) (break_text d wn wc) = true.
Proof.
  intros H. unfold break_text, line_break.
  destruct wc; [rewrite H by reflexivity|destruct wn];
    cbn [app List.concat is_break]; now rewrite ?N.eqb_refl.
Qed.

Lemma startswith_tag (t rest : str) :
  mem t SEGMENTS = true -> startswith (t ++ rest) UNA = false.
Proof.
  intros Ht. destruct (segments_shape t Ht) as (a & b & c & -> & _ & _ & _ & Hu).
  cbn [app UNA startswith]. cbn [UNA str_eqb] in Hu.
  rewrite (N.eqb_sym 85 a), (N.eqb_sym 78 b), (N.eqb_sym 65 c).
  now rewrite andb_true_r in *.
Qed.

Section BrokenLines.

Variable d : Delimiters.
Hypothesis Hplain : plain_delimiters d = true.

Local Abbreviation rc := (release_char d).
Local Abbreviation st := (segment_terminator d).
Local Abbreviation cr := (carriage_return d).
Local Abbreviation nl := (newline d).

Lemma split_lines_broken (pbs : list (str * str)) (tail : str) :
  forallb (piece_break_ok rc st cr nl) pbs = true ->
  escaped rc st false tail = true ->
  split_lines d (broken st pbs ++ tail)
  = Ok (List.map (replace [rc; st] [st]) (List.map fst pbs)).
Proof.
  destruct (plain_facts d Hplain)
    as (_ & _ & _ & _ & _ & _ & Hrs & Hbs & _).
  destruct (unique_break_facts d (plain_unique d Hplain))
    as (Esr & Enr & Enc & _).
  intros Hall He. unfold split_lines, re_sub_breaks.
  apply N.eqb_neq in Hbs. rewrite Hbs. cbn [bind].
  destruct (re_sub_broken rc st cr nl pbs Esr Enr Enc None tail eq_refl Hall He)
    as (tail' & E & He').
  rewrite E. unfold re_split.
  rewrite re_split_terminated_tail; try assumption; try reflexivity;
    try congruence.
  - rewrite map_app. cbn [List.map]. unfold drop_last.
    now rewrite removelast_last.
  - apply Forall_map. apply forallb_Forall_true in Hall.
    eapply Forall_impl; [|exact Hall]. intros pb Hpb.
    unfold piece_break_ok in Hpb.
    apply andb_true_iff in Hpb as [Hpb _]. now apply andb_true_iff in Hpb as [Hpb _].
Qed.

Lemma segment_pieces_ok (P : list segment) (brs : list str) :
  forallb (writable d) P = true ->
  forallb (is_break cr nl) brs = true ->
  forallb (piece_break_ok rc st cr nl) (combine (List.map (segment_text d) P) brs)
  = true.
Proof.
  revert brs; induction P as [|seg P IH]; intros [|br brs] HP Hb;
    try reflexivity.
  cbn [forallb] in HP, Hb. apply andb_true_iff in HP as [Hs HP].
  apply andb_true_iff in Hb as [Hbr Hb].
  unfold writable in Hs. apply andb_true_iff in Hs as [H1 H2].
  cbn [List.map combine forallb]. rewrite IH by assumption.
  unfold piece_break_ok. cbn [fst snd].
  rewrite (written_segment_piece d Hplain seg H1 H2).
  rewrite (written_segment_plain d Hplain seg H1). now rewrite Hbr.
Qed.

Lemma fst_combine_pieces (P : list segment) (brs : list str) :
  List.length brs = List.length P ->
  List.map fst (combine (List.map (segment_text d) P) brs)
  = List.map (segment_text d) P.
Proof.
  revert brs; induction P as [|seg P IH]; intros [|br brs] Hl;
    try reflexivity; try discriminate.
  cbn [List.map combine fst]. f_equal. apply IH. now injection Hl.
Qed.

Lemma parse_content_broken (p : Delimiters) (b0 : str) (P : list segment)
    (brs : list str) (tail : str) :
  newline p = newline d -> carriage_return p = carriage_return d ->
  forallb (writable d) P = true ->
  is_break cr nl b0 = true ->
  forallb (is_break cr nl) brs = true ->
  List.length brs = List.length P ->
  escaped rc st false tail = true ->
  parse_content p (broken st (message_pieces d true b0 P brs) ++ tail)
  = Ok (una_segment d :: List.map normal P).
Proof.
  intros Hn Hc HP Hb0 Hbrs Hlen He. unfold parse_content, message_pieces.
  cbn [app]. rewrite broken_cons.
  rewrite (resolve_una_written d Hplain p _ Hn Hc). cbn [bind].
  rewrite (plain_unique d Hplain). rewrite <- broken_cons.
  rewrite split_lines_broken; [| |exact He].
  - cbn [bind List.map fst]. rewrite fst_combine_pieces by assumption.
    unfold enumerate. cbn [enumerate_from mapM].
    rewrite (parse_line_una d Hplain). cbn [bind].
    rewrite (mapM_parse_lines d Hplain) by assumption. reflexivity.
  - cbn [forallb]. rewrite segment_pieces_ok by assumption.
    unfold piece_break_ok. cbn [fst snd].
    rewrite (una_text_piece d Hplain), (una_text_plain d Hplain), Hb0.
    reflexivity.
Qed.

Lemma parse_content_broken_plain (P : list segment) (brs : list str) :
  forallb (writable d) P = true ->
  forallb (is_break cr nl) brs = true ->
  List.length brs = List.length P ->
  parse_content d (broken st (message_pieces d false [] P brs))
  = Ok (List.map normal P).
Proof.
  intros HP Hbrs Hlen. unfold parse_content, message_pieces. cbn [app].
  assert (R : resolve_una d (broken st (combine (List.map (segment_text d) P) brs))
              = Ok d).
  { unfold resolve_una. destruct P as [|[t b] P]; [reflexivity|].
    destruct brs as [|br brs]; [discriminate|].
    cbn [List.map combine]. rewrite <- (app_nil_r (broken _ _)).
    rewrite broken_cons. unfold segment_text. cbn [fst snd].
    rewrite <- app_assoc. rewrite startswith_tag; [reflexivity|].
    cbn [forallb] in HP. apply andb_true_iff in HP as [Hs _].
    unfold writable in Hs. now apply andb_true_iff in Hs as [Hs _]. }
  rewrite R. cbn [bind]. rewrite (plain_unique d Hplain).
  rewrite <- (app_nil_r (broken _ _)).
  rewrite split_lines_broken; [| |reflexivity].
  - cbn [bind]. rewrite fst_combine_pieces by assumption.
    unfold enumerate. now apply (mapM_parse_lines d Hplain).
  - now apply segment_pieces_ok.
Qed.

End BrokenLines.

(* ================================================================= *)
(** ** What make_edi writes with line breaks *)

Lemma segment_strings_flags (d : Delimiters) (wn wc : bool) (n i : nat)
    (seg : segment) :
  is_una seg = false -> mem (fst seg) SEGMENTS = true ->
  exists strings,
    segment_strings d wn wc n (i, seg) = Ok strings
    /\ List.concat strings
       = segment_text d seg
         ++ segment_terminator d
            :: (if n - 1 =? i then [] else break_text d wn wc).
Proof.
  destruct seg as [tag b]. unfold is_una. cbn [fst snd]. intros Hu Hm.
  unfold segment_strings. rewrite Hu, Hm.
  eexists. split; [reflexivity|].
  cbn [app List.concat]. rewrite !concat_app. unfold enumerate.
  rewrite (element_strings_join d _ 0) by reflexivity.
  unfold segment_text, break_text. cbn [fst snd List.concat].
  rewrite <- !app_assoc. cbn [app].
  now destruct (n - 1 =? i).
Qed.

Lemma segment_strings_una_flags (d : Delimiters) (wn wc : bool) (n : nat)
    (seg : segment) :
  is_una seg = true -> segment_strings d wn wc n (0, seg) = Ok [].
Proof.
  destruct seg as [tag b]. unfold is_una. cbn [fst]. intros Hu.
  unfold segment_strings. now rewrite Hu.
Qed.

Lemma mapM_segment_strings_broken (d : Delimiters) (wn wc : bool) (n i : nat)
    (segments : list segment) :
  (wc = true -> wn = true) ->
  emittable i segments = true ->
  exists strings brs,
    mapM (segment_strings d wn wc n) (enumerate_from i segments) = Ok strings
    /\ List.concat (List.concat strings)
       = broken (segment_terminator d)
           (combine (List.map (segment_text d) (payload segments)) brs)
    /\ List.length brs = List.length (payload segments)
    /\ forallb (is_break (carriage_return d) (newline d)) brs = true.
Proof.
  intros Hf. revert i; induction segments as [|seg rest IH]; intros i He.
  - exists [], []. repeat split; reflexivity.
  - cbn [emittable] in He. apply andb_true_iff in He as [H1 H2].
    destruct (IH (S i) H2) as (strs & brs & Hs & Hc & Hl & Hb).
    cbn [enumerate_from mapM payload filter].
    destruct (is_una seg) eqn:Eu.
    + apply Nat.eqb_eq in H1. subst i.
      rewrite (segment_strings_una_flags d wn wc n seg Eu). cbn [bind].
      rewrite Hs. cbn [bind negb]. exists ([] :: strs), brs.
      repeat split; try assumption.
    + destruct (segment_strings_flags d wn wc n i seg Eu H1) as (l & Hl1 & Hlc).
      rewrite Hl1. cbn [bind]. rewrite Hs. cbn [bind negb].
      exists (l :: strs), ((if n - 1 =? i then [] else break_text d wn wc) :: brs).
      repeat split.
      * cbn [List.concat List.map combine]. rewrite concat_app, Hlc, Hc.
        unfold broken. cbn [List.map List.concat fst snd]. reflexivity.
      * cbn [List.length]. now rewrite Hl.
      * cbn [forallb]. rewrite Hb, andb_true_r.
        destruct (n - 1 =? i); [reflexivity | now apply is_break_text].
Qed.

Lemma make_text_broken (d : Delimiters) (wn wc wu : bool)
    (segments : list segment) :
  (wc = true -> wn = true) ->
  unique (delimiter_chars d) = true -> emittable 0 segments = true ->
  exists brs,
    make_text d wn wc wu segments
    = Ok (broken (segment_terminator d)
            (message_pieces d wu (break_text d wn wc) (payload segments) brs))
    /\ List.length brs = List.length (payload segments)
    /\ forallb (is_break (carriage_return d) (newline d)) brs = true.
Proof.
  intros Hf Hu He. unfold make_text. rewrite Hu.
  destruct (mapM_segment_strings_broken d wn wc (List.length segments) 0
              segments Hf He) as (strs & brs & Hs & Hc & Hl & Hb).
  unfold enumerate. rewrite Hs. cbn [bind]. exists brs.
  repeat split; try assumption. f_equal.
  rewrite concat_app, Hc. unfold una_strings, message_pieces.
  destruct wu; [|reflexivity].
  cbn [app]. rewrite <- (app_nil_r (broken _ (_ :: _))). rewrite broken_cons.
  rewrite app_nil_r. unfold una_text, break_text. cbn [UNA app List.concat].
  reflexivity.
Qed.

Lemma parse_content_made (d p : Delimiters) (wn wc : bool)
    (segments : list segment) (text tail : str) :
  plain_delimiters d = true ->
  newline p = newline d -> carriage_return p = carriage_return d ->
  (wc = true -> wn = true) ->
  forallb (components_ok (release_char d)) (payload segments) = true ->
  make_text d wn wc true segments = Ok text ->
  escaped (release_char d) (segment_terminator d) false tail = true ->
  parse_content p (text ++ tail)
  = Ok (una_segment d :: List.map normal (payload segments)).
Proof.
  intros Hplain Hn Hc Hf Hok Ht He.
  destruct (make_text_inv _ _ _ _ _ _ Ht) as [Hu Hem].
  destruct (make_text_broken d wn wc true segments Hf Hu Hem)
    as (brs & Ht' & Hl & Hb).
  rewrite Ht in Ht'. injection Ht' as ->.
  apply (parse_content_broken d Hplain p); try assumption.
  - now apply (writable_payload d 0).
  - now apply is_break_text.
Qed.

(** X9.  Line breaks do not impair the way back: what [make_edi] writes with
    [with_newline], alone or together with [with_carriage_return], under
    delimiters that can be cut up again and from segments of which no
    component ends with the release character, [parse_edi] reads back as the
    advice followed by the written segments, once the bytes decode to the
    text that was written. *)
Theorem parse_edi_line_breaks :
  forall (ext : str -> Codec) (d p : Delimiters) (de : str) (warn : bool)
         (wn wc : bool) (segments : list segment) (data : bytes),
    plain_delimiters d = true ->
    newline p = newline d -> carriage_return p = carriage_return d ->
    (wc = true -> wn = true) ->
    forallb (components_ok (release_char d)) (payload segments) = true ->
    make_edi ext d de wn wc true segments = Ok data ->
    read_content ext de data = make_text d wn wc true segments ->
    parse_edi ext p warn de data
    = Ok (una_segment d :: List.map normal (payload segments)).
Proof.
  intros ext d p de warn wn wc segments data Hplain Hn Hc Hf Hok Hm Hr.
  destruct (make_edi_inv _ _ _ _ _ _ _ _ Hm) as (text & uno & name & Ht & _).
  unfold parse_edi. rewrite Hr, Ht. cbn [bind].
  rewrite <- (app_nil_r text).
  now apply (parse_content_made d p wn wc segments).
Qed.

(** The docstring's formatting example: emoji delimiters and a line feed
    after every segment, read back with the default keyword arguments. *)
Lemma parse_edi_line_breaks_witness :
  exists data,
    make_edi no_code_pages emoji_delimiters UNOY true false true
      (una_segment default_delimiters :: example_segments) = Ok data
    /\ parse_edi no_code_pages default_delimiters false UNOY data
       = Ok (una_segment emoji_delimiters :: example_segments).
Proof.
  exists (match make_edi no_code_pages emoji_delimiters UNOY true false true
                  (una_segment default_delimiters :: example_segments) with
          | Ok data => data
          | Raise _ => []
          end).
  split; [vm_compute; reflexivity|].
  change (una_segment emoji_delimiters :: example_segments)
    with (una_segment emoji_delimiters
          :: List.map normal
               (payload (una_segment default_delimiters :: example_segments))).
  apply (parse_edi_line_breaks no_code_pages emoji_delimiters default_delimiters
           UNOY false true false);
    vm_compute; reflexivity.
Defined.

(** X10.  Without the advice ([with_una=False]) the written segments come
    back alone, with or without line breaks, when [parse_edi] is called with
    the delimiters that [make_edi] wrote with. *)
Theorem parse_edi_without_una :
  forall (ext : str -> Codec) (d : Delimiters) (de : str) (warn : bool)
         (wn wc : bool) (segments : list segment) (data : bytes),
    plain_delimiters d = true ->
    (wc = true -> wn = true) ->
    forallb (components_ok (release_char d)) (payload segments) = true ->
    make_edi ext d de wn wc false segments = Ok data ->
    read_content ext de data = make_text d wn wc false segments ->
    parse_edi ext d warn de data = Ok (List.map normal (payload segments)).
Proof.
  intros ext d de warn wn wc segments data Hplain Hf Hok Hm Hr.
  destruct (make_edi_inv _ _ _ _ _ _ _ _ Hm) as (text & uno & name & Ht & _).
  unfold parse_edi. rewrite Hr, Ht. cbn [bind].
  destruct (make_text_inv _ _ _ _ _ _ Ht) as [Hu Hem].
  destruct (make_text_broken d wn wc false segments Hf Hu Hem)
    as (brs & Ht' & Hl & Hb).
  rewrite Ht in Ht'. injection Ht' as ->.
  apply (parse_content_broken_plain d Hplain); try assumption.
  now apply (writable_payload d 0).
Qed.

Lemma parse_edi_without_una_witness :
  exists data,
    make_edi no_code_pages bar_delimiters UNOY true true false example_segments
    = Ok data
    /\ parse_edi no_code_pages bar_delimiters false UNOY data
       = Ok example_segments.
Proof.
  exists (match make_edi no_code_pages bar_delimiters UNOY true true false
                  example_segments with
          | Ok data => data
          | Raise _ => []
          end).
  split; [vm_compute; reflexivity|].
  change example_segments
    with (List.map normal (payload example_segments)) at 2.
  apply (parse_edi_without_una no_code_pages bar_delimiters UNOY false true true);
    vm_compute; reflexivity.
Defined.


Local Open Scope string_scope.


Local Close Scope string_scope.

(* ================================================================= *)
(** ** Lines that parse_edi rejects *)

Lemma parse_content_rejects (p d : Delimiters) (content : str)
    (pre post : list str) (line : str) (accepted : list segment) (e : exn) :
  resolve_una p content = Ok d ->
  unique (delimiter_chars d) = true ->
  split_lines d content = Ok (pre ++ line :: post) ->
  mapM (parse_line d) (enumerate pre) = Ok accepted ->
  parse_line d (List.length pre, line) = Raise e ->
  parse_content p content = Raise e.
Proof.
  intros Hd Hu Hs Hpre He. unfold parse_content.
  rewrite Hd. cbn [bind]. rewrite Hu, Hs. cbn [bind].
  unfold enumerate in *. rewrite enumerate_from_app. cbn [enumerate_from].
  now apply (mapM_app_raise _ _ _ _ _ _ Hpre).
Qed.

(** X12.  The line that [parse_edi] rejects first decides the exception.  A
    line that starts with [UNA] after the first one fails the assertion; a
    line whose fourth character is not the data-element separator raises the
    syntax error that cites the 1-based number of the line and both
    characters; a line with the separator in place and a tag that is not
    recognised raises the syntax error that names the tag. *)
Theorem parse_edi_rejected_line :
  forall (ext : str -> Codec) (p d : Delimiters) (warn : bool) (de : str)
         (data : bytes) (content : str) (pre post : list str) (line : str)
         (accepted : list segment),
    read_content ext de data = Ok content ->
    resolve_una p content = Ok d ->
    unique (delimiter_chars d) = true ->
    split_lines d content = Ok (pre ++ line :: post) ->
    mapM (parse_line d) (enumerate pre) = Ok accepted ->
    (startswith line UNA = true -> pre <> [] ->
     parse_edi ext p warn de data = Raise AssertionError)
    /\ (forall c,
          startswith line UNA = false -> nth_error line 3 = Some c ->
          c <> dataelement_separator d ->
          parse_edi ext p warn de data
          = Raise (SyntaxError (ExpectedSeparator (List.length pre + 1)
                                  (dataelement_separator d) c)))
    /\ (startswith line UNA = false ->
        nth_error line 3 = Some (dataelement_separator d) ->
        mem (firstn 3 line) SEGMENTS = false ->
        parse_edi ext p warn de data
        = Raise (SyntaxError (UnknownSegment (firstn 3 line)))).
Proof.
  intros ext p d warn de data content pre post line accepted Hr Hd Hu Hs Hpre.
  unfold parse_edi. rewrite Hr. cbn [bind].
  split; [|split].
  - intros Hl Hne. apply (parse_content_rejects p d content pre post line accepted);
      try assumption.
    unfold parse_line. rewrite Hl.
    destruct pre; [congruence | reflexivity].
  - intros c Hl Hn Hc.
    apply (parse_content_rejects p d content pre post line accepted);
      try assumption.
    unfold parse_line. rewrite Hl, Hn.
    apply N.eqb_neq in Hc. now rewrite Hc.
  - intros Hl Hn Hm.
    apply (parse_content_rejects p d content pre post line accepted);
      try assumption.
    unfold parse_line. rewrite Hl, Hn, N.eqb_refl, Hm. reflexivity.
Qed.

Lemma parse_edi_rejected_line_witness :
  parse_edi no_code_pages default_delimiters false UNOY
    (blit "UNA:+.? 'BGM+220'UNA:+.? 'DTM+1'")
  = Raise AssertionError
  /\ parse_edi no_code_pages default_delimiters false UNOY
       (blit "UNA:+.? 'BGM+220'DTM:137'")
     = Raise (SyntaxError (ExpectedSeparator 3 43%N 58%N))
  /\ parse_edi no_code_pages default_delimiters false UNOY
       (blit "UNA:+.? 'BGM+220'XYZ+137'")
     = Raise (SyntaxError (UnknownSegment (lit "XYZ"))).
Proof.
  split; [|split].
  - apply (parse_edi_rejected_line no_code_pages default_delimiters
             default_delimiters false UNOY
             (blit "UNA:+.? 'BGM+220'UNA:+.? 'DTM+1'")
             (lit "UNA:+.? 'BGM+220'UNA:+.? 'DTM+1'")
             [lit "UNA:+.? "; lit "BGM+220"] [lit "DTM+1"] (lit "UNA:+.? ")
             [una_segment default_delimiters; (lit "BGM", Elements [[lit "220"]])]);
      try (vm_compute; reflexivity).
    discriminate.
  - apply (parse_edi_rejected_line no_code_pages default_delimiters
             default_delimiters false UNOY
             (blit "UNA:+.? 'BGM+220'DTM:137'")
             (lit "UNA:+.? 'BGM+220'DTM:137'")
             [lit "UNA:+.? "; lit "BGM+220"] [] (lit "DTM:137")
             [una_segment default_delimiters; (lit "BGM", Elements [[lit "220"]])]);
      try (vm_compute; reflexivity).
    vm_compute. discriminate.
  - apply (parse_edi_rejected_line no_code_pages default_delimiters
             default_delimiters false UNOY
             (blit "UNA:+.? 'BGM+220'XYZ+137'")
             (lit "UNA:+.? 'BGM+220'XYZ+137'")
             [lit "UNA:+.? "; lit "BGM+220"] [] (lit "XYZ+137")
             [una_segment default_delimiters; (lit "BGM", Elements [[lit "220"]])]);
      vm_compute; reflexivity.
Defined.

(* ================================================================= *)
(** ** Length checks of the report *)

Lemma repr_errors_length (u : Unicode) (representation component t digits : str)
    (n : nat) (errors : list str) :
  representation_parts u representation = Ok (t, digits) ->
  py_int u digits = Ok n ->
  length_violated representation n component = true ->
  repr_errors u representation component = Ok errors ->
  In (lit "    ERROR:" ++ List.last errors [])
     [length_error_line representation digits]
  /\ errors <> [].
Proof.
  intros Hp Hn Hv. unfold repr_errors. rewrite Hp. cbn [bind].
  destruct (mem t _); [|discriminate]. destruct (isdigit u digits); [|discriminate].
  rewrite Hn. cbn [bind]. intros H. injection H as <-.
  unfold length_violated in Hv. unfold length_error_line.
  destruct (has_dots representation).
  - apply negb_true_iff in Hv. rewrite Hv. rewrite !app_assoc.
    rewrite last_last. split; [left; now rewrite <- !app_assoc|].
    intros E. now apply app_eq_nil in E as [_ E].
  - apply negb_true_iff in Hv. rewrite Hv. rewrite !app_assoc.
    rewrite last_last. split; [left; now rewrite <- !app_assoc|].
    intros E. now apply app_eq_nil in E as [_ E].
Qed.

Lemma component_lines_length (u : Unicode) (ed : ED) (segment : str) (cd r : Row)
    (component representation t digits : str) (n : nat) (lines : list str) :
  component <> [] ->
  row_representation r = Some representation ->
  representation_parts u representation = Ok (t, digits) ->
  py_int u digits = Ok n ->
  length_violated representation n component = true ->
  component_lines u ed segment cd (r, component) = Ok lines ->
  In (length_error_line representation digits) lines.
Proof.
  intros Hne Hr Hp Hn Hv. unfold component_lines.
  destruct (code_lookup ed r component) as [[unknown code_name]|]; [|discriminate].
  cbn [bind]. rewrite (nonempty_true component Hne), Hr.
  destruct (repr_errors u representation component) as [errors|] eqn:E;
    [|discriminate].
  cbn [bind]. intros H. injection H as <-.
  destruct (repr_errors_length u _ _ _ _ _ _ Hp Hn Hv E) as [[Hl|[]] Hne'].
  apply in_or_app. right. right. apply in_or_app. left.
  rewrite Hl. apply in_map_iff. exists (List.last errors []). split; [reflexivity|].
  destruct (exists_last Hne') as (l & a & ->). rewrite last_last.
  apply in_or_app. right. now left.
Qed.

(** X13.  A non-empty component that is longer than the maximum of its
    representation ([an..3] holding more than three characters), or that has
    not the exact length of a representation without dots, gets its error
    line in every report that is produced. *)
Theorem report_length_violation :
  forall (ext : str -> Codec) (u : Unicode) (segments : list segment)
         (sd : SD) (ed : ED) (text : str)
         (s_i : nat) (segment : str) (b : body) (entry : SegmentEntry)
         (i_d : nat) (data_element : list str) (cd : Row) (rows : list Row)
         (i_r : nat) (r : Row) (component representation t digits : str)
         (n : nat),
    report ext u segments sd ed = Ok text ->
    nth_error segments s_i = Some (segment, b) ->
    lookup segment sd = Some entry ->
    nth_error (elements_of b) i_d = Some data_element ->
    located_rows (sd_table entry) i_d = Ok (cd, rows) ->
    nth_error rows i_r = Some r ->
    nth_error data_element i_r = Some component ->
    component <> [] ->
    row_representation r = Some representation ->
    representation_parts u representation = Ok (t, digits) ->
    py_int u digits = Ok n ->
    length_violated representation n component = true ->
    occurs (length_error_line representation digits) text.
Proof.
  intros ext u segments sd ed text s_i segment b entry i_d data_element cd rows
         i_r r component representation t digits n
         H Hs Hl Hd Hloc Hr Hc Hne Hrep Hp Hn Hv.
  unfold report in H.
  destruct (report_lines ext u segments sd ed) as [lines|] eqn:E; [|discriminate].
  cbn [bind] in H. injection H as <-.
  destruct (component_lines_of_report ext u sd ed _ _ _ _ _ _ _ _ _ _ _ _ _
              E Hs Hl Hd Hloc Hr Hc) as (cls & Hcls & Hincl).
  apply occurs_join. apply Hincl.
  now apply (component_lines_length u ed segment cd r component representation
               t digits n).
Qed.

Local Open Scope string_scope.

Lemma report_length_violation_witness :
  exists text,
    report no_code_pages ascii_classes
      [seg "LIN" [["1234567"]; ["1"]; ["0764569104"; "IB"]]] example_sd example_ed
    = Ok text
    /\ occurs (lit "    ERROR:repr: an..6,  max. len 6") text.
Proof.
  destruct (report no_code_pages ascii_classes
              [seg "LIN" [["1234567"]; ["1"]; ["0764569104"; "IB"]]]
              example_sd example_ed) as [text|e] eqn:E;
    [|vm_compute in E; discriminate E].
  exists text. split; [reflexivity|].
  apply (report_length_violation no_code_pages ascii_classes
           [seg "LIN" [["1234567"]; ["1"]; ["0764569104"; "IB"]]]
           example_sd example_ed text
           0 (lit "LIN")
           (Elements [[lit "1234567"]; [lit "1"]; [lit "0764569104"; lit "IB"]])
           lin_entry 0 [lit "1234567"]
           (row (Some "010") "1082" "LINE ITEM IDENTIFIER" (Some "an..6") "M" "1")
           lin_table 0
           (row (Some "010") "1082" "LINE ITEM IDENTIFIER" (Some "an..6") "M" "1")
           (lit "1234567") (lit "an..6") (lit "an") (lit "6") 6);
    try exact E; try (vm_compute; reflexivity).
  vm_compute. discriminate.
Defined.

Local Close Scope string_scope.

(* ================================================================= *)
(** ** Dictionaries that annotate a message *)

Lemma mapM_ok_iff {A B} (f : A -> result B) (l : list A) :
  (exists rs, mapM f l = Ok rs) <-> forallb (fun a =>
     match f a with Ok _ => true | Raise _ => false end) l = true.
Proof.
  induction l as [|a l IH]; cbn [mapM forallb].
  - split; [reflexivity | eauto].
  - destruct (f a) as [b|e]; cbn [bind andb].
    + rewrite <- IH. split.
      * intros [rs H]. destruct (mapM f l) as [bs|]; [eauto | discriminate].
      * intros [bs ->]. cbn [bind]. eauto.
    + split; [intros [rs H]; discriminate | discriminate].
Qed.

Lemma forallb_ext_in {A} (f g : A -> bool) (l : list A) :
  (forall a, In a l -> f a = g a) -> forallb f l = forallb g l.
Proof.
  induction l as [|a l IH]; intros H; [reflexivity|]. cbn [forallb].
  rewrite (H a) by now left. rewrite IH; [reflexivity|].
  intros a' Ha'. apply H. now right.
Qed.

Lemma component_attrib_ok (ed : ED) (rc : Row * str) :
  match component_attrib ed rc with Ok _ => true | Raise _ => false end
  = annotatable_component ed rc.
Proof.
  destruct rc as [r c]. unfold component_attrib, annotatable_component.
  cbn [fst]. destruct (lookup (row_code r) ed) as [entry|]; [|reflexivity].
  destruct (ed_table entry) as [table|]; [|reflexivity].
  destruct (nonempty c); [|reflexivity].
  now destruct (lookup c table).
Qed.

Lemma attributed_data_element_ok (ed : ED) (segment : str) (table : list Row)
    (item : nat * list str) :
  match attributed_data_element ed segment table item with
  | Ok _ => true
  | Raise _ => false
  end = annotatable_element ed table item.
Proof.
  destruct item as [d_i e]. unfold attributed_data_element, annotatable_element.
  cbn [fst snd]. destruct (located_rows table d_i) as [[cd rows]|];
    [|reflexivity]. cbn [bind].
  rewrite <- (forallb_ext_in _ _ _ (fun rc _ => component_attrib_ok ed rc)).
  destruct (mapM (component_attrib ed) (combine rows e)) as [attribs|] eqn:E;
    cbn [bind].
  - symmetry. apply mapM_ok_iff. eauto.
  - symmetry. apply not_true_is_false. intros H. apply mapM_ok_iff in H.
    destruct H as [rs H]. congruence.
Qed.

Lemma attributed_segment_ok (sd : SD) (ed : ED) (s : segment) :
  match attributed_segment sd ed s with Ok _ => true | Raise _ => false end
  = annotatable_segment sd ed s.
Proof.
  destruct s as [t b]. unfold attributed_segment, annotatable_segment.
  cbn [fst snd]. destruct (str_eqb t UNA).
  - now destruct (join_body b).
  - destruct (lookup t sd) as [entry|]; [|reflexivity].
    rewrite <- (forallb_ext_in _ _ _
                  (fun item _ => attributed_data_element_ok ed t (sd_table entry) item)).
    destruct (mapM (attributed_data_element ed t (sd_table entry))
                (enumerate (elements_of b))) as [els|] eqn:E; cbn [bind].
    + symmetry. apply mapM_ok_iff. eauto.
    + symmetry. apply not_true_is_false. intros H. apply mapM_ok_iff in H.
      destruct H as [rs H]. congruence.
Qed.

(** X14.  [make_edi_xml] returns a tree exactly when the dictionaries
    annotate every segment: each tag other than [UNA] is a key of [sd], each
    data element has a row for its position, and the code of each row paired
    with a component, empty or not, is a key of [ed].  Unlike [report] it has
    no guard for a tag that [sd] lacks. *)
Theorem make_edi_xml_succeeds_iff :
  forall (segments : list segment) (sd : SD) (ed : ED) (root_tag : str),
    (exists root, make_edi_xml segments sd ed root_tag = Ok root)
    <-> forallb (annotatable_segment sd ed) segments = true.
Proof.
  intros segments sd ed root_tag.
  rewrite <- (forallb_ext_in _ _ _ (fun s _ => attributed_segment_ok sd ed s)).
  rewrite <- mapM_ok_iff. unfold make_edi_xml. split.
  - intros [root H].
    destruct (mapM (attributed_segment sd ed) segments) as [els|];
      [eauto | discriminate].
  - intros [els ->]. cbn [bind]. eauto.
Qed.

(* ================================================================= *)
(** ** When report raises *)







(* ================================================================= *)
(** ** The editor windows of gui.py *)

Lemma list_item_in_range {A} (l : list A) (i : Z) :
  (0 <= i < Z.of_nat (List.length l))%Z ->
  exists a, list_item l i = Ok a /\ nth_error l (Z.to_nat i) = Some a.
Proof.
  intros [H0 H1]. unfold list_item.
  replace (i <? 0)%Z with false by (symmetry; apply Z.ltb_ge; lia).
  replace (i <? 0)%Z with false by (symmetry; apply Z.ltb_ge; lia).
  destruct (nth_error l (Z.to_nat i)) as [a|] eqn:E; [eauto|].
  apply nth_error_None in E. lia.
Qed.

Lemma show_match_ok (ms : list str) (i : Z) :
  ms <> [] ->
  exists m,
    let j := (i mod Z.of_nat (List.length ms))%Z in
    show_match ms i
    = Ok ({| index_matches := Some ms; current_index := Some j |}, Some m)
    /\ (0 <= j < Z.of_nat (List.length ms))%Z
    /\ nth_error ms (Z.to_nat j) = Some m.
Proof.
  intros Hne. assert (Hn : (0 < Z.of_nat (List.length ms))%Z).
  { destruct ms; [congruence | cbn [List.length]; lia]. }
  pose proof (Z.mod_pos_bound i _ Hn) as Hb.
  destruct (list_item_in_range ms _ Hb) as (m & Hm & Hnth).
  exists m. cbn zeta. unfold show_match. rewrite Hm. cbn [bind].
  repeat split; try assumption; lia.
Qed.

Lemma click_next_button_show (m : str) (ms : list str) (index : option Z) :
  click_next_button {| index_matches := Some (m :: ms); current_index := index |}
  = show_match (m :: ms)
      match index with
      | None => 0%Z
      | Some i => (i + 1)%Z
      end.
Proof. reflexivity. Qed.

Lemma click_prev_button_show (m : str) (ms : list str) (index : option Z) :
  click_prev_button {| index_matches := Some (m :: ms); current_index := index |}
  = show_match (m :: ms)
      match index with
      | None => (Z.of_nat (List.length (m :: ms)) - 1)%Z
      | Some i => (i - 1)%Z
      end.
Proof. reflexivity. Qed.

(** X16.  The search buttons of an editor window never fail: whatever the
    index was, after a click on a non-empty list of matches it lies within
    the list, and the match at it is the one that is shown; without matches
    a click changes nothing. *)
Theorem click_buttons_stay_in_range :
  forall (e : Editor) (click : Editor -> result (Editor * option str)),
    click = click_next_button \/ click = click_prev_button ->
    exists e' shown,
      click e = Ok (e', shown)
      /\ index_matches e' = index_matches e
      /\ match index_matches e with
         | Some (m :: ms) =>
             exists i,
               current_index e' = Some i
               /\ (0 <= i < Z.of_nat (List.length (m :: ms)))%Z
               /\ shown = nth_error (m :: ms) (Z.to_nat i)
         | _ => e' = e /\ shown = None
         end.
Proof.
  intros [matches index] click Hc.
  assert (H : forall i m ms,
            exists e' shown,
              show_match (m :: ms) i = Ok (e', shown)
              /\ index_matches e' = Some (m :: ms)
              /\ exists j,
                   current_index e' = Some j
                   /\ (0 <= j < Z.of_nat (List.length (m :: ms)))%Z
                   /\ shown = nth_error (m :: ms) (Z.to_nat j)).
  { intros i m ms.
    destruct (show_match_ok (m :: ms) i) as (x & Hs & Hb & Hn); [discriminate|].
    cbn zeta in *. rewrite Hs. eexists _, _. split; [reflexivity|].
    split; [reflexivity|]. eexists. split; [reflexivity|]. now rewrite Hn. }
  destruct matches as [[|m ms]|].
  - exists {| index_matches := Some []; current_index := index |}, None.
    destruct Hc as [-> | ->]; repeat split.
  - cbn [index_matches].
    destruct Hc as [-> | ->];
      rewrite ?click_next_button_show, ?click_prev_button_show;
      match goal with
      | |- context [show_match (m :: ms) ?i] =>
          destruct (H i m ms) as (e1 & s1 & H1 & H2 & H3)
      end;
      exists e1, s1; repeat split; assumption.
  - exists {| index_matches := None; current_index := index |}, None.
    destruct Hc as [-> | ->]; repeat split.
Qed.

Lemma click_buttons_stay_in_range_witness :
  exists e' shown,
    click_prev_button
      {| index_matches := Some [lit "1.4"; lit "3.7"; lit "9.2"];
         current_index := Some 0%Z |}
    = Ok (e', shown)
    /\ current_index e' = Some 2%Z /\ shown = Some (lit "9.2").
Proof.
  destruct (click_buttons_stay_in_range
              {| index_matches := Some [lit "1.4"; lit "3.7"; lit "9.2"];
                 current_index := Some 0%Z |} click_prev_button)
    as (e' & shown & H & _ & _); [now right|].
  exists e', shown. split; [exact H|].
  vm_compute in H. injection H as <- <-. split; reflexivity.
Defined.

(** X17.  The two search buttons undo each other: from an index within the
    matches, a click on the one and then on the other leaves the editor as
    it was and shows the match it showed. *)
Theorem click_prev_undoes_next :
  forall (m : str) (ms : list str) (i : Z),
    (0 <= i < Z.of_nat (List.length (m :: ms)))%Z ->
    let e := {| index_matches := Some (m :: ms); current_index := Some i |} in
    (exists e1 s1,
       click_next_button e = Ok (e1, s1)
       /\ click_prev_button e1 = Ok (e, nth_error (m :: ms) (Z.to_nat i)))
    /\ (exists e1 s1,
          click_prev_button e = Ok (e1, s1)
          /\ click_next_button e1 = Ok (e, nth_error (m :: ms) (Z.to_nat i))).
Proof.
  intros m ms i Hi e. subst e.
  set (n := Z.of_nat (List.length (m :: ms))) in *.
  assert (Hn : (0 < n)%Z) by lia.
  assert (Hback : forall k,
            ((k mod n) mod n = i mod n)%Z ->
            show_match (m :: ms) k
            = Ok ({| index_matches := Some (m :: ms); current_index := Some i |},
                  nth_error (m :: ms) (Z.to_nat i))).
  { intros k Hk. rewrite Z.mod_mod in Hk by lia.
    rewrite (Z.mod_small i n) in Hk by lia.
    destruct (show_match_ok (m :: ms) k) as (x & Hs & _ & Hx); [discriminate|].
    cbn zeta in *. fold n in Hs, Hx. rewrite Hk in *. now rewrite Hs, Hx. }
  split.
  - destruct (show_match_ok (m :: ms) (i + 1)) as (x & Hs & _); [discriminate|].
    cbn zeta in Hs. fold n in Hs.
    eexists _, _. rewrite click_next_button_show.
    split; [exact Hs|].
    rewrite click_prev_button_show.
    apply Hback. rewrite Z.mod_mod by lia.
    rewrite Zminus_mod_idemp_l. f_equal. lia.
  - destruct (show_match_ok (m :: ms) (i - 1)) as (x & Hs & _); [discriminate|].
    cbn zeta in Hs. fold n in Hs.
    eexists _, _. rewrite click_prev_button_show.
    split; [exact Hs|].
    rewrite click_next_button_show.
    apply Hback. rewrite Z.mod_mod by lia.
    rewrite Zplus_mod_idemp_l. f_equal. lia.
Qed.

Lemma click_prev_undoes_next_witness :
  exists e1 s1,
    click_next_button
      {| index_matches := Some [lit "1.4"; lit "3.7"; lit "9.2"];
         current_index := Some 2%Z |}
    = Ok (e1, s1)
    /\ click_prev_button e1
       = Ok ({| index_matches := Some [lit "1.4"; lit "3.7"; lit "9.2"];
                current_index := Some 2%Z |}, Some (lit "9.2")).
Proof.
  apply (click_prev_undoes_next (lit "1.4") [lit "3.7"; lit "9.2"] 2).
  cbn [List.length]. lia.
Defined.

Lemma decode_content_utf8 (ext : str -> Codec) (text : str) (data : bytes) :
  encode utf8_codec text = Some data ->
  decode_content ext UNOY data = Ok text.
Proof.
  intros H. unfold decode_content.
  change (lookup UNOY ENCODINGS) with (Some (lit "utf8")). cbv iota beta.
  change (lookup_codec ext (lit "utf8")) with utf8_codec.
  cbn [decode utf8_codec]. cbn [encode utf8_codec] in H.
  now rewrite (utf8_decode_encode text data H).
Qed.

Lemma editor_edi_text_written (ext : str -> Codec) (segments : list segment)
    (text : str) :
  find_uno UNOY segments = Ok UNOY ->
  editor_edi_text ext segments = Ok text ->
  make_text default_delimiters true false true segments = Ok text.
Proof.
  intros Hu. unfold editor_edi_text.
  destruct (make_edi ext default_delimiters UNOY true false true segments)
    as [data|] eqn:Hm; [|discriminate]. cbn [bind].
  destruct (make_edi_inv _ _ _ _ _ _ _ _ Hm) as (text0 & uno & name & Ht & Hf & Hl & He).
  rewrite Hu in Hf. injection Hf as <-.
  change (lookup UNOY ENCODINGS) with (Some (lit "utf8")) in Hl.
  injection Hl as <-.
  replace (lookup_codec ext (lit "utf8")) with utf8_codec in He by reflexivity.
  cbn [encode decode utf8_codec] in *.
  rewrite (utf8_decode_encode text0 data He). intros H. injection H as <-.
  exact Ht.
Qed.

(** X18.  What the EDI editor shows can be edited: for a message in UTF-8
    (no [UNB] segment, or one that names [UNOY]) of which no component ends
    with the release character, the text that [reload] puts into the editor,
    followed by characters that hold no unescaped terminator (the line feed
    that the text widget appends, say), is read by [edit_edifact] as the
    advice and the written segments, provided the sniffer settles on
    [UNOY]. *)
Theorem edit_edifact_reads_editor_text :
  forall (ext : str -> Codec) (segments : list segment) (text tail : str)
         (data : bytes),
    editor_edi_text ext segments = Ok text ->
    find_uno UNOY segments = Ok UNOY ->
    forallb (components_ok RELEASE_CHAR) (payload segments) = true ->
    escaped RELEASE_CHAR SEGMENT_TERMINATOR false tail = true ->
    encode utf8_codec (text ++ tail) = Some data ->
    sniff_encoding UNOY data = Ok UNOY ->
    edit_edifact ext (text ++ tail)
    = Ok (una_segment default_delimiters :: List.map normal (payload segments)).
Proof.
  intros ext segments text tail data Ht Hu Hok He Hd Hs.
  apply (editor_edi_text_written ext segments text Hu) in Ht.
  unfold edit_edifact. rewrite Hd. unfold parse_edi, read_content.
  rewrite Hs. cbn [bind]. rewrite (decode_content_utf8 ext _ _ Hd). cbn [bind].
  apply (parse_content_made default_delimiters default_delimiters true false
           segments text tail); try assumption; try reflexivity.
Qed.

Lemma edit_edifact_reads_editor_text_witness :
  exists text,
    editor_edi_text no_code_pages (una_segment default_delimiters :: example_segments)
    = Ok text
    /\ edit_edifact no_code_pages (text ++ [NEWLINE])
       = Ok (una_segment default_delimiters :: example_segments).
Proof.
  exists (match editor_edi_text no_code_pages
                  (una_segment default_delimiters :: example_segments) with
          | Ok text => text
          | Raise _ => []
          end).
  split; [vm_compute; reflexivity|].
  change (una_segment default_delimiters :: example_segments)
    with (una_segment default_delimiters
          :: List.map normal
               (payload (una_segment default_delimiters :: example_segments)))
    at 2.
  match goal with
  | |- edit_edifact _ (?t ++ ?tl) = _ =>
      apply (edit_edifact_reads_editor_text no_code_pages
               (una_segment default_delimiters :: example_segments) t tl
               (match encode utf8_codec (t ++ tl) with
                | Some data => data
                | None => []
                end))
  end;
    vm_compute; reflexivity.
Defined.

(* ================================================================= *)
(** ** The sniffer on what make_edi writes *)

Lemma encode_below_prefix (bound : N) (prefix rest : str) (data : bytes) :
  encode_below bound (prefix ++ rest) = Some data ->
  exists data', data = List.map byte_of_N prefix ++ data'.
Proof.
  revert data; induction prefix as [|c prefix IH]; intros data H.
  - now exists data.
  - cbn [app encode_below] in H. destruct (c <? bound)%N; [|discriminate].
    destruct (encode_below bound (prefix ++ rest)) as [bs|]; [|discriminate].
    injection H as <-. destruct (IH bs eq_refl) as [data' ->].
    now exists data'.
Qed.

Lemma utf8_encode_prefix (prefix rest : str) (data : bytes) :
  forallb (fun c => (c <? 128)%N) prefix = true ->
  utf8_encode (prefix ++ rest) = Some data ->
  exists data', data = List.map byte_of_N prefix ++ data'.
Proof.
  revert data; induction prefix as [|c prefix IH]; intros data Hp H.
  - now exists data.
  - cbn [forallb] in Hp. apply andb_true_iff in Hp as [Hc Hp].
    cbn [app utf8_encode] in H. unfold utf8_encode_char in H. rewrite Hc in H.
    destruct (utf8_encode (prefix ++ rest)) as [bs|]; [|discriminate].
    injection H as <-. destruct (IH bs Hp eq_refl) as [data' ->].
    now exists data'.
Qed.

Lemma builtin_cases (uno : str) :
  builtin uno = true ->
  uno = lit "UNOA" \/ uno = lit "UNOB" \/ uno = lit "UNOC" \/ uno = lit "UNOY".
Proof.
  unfold builtin. cbn [mem]. rewrite orb_false_r. intros Hb.
  repeat (apply orb_true_iff in Hb as [Hb|Hb]); apply str_eqb_eq in Hb; auto.
Qed.

Lemma builtin_encode_prefix (ext : str -> Codec) (uno name prefix rest : str)
    (data : bytes) :
  builtin uno = true -> lookup uno ENCODINGS = Some name ->
  forallb (fun c => (c <? 128)%N) prefix = true ->
  encode (lookup_codec ext name) (prefix ++ rest) = Some data ->
  exists data', data = List.map byte_of_N prefix ++ data'.
Proof.
  intros Hb Hl Hp.
  destruct (builtin_cases uno Hb) as [-> | [-> | [-> | ->]]]; vm_compute in Hl;
    apply Some_eq in Hl; subst name; cbn [lookup_codec str_eqb lit].
  - apply encode_below_prefix.
  - apply encode_below_prefix.
  - apply encode_below_prefix.
  - now apply utf8_encode_prefix.
Qed.

Lemma sniff_interchange (de uno : str) (wn wc : bool) (data' : bytes) :
  builtin uno = true ->
  sniff_encoding de (List.map byte_of_N (interchange_prefix wn wc uno) ++ data')
  = Ok uno.
Proof.
  intros Hb.
  destruct (builtin_cases uno Hb) as [-> | [-> | [-> | ->]]]; destruct wn, wc;
    reflexivity.
Qed.

Lemma interchange_prefix_ascii (uno : str) (wn wc : bool) :
  builtin uno = true ->
  forallb (fun c => (c <? 128)%N) (interchange_prefix wn wc uno) = true.
Proof.
  intros Hb.
  destruct (builtin_cases uno Hb) as [-> | [-> | [-> | ->]]]; destruct wn, wc;
    reflexivity.
Qed.

Lemma escape_builtin (uno : str) :
  builtin uno = true -> escape_component default_delimiters uno = uno.
Proof.
  intros Hb. destruct (builtin_cases uno Hb) as [-> | [-> | [-> | ->]]]; reflexivity.
Qed.

Lemma join_cons_prefix (sep x : str) (xs : list str) :
  exists rest, join sep (x :: xs) = x ++ rest.
Proof.
  destruct xs as [|y xs]; cbn [join].
  - exists []. now rewrite app_nil_r.
  - eauto.
Qed.

Lemma find_uno_payload (de : str) (segments : list segment) :
  find_uno de segments = find_uno de (payload segments).
Proof.
  induction segments as [|[t b] segments IH]; [reflexivity|].
  cbn [payload filter]. unfold is_una. cbn [fst].
  destruct (str_eqb t UNA) eqn:E; cbn [negb find_uno].
  - apply str_eqb_eq in E. subst t. change (str_eqb UNA UNB) with false.
    cbn iota. exact IH.
  - destruct (str_eqb t UNB); [reflexivity | exact IH].
Qed.

Lemma make_text_interchange (wn wc : bool) (segments P : list segment)
    (uno : str) (components : list str) (elements : list (list str))
    (text : str) :
  (wc = true -> wn = true) ->
  builtin uno = true ->
  payload segments = (UNB, Elements ((uno :: components) :: elements)) :: P ->
  make_text default_delimiters wn wc true segments = Ok text ->
  exists rest, text = interchange_prefix wn wc uno ++ rest.
Proof.
  intros Hf Hb Hp Ht.
  destruct (make_text_inv _ _ _ _ _ _ Ht) as [Hu Hem].
  destruct (make_text_broken default_delimiters wn wc true segments Hf Hu Hem)
    as (brs & Ht' & Hl & _).
  rewrite Ht in Ht'. injection Ht' as ->. rewrite Hp in *.
  destruct brs as [|br brs]; [discriminate|].
  unfold message_pieces. cbn [List.map combine app].
  rewrite <- (app_nil_r (broken _ _)). rewrite broken_cons.
  rewrite <- (app_nil_r (broken _ _)). rewrite broken_cons.
  unfold segment_text. cbn [fst snd elements_of List.map].
  destruct (join_cons_prefix [dataelement_separator default_delimiters]
              (element_text default_delimiters (uno :: components))
              (List.map (element_text default_delimiters) elements))
    as [r2 ->].
  unfold element_text at 1. cbn [List.map].
  destruct (join_cons_prefix [component_separator default_delimiters]
              (escape_component default_delimiters uno)
              (List.map (escape_component default_delimiters) components))
    as [r1 ->].
  rewrite (escape_builtin uno Hb).
  exists (r1 ++ r2
          ++ segment_terminator default_delimiters
             :: br ++ broken (segment_terminator default_delimiters)
                        (combine (List.map (segment_text default_delimiters) P) brs)
                ++ []).
  unfold interchange_prefix.
  change (segment_terminator default_delimiters) with SEGMENT_TERMINATOR.
  change (dataelement_separator default_delimiters) with DATAELEMENT_SEPARATOR.
  repeat (rewrite <- !app_assoc; cbn [app]). rewrite ?app_nil_r.
  reflexivity.
Qed.

(** X19.  The round trip of an interchange needs no proviso on the codec:
    under the default delimiters, for segments whose first written segment is
    a [UNB] that names UNOA, UNOB, UNOC or UNOY and of which no component
    ends with the release character, [parse_edi] finds the identifier in the
    bytes that [make_edi] wrote, decodes them with the codec that encoded
    them, and returns the UNA segment followed by the written segments, with
    or without line breaks. *)
Theorem interchange_round_trip :
  forall (ext : str -> Codec) (p : Delimiters) (de : str) (warn : bool)
         (wn wc : bool) (segments P : list segment) (uno : str)
         (components : list str) (elements : list (list str)) (data : bytes),
    newline p = NEWLINE -> carriage_return p = CARRIAGE_RETURN ->
    (wc = true -> wn = true) ->
    builtin uno = true ->
    payload segments = (UNB, Elements ((uno :: components) :: elements)) :: P ->
    forallb (components_ok RELEASE_CHAR) (payload segments) = true ->
    make_edi ext default_delimiters de wn wc true segments = Ok data ->
    parse_edi ext p warn de data
    = Ok (una_segment default_delimiters :: List.map normal (payload segments)).
Proof.
  intros ext p de warn wn wc segments P uno components elements data
         Hn Hc Hf Hb Hp Hok Hm.
  destruct (make_edi_inv _ _ _ _ _ _ _ _ Hm)
    as (text & uno' & name & Ht & Hfu & Hl & He).
  assert (Hfu' : find_uno de segments = Ok uno).
  { rewrite find_uno_payload, Hp. reflexivity. }
  rewrite Hfu' in Hfu. injection Hfu as <-.
  destruct (make_text_interchange wn wc segments P uno components elements text
              Hf Hb Hp Ht) as [rest ->].
  destruct (builtin_encode_prefix ext uno name _ _ data Hb Hl
              (interchange_prefix_ascii uno wn wc Hb) He) as [data' ->].
  pose proof (sniff_interchange de uno wn wc data' Hb) as Hs.
  pose proof (read_content_builtin ext default_delimiters de uno wn wc true
                segments _ Hm Hfu' Hb Hs) as Hr.
  unfold parse_edi. rewrite Hr, Ht. cbn [bind].
  rewrite <- (app_nil_r (interchange_prefix wn wc uno ++ rest)).
  apply (parse_content_made default_delimiters p wn wc segments);
    try assumption; reflexivity.
Qed.

Lemma interchange_round_trip_witness :
  exists data,
    make_edi no_code_pages default_delimiters (lit "UNOA") true true true
      example_segments = Ok data
    /\ parse_edi no_code_pages default_delimiters false (lit "UNOA") data
       = Ok (una_segment default_delimiters :: example_segments).
Proof.
  destruct (make_edi no_code_pages default_delimiters (lit "UNOA") true true true
              example_segments) as [data|] eqn:E; [|vm_compute in E; discriminate E].
  exists data. split; [reflexivity|].
  change (una_segment default_delimiters :: example_segments)
    with (una_segment default_delimiters
          :: List.map normal (payload example_segments)).
  apply (interchange_round_trip no_code_pages default_delimiters (lit "UNOA")
           false true true example_segments (List.tl example_segments) UNOY
           [lit "3"]
           [[lit "INVALIDATORSTUDIO"; lit "1"]; [lit "BYTESREADER"; lit "1"];
            [lit "20180630"; lit "1159"]; [lit "6002"]]);
    try exact E; try (vm_compute; reflexivity).
Defined.

(* ================================================================= *)
(** ** A carriage return without a line feed *)

Lemma mapM_segment_strings_pieces (d : Delimiters) (wn wc : bool) (n i : nat)
    (segments : list segment) :
  emittable i segments = true ->
  exists strings brs,
    mapM (segment_strings d wn wc n) (enumerate_from i segments) = Ok strings
    /\ List.concat (List.concat strings)
       = broken (segment_terminator d)
           (combine (List.map (segment_text d) (payload segments)) brs)
    /\ List.length brs = List.length (payload segments)
    /\ Forall (fun br => br = [] \/ br = break_text d wn wc) brs.
Proof.
  revert i; induction segments as [|seg rest IH]; intros i He.
  - exists [], []. repeat split; try reflexivity. constructor.
  - cbn [emittable] in He. apply andb_true_iff in He as [H1 H2].
    destruct (IH (S i) H2) as (strs & brs & Hs & Hc & Hl & Hb).
    cbn [enumerate_from mapM payload filter].
    destruct (is_una seg) eqn:Eu.
    + apply Nat.eqb_eq in H1. subst i.
      rewrite (segment_strings_una_flags d wn wc n seg Eu). cbn [bind].
      rewrite Hs. cbn [bind negb]. exists ([] :: strs), brs.
      repeat split; try assumption.
    + destruct (segment_strings_flags d wn wc n i seg Eu H1) as (l & Hl1 & Hlc).
      rewrite Hl1. cbn [bind]. rewrite Hs. cbn [bind negb].
      exists (l :: strs), ((if n - 1 =? i then [] else break_text d wn wc) :: brs).
      repeat split.
      * cbn [List.concat List.map combine]. rewrite concat_app, Hlc, Hc.
        unfold broken. cbn [List.map List.concat fst snd]. reflexivity.
      * cbn [List.length]. now rewrite Hl.
      * constructor; [|exact Hb]. destruct (n - 1 =? i); auto.
Qed.

Lemma broken_shift (st : char) (pbs : list (str * str)) (b : str) :
  b ++ broken st pbs
  = terminated st (fst (shift_breaks b pbs)) ++ snd (shift_breaks b pbs).
Proof.
  revert b; induction pbs as [|[p br] pbs IH]; intros b.
  - cbn. now rewrite app_nil_r.
  - cbn [shift_breaks]. specialize (IH br).
    destruct (shift_breaks br pbs) as [ps tail]. cbn [fst snd] in *.
    rewrite <- (app_nil_r (broken st ((p, br) :: pbs))). rewrite broken_cons.
    rewrite app_nil_r. rewrite IH. unfold terminated.
    cbn [List.map List.concat]. rewrite <- !app_assoc. reflexivity.
Qed.

Section CarriageReturnAlone.

Variable d : Delimiters.
Hypothesis Hplain : plain_delimiters d = true.
Hypothesis Hcr : is_upper (carriage_return d) = false.

Local Abbreviation rc := (release_char d).
Local Abbreviation st := (segment_terminator d).
Local Abbreviation cr := (carriage_return d).
Local Abbreviation nl := (newline d).
Local Abbreviation ds := (dataelement_separator d).

Lemma shifted_piece_ok (b : str) (seg : segment) :
  b = [] \/ b = [cr] -> writable d seg = true ->
  piece_break_ok rc st cr nl (b ++ segment_text d seg, []) = true.
Proof.
  destruct (unique_break_facts d (plain_unique d Hplain))
    as (Esr & Enr & Enc & Ecr & Ecs).
  intros Hb Hw. unfold writable in Hw. apply andb_true_iff in Hw as [H1 H2].
  pose proof (written_segment_piece d Hplain seg H1 H2) as Hp.
  pose proof (written_segment_plain d Hplain seg H1) as Hs.
  unfold piece_break_ok. cbn [fst snd is_break]. rewrite andb_true_r.
  destruct Hb as [-> | ->]; cbn [app]; [now rewrite Hp, Hs|].
  apply piece_ok_inv in Hp as [He Hn].
  unfold piece_ok. cbn [escaped ends_rc]. rewrite Ecr, Ecs, He, Hn. cbn [negb orb andb].
  destruct (segment_text d seg) as [|a [|a' s]]; try discriminate Hs.
  cbn [starts_plain] in *. apply andb_true_iff in Hs as [Ha _].
  rewrite Ha, andb_true_r. rewrite N.eqb_sym. now rewrite Enc.
Qed.

Lemma shift_breaks_ok (P : list segment) (brs : list str) (b : str) :
  b = [] \/ b = [cr] ->
  forallb (writable d) P = true ->
  Forall (fun br => br = [] \/ br = [cr]) brs ->
  List.length brs = List.length P ->
  let ps := fst (shift_breaks b (combine (List.map (segment_text d) P) brs)) in
  let tail := snd (shift_breaks b (combine (List.map (segment_text d) P) brs)) in
  forallb (piece_break_ok rc st cr nl) (List.map (fun p => (p, [])) ps) = true
  /\ escaped rc st false tail = true
  /\ List.length ps = List.length P
  /\ (forall seg P', P = seg :: P' ->
        exists ps', ps = (b ++ segment_text d seg) :: ps').
Proof.
  destruct (unique_break_facts d (plain_unique d Hplain))
    as (Esr & Enr & Enc & Ecr & Ecs).
  revert brs b; induction P as [|seg P IH]; intros [|br brs] b Hb HP Hbrs Hl;
    try discriminate Hl.
  - cbn. repeat split; try reflexivity; [|discriminate].
    destruct Hb as [-> | ->]; cbn [escaped]; [reflexivity|].
    now rewrite Ecs.
  - cbn [forallb] in HP. apply andb_true_iff in HP as [Hs HP].
    inversion Hbrs as [|? ? Hbr Hbrs']; subst.
    injection Hl as Hl.
    specialize (IH brs br Hbr HP Hbrs' Hl).
    cbn [List.map combine shift_breaks] in *.
    destruct (shift_breaks br (combine (List.map (segment_text d) P) brs))
      as [ps tail].
    cbn [fst snd] in *. cbn zeta in *. destruct IH as (I1 & I2 & I3 & _).
    repeat split.
    + cbn [List.map forallb]. rewrite I1, andb_true_r.
      now apply shifted_piece_ok.
    + exact I2.
    + cbn [List.length]. now rewrite I3.
    + intros seg' P' E. injection E as <- <-. eauto.
Qed.

Lemma parse_line_after_cr (seg : segment) :
  writable d seg = true ->
  parse_line d (1, replace [rc; st] [st] (cr :: segment_text d seg))
  = Raise (SyntaxError (cr_alone_error d (fst seg))).
Proof.
  destruct (plain_facts d Hplain)
    as (_ & _ & _ & _ & _ & _ & Hrs & _).
  destruct (unique_break_facts d (plain_unique d Hplain))
    as (Esr & Enr & Enc & Ecr & Ecs).
  intros Hw. unfold writable in Hw. apply andb_true_iff in Hw as [H1 H2].
  rewrite replace_delete by congruence.
  rewrite del_cons_other by (now apply N.eqb_neq).
  rewrite <- replace_delete by congruence.
  rewrite (written_segment_read d Hplain seg H1).
  destruct seg as [t b]. cbn [fst snd] in *.
  destruct (segments_shape t H1) as (x & y & z & -> & Hx & Hy & Hz & _).
  cbn [app]. unfold parse_line.
  assert (Hu : startswith (cr :: x :: y :: z :: ds :: join [ds]
                 (List.map (fun e => join [component_separator d]
                              (List.map (in_segment d) e)) (elements_of b))) UNA
               = false).
  { cbn [UNA startswith].
    assert (E : N.eqb 85 cr = false)
      by (apply N.eqb_neq, (upper_neq _ _ Hcr); reflexivity).
    now rewrite E. }
  rewrite Hu. unfold cr_alone_error. cbn [nth_error firstn].
  destruct (N.eqb z ds) eqn:Ez.
  - assert (Hm : mem [cr; x; y] SEGMENTS = false).
    { apply not_true_is_false. intros Hm.
      apply (in_tag cr [cr; x; y] Hm Hcr). now left. }
    rewrite Hm. reflexivity.
  - reflexivity.
Qed.

Lemma parse_content_cr_alone (p : Delimiters) (seg : segment) (P : list segment)
    (brs : list str) :
  newline p = newline d -> carriage_return p = carriage_return d ->
  forallb (writable d) (seg :: P) = true ->
  Forall (fun br => br = [] \/ br = [cr]) brs ->
  List.length brs = List.length (seg :: P) ->
  parse_content p (broken st (message_pieces d true [cr] (seg :: P) brs))
  = Raise (SyntaxError (cr_alone_error d (fst seg))).
Proof.
  intros Hn Hc HP Hbrs Hl. unfold parse_content, message_pieces. cbn [app].
  rewrite <- (app_nil_r (broken _ _)). rewrite broken_cons.
  rewrite (resolve_una_written d Hplain p _ Hn Hc). cbn [bind].
  rewrite (plain_unique d Hplain). rewrite app_nil_r.
  rewrite broken_shift.
  destruct (shift_breaks_ok (seg :: P) brs [cr] (or_intror eq_refl) HP Hbrs Hl)
    as (H1 & H2 & H3 & H4).
  destruct (H4 seg P eq_refl) as [ps' Hps].
  set (sh := shift_breaks [cr] (combine (List.map (segment_text d) (seg :: P)) brs))
    in *.
  assert (E : una_text d ++ st :: terminated st (fst sh) ++ snd sh
              = broken st (List.map (fun q => (q, [])) (una_text d :: fst sh))
                ++ snd sh).
  { cbn [List.map]. rewrite broken_cons. cbn [app]. do 2 f_equal.
    unfold terminated, broken. rewrite map_map. reflexivity. }
  rewrite E. rewrite (split_lines_broken d Hplain); [| |exact H2].
  - cbn [bind]. rewrite (map_map (fun q : str => (q, @nil char)) fst).
    cbn [fst]. rewrite map_id.
    rewrite Hps. unfold enumerate. cbn [List.map enumerate_from mapM].
    rewrite (parse_line_una d Hplain). cbn [bind].
    cbn [forallb] in HP. apply andb_true_iff in HP as [Hs _].
    cbn [app]. rewrite (parse_line_after_cr seg Hs).
    cbn [bind]. reflexivity.
  - cbn [List.map forallb]. rewrite H1, andb_true_r.
    unfold piece_break_ok. cbn [fst snd is_break].
    now rewrite (una_text_piece d Hplain), (una_text_plain d Hplain).
Qed.

End CarriageReturnAlone.

(** X20.  A carriage return without a line feed makes the output unreadable.
    Take what [make_edi] writes with [with_carriage_return] but without
    [with_newline], under delimiters that can be cut up again and a carriage
    return that is not an uppercase letter, from segments of which the first
    one other than [UNA] has the tag [t] and of which no component ends with
    the release character; let the bytes decode to the text that was
    written.  Then [parse_edi] raises the syntax error of the line after the
    advice, at the start of which the carriage return is left: line 2
    expects the data-element separator where the third letter of [t] stands
    (or, should that letter be the separator, the carriage return and the
    first two letters of [t] are an unknown segment). *)
Theorem carriage_return_alone_unreadable :
  forall (ext : str -> Codec) (d p : Delimiters) (de : str) (warn : bool)
         (segments : list segment) (seg : segment) (P : list segment)
         (data : bytes),
    plain_delimiters d = true ->
    is_upper (carriage_return d) = false ->
    newline p = newline d -> carriage_return p = carriage_return d ->
    forallb (components_ok (release_char d)) (payload segments) = true ->
    payload segments = seg :: P ->
    make_edi ext d de false true true segments = Ok data ->
    read_content ext de data = make_text d false true true segments ->
    parse_edi ext p warn de data
    = Raise (SyntaxError (cr_alone_error d (fst seg))).
Proof.
  intros ext d p de warn segments seg P data Hplain Hcr Hn Hc Hok Hp Hm Hr.
  destruct (make_edi_inv _ _ _ _ _ _ _ _ Hm) as (text & uno & name & Ht & _).
  unfold parse_edi. rewrite Hr, Ht. cbn [bind].
  destruct (make_text_inv _ _ _ _ _ _ Ht) as [Hu Hem].
  unfold make_text in Ht. rewrite Hu in Ht.
  destruct (mapM_segment_strings_pieces d false true (List.length segments) 0
              segments Hem) as (strs & brs & Hs & Hcc & Hl & Hb).
  unfold enumerate in Ht. rewrite Hs in Ht. cbn [bind] in Ht.
  injection Ht as <-.
  pose proof (writable_payload d 0 segments Hem Hok) as Hw.
  rewrite Hp in Hcc, Hl, Hw.
  rewrite <- (parse_content_cr_alone d Hplain Hcr p seg P brs Hn Hc Hw Hb Hl).
  f_equal.
  rewrite Hcc. unfold message_pieces.
  cbn [app]. rewrite <- (app_nil_r (broken _ (_ :: _))). rewrite broken_cons.
  rewrite app_nil_r. unfold una_text. cbn [UNA app].
  reflexivity.
Qed.

(** The docstring's segments: the line after the advice starts with the
    carriage return and [UNB], and its fourth character is the letter B. *)
Lemma carriage_return_alone_unreadable_witness :
  exists data,
    make_edi no_code_pages default_delimiters UNOY false true true example_segments
    = Ok data
    /\ parse_edi no_code_pages default_delimiters false UNOY data
       = Raise (SyntaxError (ExpectedSeparator 2 43%N 66%N)).
Proof.
  exists (match make_edi no_code_pages default_delimiters UNOY false true true
                  example_segments with
          | Ok data => data
          | Raise _ => []
          end).
  split; [vm_compute; reflexivity|].
  change (ExpectedSeparator 2 43%N 66%N)
    with (cr_alone_error default_delimiters
            (fst (List.hd (UNA, Elements []) example_segments))).
  apply (carriage_return_alone_unreadable no_code_pages default_delimiters
           default_delimiters UNOY false example_segments
           (List.hd (UNA, Elements []) example_segments)
           (List.tl example_segments));
    vm_compute; reflexivity.
Defined.
